(** * The Orb trackball firmware: axis accumulators, button debouncer and
      sensor bus protocol

    A shallow embedding of [axes.c], of the report callback
    [CALLBACK_HID_Device_CreateHIDReport] of [usb.c] and of the sensor
    code of [main.c], followed by the properties of the specification
    that concern them.

    Conventions.
    - Fixed-width C integers are values of [Z]; every narrowing
      conversion is written out ([to_uint8], [to_uint16], [to_int16]).
    - The accumulators of [axes.c] are C [double]s: IEEE 754 binary64
      numbers, whose sums, products and quotients are rounded to nearest
      with ties to even.  They are the [spec_float] values of the
      standard library with a precision of 53 bits, and the arithmetic
      is the library's; nothing is idealised into real arithmetic.  The
      number a finite [double] stands for is [value], a rational.  A
      compiler that gives [double] another format is outside the
      model.
    - ISO C defines the conversion [(int16_t)ix] only when the integral
      part lies in the range of [int16_t].  The properties below are
      stated where the conversion is defined; what the definition
      returns elsewhere is used only to exhibit reports that are not
      clamped.
    - The SPI bus is a state: the attached device and the chronological
      list of what the firmware did on the bus (chip select, delays,
      bytes sent). *)

From Stdlib Require Import ZArith QArith Qabs Qpower List Lia Lqa Bool.
From Stdlib Require Import Floats.SpecFloat.
From Stdlib Require Strings.Byte.
Import ListNotations.

Local Open Scope Z_scope.

(** ** Fixed-width integers *)

Definition to_uint8 (x : Z) : Z := x mod 256.

Definition to_uint16 (x : Z) : Z := x mod 65536.

Definition to_int16 (x : Z) : Z := (x + 32768) mod 65536 - 32768.

Definition INT16_MIN : Z := -32768.
Definition INT16_MAX : Z := 32767.

Definition fits_int16 (x : Z) : bool := (INT16_MIN <=? x) && (x <=? INT16_MAX).

(** ** config.h *)

Definition RESOLUTION : Z := 16000.
Definition DEBOUNCE_INTERVAL : Z := 5.
Definition POINTER_ROTATION : Z := -22.

(** Bit numbers of port D, from the AVR device header. *)
Definition PIND1 : Z := 1.
Definition PIND2 : Z := 2.
Definition PIND3 : Z := 3.
Definition PIND4 : Z := 4.
Definition PIND5 : Z := 5.
Definition PIND6 : Z := 6.

Definition BUTTON_GROUND : Z := PIND6.
Definition BUTTON_A : Z := PIND4.
Definition BUTTON_B : Z := PIND5.
Definition BUTTON_C : Z := PIND2.
Definition BUTTON_D : Z := PIND3.
Definition BUTTON_E : Z := PIND1.
Definition BUTTONS : list Z := [BUTTON_C; BUTTON_B; BUTTON_A; BUTTON_E].
Definition SCROLL_BUTTON : Z := BUTTON_D.

(** ** Doubles *)

(** A C [double]: an IEEE 754 binary64 number, with the arithmetic of
    the standard in its default rounding mode (to nearest, ties to
    even). *)
Definition double : Type := spec_float.

Definition binary64_prec : Z := 53.
Definition binary64_emax : Z := 1024.

Definition double_opp : double -> double := SFopp.
Definition double_add : double -> double -> double :=
  SFadd binary64_prec binary64_emax.
Definition double_mul : double -> double -> double :=
  SFmul binary64_prec binary64_emax.
Definition double_div : double -> double -> double :=
  SFdiv binary64_prec binary64_emax.

(** The [double] of sign [s] with the mantissa [m] at the exponent [e],
    for a mantissa of at most 53 bits, or one that rounding carried to
    2^53; an infinity past the largest exponent. *)
Definition pack (s : bool) (m e : Z) : double :=
  match m with
  | Z0 => S754_zero s
  | Zpos p =>
      if m =? 2 ^ 53 then
        if e + 1 <=? 971 then S754_finite s (2 ^ 52) (e + 1)
        else S754_infinity s
      else
        if e <=? 971 then S754_finite s p e else S754_infinity s
  | Zneg _ => S754_nan
  end.

(** Conversion of an integer to [double]; exact for the 16-bit integers
    the firmware converts. *)
Definition double_of_int (z : Z) : double :=
  binary_normalize binary64_prec binary64_emax z 0 false.

(** The [double] of a decimal constant [n / d] of the source text: the
    nearest one. *)
Definition decimal (n d : Z) : double :=
  double_div (double_of_int n) (double_of_int d).

Definition is_finite (x : double) : bool :=
  match x with
  | S754_zero _ | S754_finite _ _ _ => true
  | S754_infinity _ | S754_nan => false
  end.

Definition is_nan (x : double) : bool :=
  match x with
  | S754_nan => true
  | _ => false
  end.

(** The [spec_float]s that are binary64 numbers: a mantissa of at most
    53 bits, at the exponent of its binade. *)
Definition is_double (x : double) : bool :=
  valid_binary binary64_prec binary64_emax x.

(** The number a finite [double] stands for (zero for the others). *)
Definition value (x : double) : Q :=
  match x with
  | S754_finite s m (Zneg k) => cond_Zopp s (Zpos m) # 2 ^ k
  | S754_finite s m e => inject_Z (cond_Zopp s (Zpos m) * 2 ^ e)
  | _ => 0
  end.

(** The magnitude of the mantissa [m] at the exponent [e]. *)
Definition mag (m e : Z) : Q := inject_Z m * 2 ^ e.

(** Bounds on what one rounding adds: a fraction [binary64_eps] of the
    exact result, or [binary64_tiny] when the result is subnormal. *)
Definition binary64_eps : Q := Eval vm_compute in 2 ^ (-52).
Definition binary64_tiny : Q := 2 ^ (-1074).

(** Integral part of a rational, rounded toward zero. *)
Definition Qtrunc (x : Q) : Z := Z.quot (Qnum x) (Zpos (Qden x)).

(** Integral part of a [double], rounded toward zero. *)
Definition trunc (x : double) : Z := Qtrunc (value x).

(** [modf(x, &ix)]: the pair (fractional part, integral part), both with
    the sign of [x]; both are exact. *)
Definition modf (x : double) : double * double :=
  match x with
  | S754_nan => (S754_nan, S754_nan)
  | S754_infinity s => (S754_zero s, x)
  | S754_zero _ => (x, x)
  | S754_finite s m (Zneg k) =>
      let ix := Z.shiftr (Zpos m) (Zpos k) in
      let fx := Z.land (Zpos m) (Z.ones (Zpos k)) in
      (binary_normalize binary64_prec binary64_emax (cond_Zopp s fx) (Zneg k) s,
       binary_normalize binary64_prec binary64_emax (cond_Zopp s ix) 0 s)
  | S754_finite s _ _ => (S754_zero s, x)
  end.

Definition INT32_MIN : Z := -2147483648.
Definition INT32_MAX : Z := 2147483647.

(** Conversion of a [double] to a 32-bit integer, as the compiled code
    performs it: the integral part, and the most negative integer when
    that does not fit or there is none. *)
Definition double_to_int32 (x : double) : Z :=
  if is_finite x && (INT32_MIN <=? trunc x) && (trunc x <=? INT32_MAX)
  then trunc x
  else INT32_MIN.

(** [(int16_t)ix].  ISO C defines this conversion only when the integral
    part of [ix] lies in the range of [int16_t]; elsewhere the
    definition follows the compiled code, which converts to a 32-bit
    integer and keeps its low 16 bits. *)
Definition cast_int16 (ix : double) : Z := to_int16 (double_to_int32 ix).

(** ** config.h: the sensitivities *)

Definition WHEEL_SENSITIVITY_X : double := Eval vm_compute in decimal 35 100.
Definition WHEEL_SENSITIVITY_Y : double := Eval vm_compute in decimal 35 100.
Definition POINTER_SENSITIVITY : double := Eval vm_compute in decimal 12 1000.

(** ** axes.c *)

(** [static double axes[4]]. *)
Record axes_t : Type :=
  mk_axes { ax0 : double; ax1 : double; ax2 : double; ax3 : double }.

Definition axes_init : axes_t :=
  mk_axes (S754_zero false) (S754_zero false) (S754_zero false)
    (S754_zero false).

Definition axis (a : axes_t) (i : nat) : double :=
  match i with
  | 0%nat => ax0 a
  | 1%nat => ax1 a
  | 2%nat => ax2 a
  | _ => ax3 a
  end.

(** [axes[i] += d], for the indices the firmware uses (0 to 3). *)
Definition axis_add (i : nat) (d : double) (a : axes_t) : axes_t :=
  match i with
  | 0%nat => mk_axes (double_add (ax0 a) d) (ax1 a) (ax2 a) (ax3 a)
  | 1%nat => mk_axes (ax0 a) (double_add (ax1 a) d) (ax2 a) (ax3 a)
  | 2%nat => mk_axes (ax0 a) (ax1 a) (double_add (ax2 a) d) (ax3 a)
  | 3%nat => mk_axes (ax0 a) (ax1 a) (ax2 a) (double_add (ax3 a) d)
  | _ => a
  end.

Definition update_axes (delta_x delta_y : Z) (scroll : bool) (a : axes_t)
  : axes_t :=
  let s := (if scroll then 1 else 0)%nat in
  let a := axis_add (s * 2 + 0) (double_of_int delta_x) a in
  axis_add (s * 2 + 1) (double_of_int delta_y) a.

(** The loop at the end of [get_axes]. *)
Definition any_nonzero (p : list Z) : bool :=
  existsb (fun v => negb (v =? 0)) p.

(** [get_axes]: the report [p[0..3]], the returned flag and the new
    accumulators. *)
Definition get_axes (a : axes_t) : list Z * bool * axes_t :=
  let x := double_mul POINTER_SENSITIVITY (ax0 a) in
  let y := double_mul POINTER_SENSITIVITY (double_opp (ax1 a)) in
  let '(fx, ix) := modf x in
  let '(fy, iy) := modf y in
  let p0 := cast_int16 ix in
  let p1 := cast_int16 iy in
  let a0 := double_div fx POINTER_SENSITIVITY in
  let a1 := double_div (double_opp fy) POINTER_SENSITIVITY in
  let wx := double_mul WHEEL_SENSITIVITY_X (ax2 a) in
  let wy := double_mul WHEEL_SENSITIVITY_Y (ax3 a) in
  let '(fwx, iwx) := modf wx in
  let '(fwy, iwy) := modf wy in
  let p2 := cast_int16 iwx in
  let p3 := cast_int16 iwy in
  let a2 := double_div fwx WHEEL_SENSITIVITY_X in
  let a3 := double_div fwy WHEEL_SENSITIVITY_Y in
  let p := [p0; p1; p2; p3] in
  (p, any_nonzero p, mk_axes a0 a1 a2 a3).

(** ** usb.c: [CALLBACK_HID_Device_CreateHIDReport] *)

(** [static uint8_t old_buttons, new_buttons, debounce_count]. *)
Record debounce_t : Type :=
  mk_debounce { old_buttons : Z; new_buttons : Z; debounce_count : Z }.

Definition debounce_init : debounce_t := mk_debounce 0 0 0.

(** The loop that reads the pins: bit [i] of the result is set when pin
    [buttons[i]] of port D reads low. *)
Fixpoint read_buttons (pind : Z) (buttons : list Z) (i : Z) (b : Z) : Z :=
  match buttons with
  | [] => b
  | pin :: rest =>
      let low := if Z.land pind (Z.shiftl 1 pin) =? 0 then 1 else 0 in
      read_buttons pind rest (i + 1) (to_uint8 (Z.lor b (Z.shiftl low i)))
  end.

(** The debouncing part of the callback, from [if (!debounce_count)] to
    its end, for the sampled mask [b] and the flag [q] returned by
    [get_axes]: the [buttons] field of the report, the value returned
    and the new statics.  [interval] is [DEBOUNCE_INTERVAL]. *)
Definition debounce (interval : Z) (b : Z) (q : bool) (s : debounce_t)
  : Z * bool * debounce_t :=
  if debounce_count s =? 0 then
    if negb (b =? old_buttons s) then
      (old_buttons s, q, mk_debounce (old_buttons s) b 1)
    else
      (old_buttons s, q, s)
  else
    let count :=
      if b =? new_buttons s then to_uint8 (debounce_count s + 1) else 1 in
    if count >? interval then
      (new_buttons s, true, mk_debounce (new_buttons s) (new_buttons s) 0)
    else
      (old_buttons s, q, mk_debounce (old_buttons s) (new_buttons s) count).

(** [HID_REPORT_ITEM_Feature], from the headers of the USB library. *)
Definition HID_REPORT_ITEM_Feature : Z := 2.

(** What the callback writes to [ReportData]. *)
Inductive report_data : Type :=
| FeatureReport_Data (multiplier : Z)
| MouseReport_Data (buttons : Z) (axes : list Z).

(** The statics of the callback: [set] of the feature branch and the
    three statics of the debouncer. *)
Record usb_statics : Type :=
  mk_usb_statics { feature_set : bool; buttons_state : debounce_t }.

Definition usb_init : usb_statics := mk_usb_statics false debounce_init.

(** [CALLBACK_HID_Device_CreateHIDReport], with port D reading [pind]:
    the report written, if any, the value returned, and the new statics
    and accumulators.  [interval] is [DEBOUNCE_INTERVAL]. *)
Definition CALLBACK_HID_Device_CreateHIDReport (interval : Z)
  (ReportType : Z) (pind : Z) (st : usb_statics * axes_t)
  : option report_data * bool * (usb_statics * axes_t) :=
  let '(u, a) := st in
  if ReportType =? HID_REPORT_ITEM_Feature then
    if feature_set u then (None, false, st)
    else (Some (FeatureReport_Data 1), true,
          (mk_usb_statics true (buttons_state u), a))
  else
    let '(p_axes, q, a') := get_axes a in
    let b := read_buttons pind BUTTONS 0 0 in
    let '(p_buttons, r, s') := debounce interval b q (buttons_state u) in
    (Some (MouseReport_Data p_buttons p_axes), r,
     (mk_usb_statics (feature_set u) s', a')).

(** ** main.c: the bus *)

Inductive bus_event : Type :=
| NcsLow
| NcsHigh
| DelayUs (t : Q)
| Send (c : Z).

(** What is attached to the bus: it sees the chip select line and
    answers every byte with a byte. *)
Class SpiDevice (D : Type) : Type := {
  spi_select : D -> D;
  spi_deselect : D -> D;
  spi_exchange : Z -> D -> Z * D
}.

Record bus (D : Type) : Type := mk_bus { device : D; trace : list bus_event }.
Arguments mk_bus {D} _ _.
Arguments device {D} _.
Arguments trace {D} _.

(** Bus programs: state passing over [bus D]. *)
Definition io (D A : Type) : Type := bus D -> A * bus D.

Definition ret {D A : Type} (x : A) : io D A := fun b => (x, b).

Definition bind {D A B : Type} (m : io D A) (k : A -> io D B) : io D B :=
  fun b => let '(x, b') := m b in k x b'.

Declare Scope io_scope.
Delimit Scope io_scope with io.
Notation "x <- m ;; k" := (bind m (fun x => k))
  (at level 61, m at next level, right associativity) : io_scope.
Notation "m ;; k" := (bind m (fun _ => k))
  (at level 61, right associativity) : io_scope.
Local Open Scope io_scope.

(** [for (i = start; i < start + n; i++) acc = body(i, acc)]. *)
Fixpoint for_ {D A : Type} (n : nat) (i : nat) (body : nat -> A -> io D A)
  (acc : A) : io D A :=
  match n with
  | O => ret acc
  | S n' => acc' <- body i acc ;; for_ n' (S i) body acc'
  end.

Definition log {D : Type} (e : bus_event) (b : bus D) : bus D :=
  mk_bus (device b) (trace b ++ [e]).

Definition T_STDWN : Q := 5 # 10.
Definition T_WAKEUP : Q := 50000.
Definition T_SRAD : Q := 160.
Definition T_SWWR : Q := 180.
Definition T_SRWR : Q := 20.
Definition T_SRAD_MOTBR : Q := 35.
Definition T_BEXIT : Q := 5 # 10.
Definition T_NCS_SCLK : Q := 12 # 100.
Definition T_SCLK_NCS_READ : Q := 12 # 100.
Definition T_SCLK_NCS_WRITE : Q := 35.

Definition PRODUCT_ID : Z := 0x0.
Definition MOTION : Z := 0x2.
Definition RESOLUTION_L : Z := 0x0e.
Definition RESOLUTION_H : Z := 0x0f.
Definition CONFIG2 : Z := 0x10.
Definition ANGLE_TUNE : Z := 0x11.
Definition SROM_ENABLE : Z := 0x13.
Definition SROM_ID : Z := 0x2a.
Definition POWER_UP_RESET : Z := 0x3a.
Definition SHUTDOWN : Z := 0x3b.
Definition INVERSE_PRODUCT_ID : Z := 0x3f.
Definition MOTION_BURST : Z := 0x50.
Definition SROM_LOAD_BURST : Z := 0x62.

Section Bus.
Context {D : Type} `{SpiDevice D}.

Definition _delay_us (t : Q) : io D unit := fun b => (tt, log (DelayUs t) b).

Definition _delay_ms (t : Q) : io D unit := _delay_us (t * 1000).

(** The data register is eight bits wide in both directions.  The wait
    for the transfer-complete flag is taken to end. *)
Definition transceive (c : Z) : io D Z := fun b =>
  let c8 := to_uint8 c in
  let '(r, d) := spi_exchange c8 (device b) in
  (to_uint8 r, mk_bus d (trace b ++ [Send c8])).

Definition assert_ncs : io D unit := fun b =>
  (tt, mk_bus (spi_select (device b)) (trace b ++ [NcsLow])).

Definition deassert_ncs : io D unit := fun b =>
  (tt, mk_bus (spi_deselect (device b)) (trace b ++ [NcsHigh])).

Definition read (addr : Z) : io D Z :=
  assert_ncs ;;
  _delay_us T_NCS_SCLK ;;
  transceive addr ;;
  _delay_us T_SRAD ;;
  x <- transceive 0 ;;
  _delay_us T_SCLK_NCS_READ ;;
  deassert_ncs ;;
  _delay_us (T_SRWR - T_SCLK_NCS_READ) ;;
  ret x.

Definition write (addr data : Z) : io D unit :=
  assert_ncs ;;
  _delay_us T_NCS_SCLK ;;
  transceive (Z.lor addr 0x80) ;;
  transceive data ;;
  _delay_us T_SCLK_NCS_WRITE ;;
  deassert_ncs ;;
  _delay_us (T_SWWR - T_SCLK_NCS_WRITE).

(** [pgm_read_byte(srom_data + i)]. *)
Definition pgm_read_byte (data : list Byte.byte) (i : nat) : Z :=
  Z.of_N (Byte.to_N (nth i data Byte.x00)).

(** [reset], for the firmware image [srom_data] of [srom.h].  The
    counter of the upload loop is an [unsigned int]; it cannot wrap,
    since the size of an array fits the same 16 bits. *)
Definition reset (srom_data : list Byte.byte) : io D unit :=
  deassert_ncs ;;
  _delay_us T_SRWR ;;
  write SHUTDOWN 0xb6 ;;
  _delay_us T_STDWN ;;
  deassert_ncs ;;
  _delay_us T_SRWR ;;
  write POWER_UP_RESET 0x5a ;;
  _delay_us T_WAKEUP ;;
  for_ (7 - 2) 2 (fun i _ => read (Z.of_nat i) ;; ret tt) tt ;;
  write CONFIG2 0 ;;
  write SROM_ENABLE 0x1d ;;
  _delay_ms 10 ;;
  write SROM_ENABLE 0x18 ;;
  assert_ncs ;;
  _delay_us T_NCS_SCLK ;;
  transceive (Z.lor SROM_LOAD_BURST 0x80) ;;
  for_ (length srom_data - 0) 0
    (fun i _ => _delay_us 15 ;; transceive (pgm_read_byte srom_data i) ;; ret tt)
    tt ;;
  _delay_us 15 ;;
  deassert_ncs ;;
  _delay_us (200 - 15) ;;
  read SROM_ID ;;
  write CONFIG2 0.

(** The block of [main] that sets the resolution and the angle, for
    [RESOLUTION] = [resolution]. *)
Definition configure (resolution : Z) : io D unit :=
  let r := to_uint16 (Z.quot resolution 50) in
  write RESOLUTION_L (to_uint8 (Z.land r 0xff)) ;;
  write RESOLUTION_H (to_uint8 (Z.land (Z.shiftr r 8) 0xff)) ;;
  write ANGLE_TUNE POINTER_ROTATION.

(** [main] from the reset of the sensor to the main loop, as far as the
    bus is concerned. *)
Definition main_init (srom_data : list Byte.byte) : io D unit :=
  reset srom_data ;;
  configure RESOLUTION ;;
  write MOTION_BURST 0.

(** The resolution that [main] prints when the console is enabled. *)
Definition read_resolution : io D Z :=
  h <- read RESOLUTION_H ;;
  l <- read RESOLUTION_L ;;
  ret (Z.lor (to_uint16 (Z.shiftl (to_uint16 h) 8)) l).

(** [*(int16_t * )(v + k)] on the little-endian AVR. *)
Definition load_int16 (v : list Z) (k : nat) : Z :=
  to_int16 (Z.lor (nth k v 0) (Z.shiftl (nth (S k) v 0) 8)).

(** [v[i] = x]. *)
Fixpoint store (i : nat) (x : Z) (v : list Z) : list Z :=
  match v, i with
  | [], _ => []
  | _ :: v', O => x :: v'
  | y :: v', S i' => y :: store i' x v'
  end.

(** [(PIND & (1 << SCROLL_BUTTON)) == 0]. *)
Definition scroll_mode (pind : Z) : bool :=
  Z.land pind (Z.shiftl 1 SCROLL_BUTTON) =? 0.

(** Length [N] of the burst buffer [v] when the console is disabled. *)
Definition BURST_LENGTH : nat := 6.

(** The motion burst at the head of the main loop: whether the sensor
    reported motion, and the deltas. *)
Definition motion_burst : io D (bool * Z * Z) :=
  let v := repeat 0 BURST_LENGTH in
  assert_ncs ;;
  _delay_us T_NCS_SCLK ;;
  transceive MOTION_BURST ;;
  _delay_us T_SRAD_MOTBR ;;
  v0 <- transceive 0 ;;
  let v := store 0 v0 v in
  r <- (if Z.land (nth 0 v 0) 0x80 >? 0 then
          v <- for_ (BURST_LENGTH - 1) 1
                 (fun i v => x <- transceive 0 ;; ret (store i x v)) v ;;
          ret (true, load_int16 v 2, load_int16 v 4)
        else
          ret (false, 0, 0)) ;;
  deassert_ncs ;;
  ret r.

(** One turn of the main loop up to the call of [do_usb_tasks], with
    port D reading [pind]. *)
Definition main_loop (pind : Z) (a : axes_t) : io D axes_t :=
  m <- motion_burst ;;
  let '(_, delta_x, delta_y) := m in
  let scroll := scroll_mode pind in
  ret (update_axes delta_x delta_y scroll a).

End Bus.

(** ** Devices for the bus *)

(** A device that answers with a fixed script of bytes, whatever it is
    sent, and with zero once the script is over. *)
#[export] Instance scripted_device : SpiDevice (list Z) := {
  spi_select := fun d => d;
  spi_deselect := fun d => d;
  spi_exchange := fun _ d =>
    match d with
    | [] => (0, [])
    | r :: d' => (r, d')
    end
}.

(** A register file behind the framing of the register protocol: the
    first byte of a frame is the address, with bit 7 set for a write;
    the second byte carries the value written or the value read. *)
Inductive frame_phase : Type :=
| Released
| Address
| WriteData (addr : Z)
| ReadData (addr : Z)
| Finished.

Record regfile : Type := mk_regfile { regs : Z -> Z; phase : frame_phase }.

Definition set_reg (addr value : Z) (r : Z -> Z) : Z -> Z :=
  fun k => if k =? addr then value else r k.

Definition regfile_exchange (c : Z) (d : regfile) : Z * regfile :=
  match phase d with
  | Address =>
      if Z.testbit c 7 then (0, mk_regfile (regs d) (WriteData (Z.land c 0x7f)))
      else (0, mk_regfile (regs d) (ReadData c))
  | WriteData addr => (0, mk_regfile (set_reg addr c (regs d)) Finished)
  | ReadData addr => (regs d addr, mk_regfile (regs d) Finished)
  | Released | Finished => (0, d)
  end.

#[export] Instance regfile_device : SpiDevice regfile := {
  spi_select := fun d => mk_regfile (regs d) Address;
  spi_deselect := fun d => mk_regfile (regs d) Released;
  spi_exchange := regfile_exchange
}.

(** ** Runs of the accumulators and of the debouncer *)

(** One call of [update_axes]: its three arguments. *)
Definition update : Type := (Z * Z * bool)%type.

Definition apply_updates (us : list update) (a : axes_t) : axes_t :=
  fold_left (fun a u => let '(dx, dy, scroll) := u in update_axes dx dy scroll a)
    us a.

(** A tick of the accumulators: the calls of [update_axes] since the
    last report, then [get_axes]. *)
Definition tick (us : list update) (a : axes_t) : list Z * bool * axes_t :=
  get_axes (apply_updates us a).


(** The accumulators that the firmware can hold: those of power-up, and
    those that a call of [update_axes], with deltas in the range of
    [int16_t], or a call of [get_axes] leaves. *)
Inductive reachable : axes_t -> Prop :=
| reachable_init : reachable axes_init
| reachable_update (dx dy : Z) (scroll : bool) (a : axes_t) :
    fits_int16 dx = true -> fits_int16 dy = true ->
    reachable a -> reachable (update_axes dx dy scroll a)
| reachable_report (a : axes_t) :
    reachable a -> reachable (snd (get_axes a)).

(** Sensitivity coefficient of each axis: pointer X and Y, wheel X and Y. *)
Definition sensitivity (i : nat) : double :=
  match i with
  | 0%nat | 1%nat => POINTER_SENSITIVITY
  | 2%nat => WHEEL_SENSITIVITY_X
  | _ => WHEEL_SENSITIVITY_Y
  end.

(** The scaled accumulated motion of axis [i]: the product that
    [get_axes] computes and splits, in which the accumulator of pointer
    Y is negated. *)
Definition scaled (a : axes_t) (i : nat) : double :=
  match i with
  | 1%nat => double_mul (sensitivity i) (double_opp (axis a i))
  | _ => double_mul (sensitivity i) (axis a i)
  end.

(** The fractional part that [get_axes] keeps of it. *)
Definition kept (a : axes_t) (i : nat) : double := fst (modf (scaled a i)).

(** The sensitivities as [config.h] writes them, in decimal. *)
Definition decimal_sensitivity (i : nat) : Q :=
  match i with
  | 0%nat | 1%nat => 12 # 1000
  | _ => 35 # 100
  end.

(** Orientation of each axis in the report: [get_axes] flips pointer Y. *)
Definition orientation (i : nat) : Z :=
  match i with
  | 1%nat => -1
  | _ => 1
  end.

(** What one call of [update_axes] feeds to axis [i]. *)
Definition raw_input (i : nat) (u : update) : Z :=
  let '(dx, dy, scroll) := u in
  match i with
  | 0%nat => if scroll then 0 else dx
  | 1%nat => if scroll then 0 else dy
  | 2%nat => if scroll then dx else 0
  | _ => if scroll then dy else 0
  end.

Definition raw_since (i : nat) (us : list update) : Z :=
  fold_right (fun u acc => raw_input i u + acc) 0 us.


(** Content of accumulator [i] in output units, oriented as reported:
    the product of the two numbers, not rounded. *)
Definition residual (a : axes_t) (i : nat) : Q :=
  inject_Z (orientation i) * (value (sensitivity i) * value (axis a i)).




(** A call of [update_axes] with deltas in the range of [int16_t]. *)
Definition int16_update (u : update) : bool :=
  fits_int16 (fst (fst u)) && fits_int16 (snd (fst u)).

(** A tick made of at most 16 calls of [update_axes]. *)
Definition short_tick (us : list update) : bool :=
  (length us <=? 16)%nat && forallb int16_update us.


(** What the roundings of one short tick can add to the balance of an
    axis, in output units. *)
Definition rounding_allowance : Q := Eval vm_compute in 2 ^ (-28).

(** The debouncer polled with the masks [bs], no motion being reported:
    the [buttons] field of each report and the value returned by each
    call, then the final statics. *)
Fixpoint run_debounce (interval : Z) (bs : list Z) (s : debounce_t)
  : list (Z * bool) * debounce_t :=
  match bs with
  | [] => ([], s)
  | b :: bs' =>
      let '(buttons, changed, s') := debounce interval b false s in
      let '(out, s'') := run_debounce interval bs' s' in
      ((buttons, changed) :: out, s'')
  end.

(** Masks that alternate between [u] and [v] on every poll. *)
Fixpoint oscillation (u v : Z) (n : nat) : list Z :=
  match n with
  | O => []
  | S n' => u :: oscillation v u n'
  end.

(** Length of the run of equal samples at the head of [bs], for a run
    that already holds [k] samples equal to [x]. *)
Fixpoint longest_hold_from (x : Z) (k : nat) (bs : list Z) : nat :=
  match bs with
  | [] => k
  | b :: bs' =>
      if b =? x then longest_hold_from x (S k) bs'
      else Nat.max k (longest_hold_from b 1 bs')
  end.

(** The largest number of consecutive polls on which [bs] holds one value. *)
Definition longest_hold (bs : list Z) : nat :=
  match bs with
  | [] => O
  | b :: bs' => longest_hold_from b 1 bs'
  end.

(** The reports the specification expects when the mask has read [a],
    the accepted value, for [k] polls and then reads [b] for [n] polls,
    with a change on the poll that completes [held] + 1 samples of [b]. *)
Definition single_change (a b : Z) (k n held : nat) : list (Z * bool) :=
  repeat (a, false) (k + Nat.min n held)
  ++ (if (held <? n)%nat
      then (b, true) :: repeat (b, false) (n - held - 1)
      else []).

(** The state of the debouncer between two polls of an oscillating mask
    whose next sample is [next]: the counter is at most 2, and when it is
    2 the candidate is the sample just seen, not the next one. *)
Definition oscillating_state (next : Z) (s : debounce_t) : Prop :=
  debounce_count s = 0 \/ debounce_count s = 1
  \/ (debounce_count s = 2 /\ new_buttons s <> next).

(** ** What a bus program writes on the bus *)

(** [m] appends the events [es] to the trace, whatever the device. *)
Definition emits {D A : Type} `{SpiDevice D} (m : io D A) (es : list bus_event)
  : Prop :=
  forall b : bus D, trace (snd (m b)) = trace b ++ es.

(** The frame of [write addr data] and of [read addr] on the bus. *)
Definition write_frame (addr data : Z) : list bus_event :=
  [NcsLow; DelayUs T_NCS_SCLK; Send (to_uint8 (Z.lor addr 0x80));
   Send (to_uint8 data); DelayUs T_SCLK_NCS_WRITE; NcsHigh;
   DelayUs (T_SWWR - T_SCLK_NCS_WRITE)].

Definition read_frame (addr : Z) : list bus_event :=
  [NcsLow; DelayUs T_NCS_SCLK; Send (to_uint8 addr); DelayUs T_SRAD; Send 0;
   DelayUs T_SCLK_NCS_READ; NcsHigh; DelayUs (T_SRWR - T_SCLK_NCS_READ)].

(** The bring-up sequence of the specification around the firmware
    upload: what comes before the upload frame and what comes after. *)
Definition before_upload : list bus_event :=
  [NcsHigh; DelayUs T_SRWR] ++ write_frame SHUTDOWN 0xb6 ++ [DelayUs T_STDWN]
  ++ [NcsHigh; DelayUs T_SRWR] ++ write_frame POWER_UP_RESET 0x5a
  ++ [DelayUs T_WAKEUP]
  ++ flat_map (fun i => read_frame (Z.of_nat i)) (seq 2 5)
  ++ write_frame CONFIG2 0 ++ write_frame SROM_ENABLE 0x1d
  ++ [DelayUs (10 * 1000)] ++ write_frame SROM_ENABLE 0x18.

Definition after_upload : list bus_event :=
  [DelayUs (200 - 15)] ++ read_frame SROM_ID ++ write_frame CONFIG2 0.

(** The upload frame: the burst command with the write bit, then every
    byte of the image in order, each after the pacing delay. *)
Definition upload_frame (srom_data : list Byte.byte) : list bus_event :=
  [NcsLow; DelayUs T_NCS_SCLK; Send 0xe2]
  ++ flat_map (fun c => [DelayUs 15; Send (Z.of_N (Byte.to_N c))]) srom_data
  ++ [DelayUs 15; NcsHigh].

(** The bytes sent in a stretch of the trace. *)
Fixpoint sent (es : list bus_event) : list Z :=
  match es with
  | [] => []
  | Send c :: es' => c :: sent es'
  | _ :: es' => sent es'
  end.

(** A signed 16-bit value from its low and high bytes. *)
Definition sint16_le (lo hi : Z) : Z :=
  let u := lo + 256 * hi in
  if u <? 32768 then u else u - 65536.

(** ** main.c: the pins of port D *)

Definition PIND0 : Z := 0.

(** [r &= ~(1 << i)] and [r |= (1 << i)] on an 8-bit register. *)
Definition clear_bit (i r : Z) : Z :=
  to_uint8 (Z.land r (Z.lnot (Z.shiftl 1 i))).

Definition set_bit (i r : Z) : Z := to_uint8 (Z.lor r (Z.shiftl 1 i)).

(** What [main] does to [DDRD] and [PORTD] before it resets the sensor:
    the reset line, the ground of the buttons, then the loop over the
    pins 1 to 6. *)
Definition setup_port_d (ddrd portd : Z) : Z * Z :=
  let ddrd := clear_bit PIND0 ddrd in
  let portd := set_bit PIND0 portd in
  let portd := clear_bit BUTTON_GROUND portd in
  let ddrd := set_bit BUTTON_GROUND ddrd in
  fold_left
    (fun (dp : Z * Z) (i : Z) =>
       if i =? BUTTON_GROUND then dp
       else (clear_bit i (fst dp), set_bit i (snd dp)))
    (map Z.of_nat (seq 1 6)) (ddrd, portd).

(** ** Runs of the callback and checks on traces *)

(** The callback called once for each pair of a report type and a
    reading of port D: what each call wrote and returned, then the final
    statics and accumulators. *)
Fixpoint run_callback (interval : Z) (calls : list (Z * Z))
  (st : usb_statics * axes_t)
  : list (option report_data * bool) * (usb_statics * axes_t) :=
  match calls with
  | [] => ([], st)
  | (ReportType, pind) :: calls' =>
      let '(data, r, st') :=
        CALLBACK_HID_Device_CreateHIDReport interval ReportType pind st in
      let '(out, st'') := run_callback interval calls' st' in
      ((data, r) :: out, st'')
  end.

Definition is_feature_report (o : option report_data * bool) : bool :=
  match fst o with
  | Some (FeatureReport_Data _) => true
  | _ => false
  end.

(** In a list of polls of the debouncer, a poll is marked as changed
    exactly when its mask differs from the mask of the poll before it,
    [prev] being the mask before the first. *)
Fixpoint flags_exact (prev : Z) (out : list (Z * bool)) : bool :=
  match out with
  | [] => true
  | (m, changed) :: out' =>
      Bool.eqb changed (negb (m =? prev)) && flags_exact m out'
  end.

(** The first mask of a list of polls that differs from [prev]. *)
Fixpoint first_change (prev : Z) (out : list (Z * bool)) : option Z :=
  match out with
  | [] => None
  | (m, _) :: out' => if m =? prev then first_change prev out' else Some m
  end.

(** A trace keeps the framing of the bus: bytes are sent only while the
    chip is selected, the chip is not selected twice in a row, and the
    trace ends with the chip released.  [selected] is the state of the
    chip select line before the trace. *)
Fixpoint framed (selected : bool) (es : list bus_event) : bool :=
  match es with
  | [] => negb selected
  | NcsLow :: es' => negb selected && framed true es'
  | NcsHigh :: es' => framed false es'
  | DelayUs _ :: es' => framed selected es'
  | Send _ :: es' => selected && framed true es'
  end.

(** The two shapes of a motion burst on the bus. *)
Definition burst_frame_idle : list bus_event :=
  [NcsLow; DelayUs T_NCS_SCLK; Send MOTION_BURST; DelayUs T_SRAD_MOTBR;
   Send 0; NcsHigh].

Definition burst_frame_motion : list bus_event :=
  [NcsLow; DelayUs T_NCS_SCLK; Send MOTION_BURST; DelayUs T_SRAD_MOTBR;
   Send 0; Send 0; Send 0; Send 0; Send 0; Send 0; NcsHigh].

(** Between two polls, either the debouncer is idle or its candidate
    differs from the accepted mask. *)
Definition candidate_is_new (s : debounce_t) : Prop :=
  debounce_count s = 0 \/ new_buttons s <> old_buttons s.

(** The time, in microseconds, that a trace spends in delays. *)
Fixpoint total_delay (es : list bus_event) : Q :=
  match es with
  | [] => 0
  | DelayUs t :: es' => t + total_delay es'
  | _ :: es' => total_delay es'
  end.

(** * Properties *)

(** ** Fixed-width integers *)

Lemma to_int16_range (x : Z) : INT16_MIN <= to_int16 x <= INT16_MAX.
Proof.
  unfold to_int16, INT16_MIN, INT16_MAX.
  pose proof (Z.mod_pos_bound (x + 32768) 65536). lia.
Qed.

Lemma to_int16_congruent (x : Z) : (to_int16 x - x) mod 65536 = 0.
Proof.
  unfold to_int16.
  rewrite (Z.mod_eq (x + 32768) 65536) by lia.
  replace (x + 32768 - 65536 * ((x + 32768) / 65536) - 32768 - x)
    with (- ((x + 32768) / 65536) * 65536) by ring.
  apply Z.mod_mul. lia.
Qed.

Lemma to_int16_fits (x : Z) : fits_int16 x = true -> to_int16 x = x.
Proof.
  unfold fits_int16, to_int16, INT16_MIN, INT16_MAX. intros Hx.
  apply andb_prop in Hx. destruct Hx as [Hlo Hhi].
  apply Z.leb_le in Hlo. apply Z.leb_le in Hhi.
  rewrite Z.mod_small; lia.
Qed.

Lemma to_uint8_small (x : Z) : 0 <= x < 256 -> to_uint8 x = x.
Proof. intros Hx. unfold to_uint8. apply Z.mod_small. exact Hx. Qed.

(** ** Truncation of rationals *)

Lemma Qtrunc_inject_Z (z : Z) : Qtrunc (inject_Z z) = z.
Proof. unfold Qtrunc, inject_Z. simpl. apply Z.quot_1_r. Qed.

Lemma Qtrunc_comp (x y : Q) : (x == y)%Q -> Qtrunc x = Qtrunc y.
Proof.
  destruct x as [n d], y as [m e]. unfold Qeq, Qtrunc. simpl. intros Heq.
  rewrite <- (Z.quot_mul_cancel_r n (Zpos d) (Zpos e)) by discriminate.
  rewrite <- (Z.quot_mul_cancel_r m (Zpos e) (Zpos d)) by discriminate.
  rewrite Heq. f_equal. apply Z.mul_comm.
Qed.

#[export] Instance Qtrunc_proper : Proper (Qeq ==> eq) Qtrunc.
Proof. intros x y Hxy. apply Qtrunc_comp. exact Hxy. Qed.

Lemma Qtrunc_frac (x : Q) : (Qabs (x - inject_Z (Qtrunc x)) < 1)%Q.
Proof.
  destruct x as [n d]. unfold Qtrunc. simpl.
  pose proof (Z.quot_rem' n (Zpos d)) as Hdiv.
  assert (Hrem : Z.abs (Z.rem n (Zpos d)) < Zpos d).
  { pose proof (Z.rem_bound_abs n (Zpos d)). lia. }
  unfold Qlt, Qabs, Qminus, Qplus, Qopp, inject_Z. simpl.
  replace (n * 1 + - (n ÷ Zpos d) * Zpos d) with (Z.rem n (Zpos d)) by lia.
  lia.
Qed.

Lemma Qtrunc_small (x : Q) : (Qabs x < 1)%Q -> Qtrunc x = 0.
Proof.
  destruct x as [n d]. unfold Qlt, Qabs, Qtrunc. simpl. intros Hlt.
  apply Z.quot_small_iff; [discriminate | lia].
Qed.

Lemma to_uint16_small (x : Z) : 0 <= x < 65536 -> to_uint16 x = x.
Proof. intros Hx. unfold to_uint16. apply Z.mod_small. exact Hx. Qed.

Lemma to_uint8_idem (x : Z) : to_uint8 (to_uint8 x) = to_uint8 x.
Proof. unfold to_uint8. apply Z.mod_mod. lia. Qed.

(** ** Rounding to binary64 *)

Lemma fexp_binary64 (e : Z) :
  fexp binary64_prec binary64_emax e = Z.max (e - 53) (-1074).
Proof. reflexivity. Qed.

Lemma digits2_pos_bounds (m : positive) :
  2 ^ (Zpos (digits2_pos m) - 1) <= Zpos m < 2 ^ Zpos (digits2_pos m).
Proof.
  induction m as [m IH|m IH|]; cbn [digits2_pos].
  - rewrite Pos2Z.inj_succ. change (Zpos m~1) with (2 * Zpos m + 1).
    replace (Z.succ (Zpos (digits2_pos m)) - 1)
      with (Z.succ (Zpos (digits2_pos m) - 1)) by lia.
    rewrite !Z.pow_succ_r by lia.
    set (lo := 2 ^ (Zpos (digits2_pos m) - 1)) in *.
    set (hi := 2 ^ Zpos (digits2_pos m)) in *. lia.
  - rewrite Pos2Z.inj_succ. change (Zpos m~0) with (2 * Zpos m).
    replace (Z.succ (Zpos (digits2_pos m)) - 1)
      with (Z.succ (Zpos (digits2_pos m) - 1)) by lia.
    rewrite !Z.pow_succ_r by lia.
    set (lo := 2 ^ (Zpos (digits2_pos m) - 1)) in *.
    set (hi := 2 ^ Zpos (digits2_pos m)) in *. lia.
  - cbn. lia.
Qed.

Lemma Zdigits2_bounds (m : Z) :
  0 < m -> 2 ^ (Zdigits2 m - 1) <= m < 2 ^ Zdigits2 m.
Proof.
  destruct m as [|p|p]; try lia. intros _. apply digits2_pos_bounds.
Qed.

Lemma Zdigits2_nonneg (m : Z) : 0 <= Zdigits2 m.
Proof. destruct m; cbn; lia. Qed.

Lemma Zdigits2_unique (m d : Z) :
  2 ^ (d - 1) <= m < 2 ^ d -> 0 < m -> Zdigits2 m = d.
Proof.
  intros Hd Hm. pose proof (Zdigits2_bounds m Hm) as HD.
  pose proof (Zdigits2_nonneg m) as Hnn.
  destruct (Z.lt_trichotomy (Zdigits2 m) d) as [Hlt|[Heq|Hgt]]; [|exact Heq|].
  - assert (0 <= d - 1) by lia.
    pose proof (Z.pow_le_mono_r 2 (Zdigits2 m) (d - 1)). lia.
  - assert (d < 0 \/ 0 <= d) as [Hneg|Hpos] by lia.
    + rewrite (Z.pow_neg_r 2 d) in Hd by lia. lia.
    + pose proof (Z.pow_le_mono_r 2 d (Zdigits2 m - 1)). lia.
Qed.

Lemma Zdigits2_le (m k : Z) : 0 <= k -> 0 <= m < 2 ^ k -> Zdigits2 m <= k.
Proof.
  intros Hk Hm. destruct (Z.eq_dec m 0) as [->|Hne]; [cbn; lia|].
  pose proof (Zdigits2_bounds m ltac:(lia)) as HD.
  destruct (Z_le_gt_dec (Zdigits2 m) k) as [Hle|Hgt]; [exact Hle|].
  pose proof (Z.pow_le_mono_r 2 k (Zdigits2 m - 1)). lia.
Qed.

Lemma Zdigits2_gt (m k : Z) : 0 <= k -> 2 ^ k <= m -> k < Zdigits2 m.
Proof.
  intros Hk Hm. assert (0 < m) by (pose proof (Z.pow_pos_nonneg 2 k); lia).
  pose proof (Zdigits2_bounds m ltac:(lia)) as HD.
  destruct (Z_lt_ge_dec k (Zdigits2 m)) as [Hlt|Hge]; [exact Hlt|].
  pose proof (Zdigits2_nonneg m).
  pose proof (Z.pow_le_mono_r 2 (Zdigits2 m) k). lia.
Qed.

(** *** Shifting the mantissa right *)

Lemma shr_m_of_loc (m : Z) (l : location) : shr_m (shr_record_of_loc m l) = m.
Proof. destruct l as [|[| |]]; reflexivity. Qed.

Lemma shr_1_m (mrs : shr_record) :
  0 <= shr_m mrs -> shr_m (shr_1 mrs) = shr_m mrs / 2.
Proof.
  destruct mrs as [m r s]. cbn [shr_m]. intros Hm.
  destruct m as [|[p|p|]|p]; cbn [shr_1 shr_m]; try lia.
  - reflexivity.
  - apply (Z.div_unique _ 2 _ 1); lia.
  - apply (Z.div_unique _ 2 _ 0); lia.
  - reflexivity.
Qed.

Lemma iter_shr_1_m (p : positive) (mrs : shr_record) :
  0 <= shr_m mrs ->
  shr_m (iter_pos shr_1 p mrs) = shr_m mrs / 2 ^ Zpos p.
Proof.
  revert mrs. induction p as [p IH|p IH|]; intros mrs Hm; cbn [iter_pos].
  - assert (H1 : 0 <= shr_m (shr_1 mrs)).
    { rewrite shr_1_m by exact Hm. apply Z.div_pos; lia. }
    assert (H2 : 0 <= shr_m (iter_pos shr_1 p (shr_1 mrs))).
    { rewrite IH by exact H1. apply Z.div_pos; [exact H1|].
      apply Z.pow_pos_nonneg; lia. }
    rewrite IH by exact H2. rewrite IH by exact H1. rewrite shr_1_m by exact Hm.
    rewrite !Z.div_div by (try apply Z.pow_pos_nonneg; lia).
    f_equal. change (Zpos p~1) with (2 * Zpos p + 1).
    replace (2 * Zpos p + 1) with (1 + Zpos p + Zpos p) by lia.
    rewrite !Z.pow_add_r by lia. lia.
  - assert (H2 : 0 <= shr_m (iter_pos shr_1 p mrs)).
    { rewrite IH by exact Hm. apply Z.div_pos; [exact Hm|].
      apply Z.pow_pos_nonneg; lia. }
    rewrite IH by exact H2. rewrite IH by exact Hm.
    rewrite !Z.div_div by (try apply Z.pow_pos_nonneg; lia).
    f_equal. change (Zpos p~0) with (2 * Zpos p).
    replace (2 * Zpos p) with (Zpos p + Zpos p) by lia.
    rewrite !Z.pow_add_r by lia. lia.
  - rewrite shr_1_m by exact Hm. reflexivity.
Qed.

Lemma shr_m_shift (m : Z) (l : location) (e n : Z) :
  0 <= m -> 0 <= n ->
  shr_m (fst (shr (shr_record_of_loc m l) e n)) = m / 2 ^ n
  /\ snd (shr (shr_record_of_loc m l) e n) = e + n.
Proof.
  intros Hm Hn. destruct n as [|p|p]; try lia; cbn [shr fst snd].
  - rewrite shr_m_of_loc, Z.div_1_r. split; [reflexivity | lia].
  - rewrite iter_shr_1_m by (rewrite shr_m_of_loc; exact Hm).
    rewrite shr_m_of_loc. split; reflexivity.
Qed.

Lemma round_nearest_even_bounds (m : Z) (l : location) :
  m <= round_nearest_even m l <= m + 1.
Proof.
  destruct l as [|[| |]]; cbn [round_nearest_even]; try lia.
  destruct (Z.even m); lia.
Qed.

(** *** The rounding step *)

(** [binary_round_aux] on a mantissa that is not shorter than its
    exponent allows: the mantissa is cut to [m1] at the exponent [e1]
    of its binade, and the result is [m1] or [m1 + 1] at that
    exponent. *)
Lemma binary_round_aux_pack (s : bool) (mx ex : Z) (lx : location) :
  0 <= mx ->
  ex <= fexp binary64_prec binary64_emax (Zdigits2 mx + ex) ->
  let e1 := fexp binary64_prec binary64_emax (Zdigits2 mx + ex) in
  let m1 := mx / 2 ^ (e1 - ex) in
  m1 < 2 ^ 53
  /\ exists m2, m1 <= m2 <= m1 + 1
     /\ binary_round_aux binary64_prec binary64_emax s mx ex lx = pack s m2 e1.
Proof.
  intros Hmx Hex e1 m1.
  assert (He1 : e1 = Z.max (Zdigits2 mx + ex - 53) (-1074)).
  { unfold e1. apply fexp_binary64. }
  assert (Hm1 : 0 <= m1 < 2 ^ 53).
  { unfold m1. split.
    - apply Z.div_pos; [exact Hmx | apply Z.pow_pos_nonneg; lia].
    - apply Z.div_lt_upper_bound; [apply Z.pow_pos_nonneg; lia|].
      rewrite <- Z.pow_add_r by lia.
      destruct (Z.eq_dec mx 0) as [->|Hne].
      + apply Z.pow_pos_nonneg; lia.
      + pose proof (Zdigits2_bounds mx ltac:(lia)) as Hd.
        pose proof (Zdigits2_nonneg mx) as Hnn.
        apply Z.lt_le_trans with (2 ^ Zdigits2 mx); [apply Hd|].
        apply Z.pow_le_mono_r; lia. }
  split; [apply Hm1|].
  unfold binary_round_aux, shr_fexp. fold e1.
  destruct (shr_m_shift mx lx ex (e1 - ex) Hmx ltac:(lia)) as [Hm He].
  destruct (shr (shr_record_of_loc mx lx) ex (e1 - ex)) as [mrs' e'].
  cbn [fst snd] in Hm, He. fold m1 in Hm.
  replace e' with e1 by lia. clear He e'.
  set (m2 := round_nearest_even (shr_m mrs') (loc_of_shr_record mrs')).
  assert (Hm2 : m1 <= m2 <= m1 + 1).
  { unfold m2. rewrite <- Hm. apply round_nearest_even_bounds. }
  exists m2. split; [exact Hm2|].
  rewrite fexp_binary64.
  destruct (Z.eq_dec m2 (2 ^ 53)) as [Htop|Htop].
  - rewrite Htop. change (Zdigits2 (2 ^ 53)) with 54.
    replace (Z.max (54 + e1 - 53) (-1074) - e1) with 1 by lia.
    cbn [shr_record_of_loc shr iter_pos shr_1 shr_m pack].
    change (2 ^ 53 =? 2 ^ 53) with true. cbv iota.
    reflexivity.
  - assert (Hd2 : Zdigits2 m2 <= 53).
    { apply Zdigits2_le; lia. }
    pose proof (Zdigits2_nonneg m2) as Hnn.
    assert (Hn2 : Z.max (Zdigits2 m2 + e1 - 53) (-1074) - e1 <= 0) by lia.
    assert (Hshr : shr (shr_record_of_loc m2 loc_Exact) e1
                     (Z.max (Zdigits2 m2 + e1 - 53) (-1074) - e1)
                   = (shr_record_of_loc m2 loc_Exact, e1)).
    { destruct (Z.max (Zdigits2 m2 + e1 - 53) (-1074) - e1); try lia;
        reflexivity. }
    rewrite Hshr. cbn [shr_record_of_loc shr_m].
    unfold pack. destruct m2 as [|p|p]; try lia; try reflexivity.
    destruct (Z.eqb_spec (Zpos p) (2 ^ 53)) as [Heq|_]; [contradiction|].
    reflexivity.
Qed.

Lemma Pos_iter_xO (m d : positive) :
  Zpos (Pos.iter xO m d) = Zpos m * 2 ^ Zpos d.
Proof.
  induction d as [|d IH] using Pos.peano_ind.
  - cbn [Pos.iter]. change (Zpos m~0) with (2 * Zpos m). lia.
  - rewrite Pos.iter_succ, Pos2Z.inj_succ, Z.pow_succ_r by lia.
    change (Zpos (Pos.iter xO m d)~0) with (2 * Zpos (Pos.iter xO m d)).
    rewrite IH. ring.
Qed.

Lemma Zdigits2_shift (m k : Z) :
  0 < m -> 0 <= k -> Zdigits2 (m * 2 ^ k) = Zdigits2 m + k.
Proof.
  intros Hm Hk. pose proof (Zdigits2_bounds m Hm) as Hd.
  pose proof (Zdigits2_nonneg m) as Hnn.
  assert (Hpos : 0 < 2 ^ k) by (apply Z.pow_pos_nonneg; lia).
  assert (Hd1 : 1 <= Zdigits2 m).
  { destruct m as [|p|p]; try lia. cbn. lia. }
  apply Zdigits2_unique; [|nia].
  replace (Zdigits2 m + k - 1) with (Zdigits2 m - 1 + k) by lia.
  rewrite !Z.pow_add_r by lia. nia.
Qed.

(** A mantissa that already sits at the exponent of its binade is not
    changed by rounding. *)
Lemma binary_round_aux_exact (s : bool) (mx ex : Z) :
  0 <= mx ->
  fexp binary64_prec binary64_emax (Zdigits2 mx + ex) = ex ->
  binary_round_aux binary64_prec binary64_emax s mx ex loc_Exact
  = pack s mx ex.
Proof.
  intros Hmx Hcanon.
  unfold binary_round_aux, shr_fexp. rewrite Hcanon, Z.sub_diag.
  cbn [shr_record_of_loc shr shr_m loc_of_shr_record round_nearest_even].
  rewrite Hcanon, Z.sub_diag. cbn [shr shr_m].
  rewrite fexp_binary64 in Hcanon.
  unfold pack. destruct mx as [|p|p]; try lia; try reflexivity.
  destruct (Z.eqb_spec (Zpos p) (2 ^ 53)) as [Heq|_]; [|reflexivity].
  rewrite Heq in Hcanon. change (Zdigits2 (2 ^ 53)) with 54 in Hcanon. lia.
Qed.

(** [binary_round] of a mantissa of at most 53 bits at an exponent that
    is not below the least one: nothing is lost. *)
Lemma binary_round_exact (s : bool) (mx : positive) (ex : Z) :
  Zpos mx < 2 ^ 53 -> -1074 <= ex ->
  let e1 := fexp binary64_prec binary64_emax (Zdigits2 (Zpos mx) + ex) in
  e1 <= ex
  /\ binary_round binary64_prec binary64_emax s mx ex
     = pack s (Zpos mx * 2 ^ (ex - e1)) e1.
Proof.
  intros Hmx Hex e1.
  assert (Hd : Zdigits2 (Zpos mx) <= 53) by (apply Zdigits2_le; lia).
  assert (He1 : e1 = Z.max (Zdigits2 (Zpos mx) + ex - 53) (-1074)).
  { unfold e1. apply fexp_binary64. }
  split; [lia|].
  unfold binary_round, shl_align.
  change (Zpos (digits2_pos mx)) with (Zdigits2 (Zpos mx)). fold e1.
  destruct (e1 - ex) as [|d|d] eqn:Hdiff; try lia.
  - replace (ex - e1) with 0 by lia. rewrite Z.pow_0_r, Z.mul_1_r.
    replace e1 with ex by lia.
    apply binary_round_aux_exact; [lia|]. fold e1. lia.
  - replace (ex - e1) with (Zpos d) by lia.
    rewrite <- Pos_iter_xO.
    apply binary_round_aux_exact; [lia|].
    rewrite Pos_iter_xO, Zdigits2_shift by lia.
    replace (Zdigits2 (Zpos mx) + Zpos d + e1)
      with (Zdigits2 (Zpos mx) + ex) by lia.
    reflexivity.
Qed.

(** *** The value of a [double] *)

Lemma value_finite (s : bool) (m : positive) (e : Z) :
  (value (S754_finite s m e) == inject_Z (cond_Zopp s (Zpos m)) * 2 ^ e)%Q.
Proof.
  unfold value. destruct e as [|p|k].
  - rewrite Z.pow_0_r, Z.mul_1_r. cbn [Qpower]. ring.
  - rewrite inject_Z_mult, Zpower_Qpower by lia. reflexivity.
  - rewrite Qmake_Qdiv. unfold Qdiv.
    change (2 ^ Zneg k)%Q with (/ (inject_Z 2) ^ (Zpos k))%Q.
    rewrite <- Zpower_Qpower by lia.
    rewrite Pos2Z.inj_pow. reflexivity.
Qed.

Lemma pow2_pos (e : Z) : (0 < 2 ^ e)%Q.
Proof. apply Qpower_0_lt. reflexivity. Qed.

Lemma pow2_add (e1 e2 : Z) : (2 ^ (e1 + e2) == 2 ^ e1 * 2 ^ e2)%Q.
Proof. apply Qpower_plus. discriminate. Qed.

Lemma pow2_inject (e : Z) : 0 <= e -> (2 ^ e == inject_Z (2 ^ e))%Q.
Proof. intros He. rewrite Zpower_Qpower by exact He. reflexivity. Qed.

Lemma value_pack (s : bool) (m e : Z) :
  0 <= m <= 2 ^ 53 -> is_finite (pack s m e) = true ->
  (value (pack s m e) == inject_Z (cond_Zopp s m) * 2 ^ e)%Q.
Proof.
  intros Hm Hfin. unfold pack in *.
  destruct m as [|p|p]; try lia.
  - cbn [value cond_Zopp]. destruct s; cbn; ring.
  - destruct (Z.eqb_spec (Zpos p) (2 ^ 53)) as [Heq|Hne].
    + destruct (e + 1 <=? 971); [|discriminate Hfin].
      rewrite value_finite, Heq, pow2_add.
      generalize (2 ^ e)%Q. intros q.
      destruct s; cbn [cond_Zopp].
      * setoid_replace (inject_Z (- 2 ^ 53))
          with (inject_Z (- Zpos (2 ^ 52)) * 2 ^ 1)%Q by reflexivity.
        ring.
      * setoid_replace (inject_Z (2 ^ 53))
          with (inject_Z (Zpos (2 ^ 52)) * 2 ^ 1)%Q by reflexivity.
        ring.
    + destruct (e <=? 971); [|discriminate Hfin].
      apply value_finite.
Qed.

(** *** Doubles in canonical form *)

Lemma valid_finite (s : bool) (m : positive) (e : Z) :
  is_double (S754_finite s m e) = true ->
  Zpos m < 2 ^ 53 /\ -1074 <= e <= 971
  /\ (e = -1074 \/ 2 ^ 52 <= Zpos m).
Proof.
  unfold is_double. cbn [valid_binary]. unfold bounded, canonical_mantissa.
  intros Hv.
  apply andb_prop in Hv. destruct Hv as [Hc He].
  apply Z.eqb_eq in Hc. apply Z.leb_le in He.
  rewrite fexp_binary64 in Hc.
  change (binary64_emax - binary64_prec) with 971 in He.
  pose proof (digits2_pos_bounds m) as Hd.
  assert (Hdm : Zpos (digits2_pos m) <= 53) by lia.
  split.
  - apply Z.lt_le_trans with (2 ^ Zpos (digits2_pos m)); [apply Hd|].
    apply Z.pow_le_mono_r; lia.
  - split; [lia|].
    destruct (Z.eq_dec e (-1074)) as [Hmin|Hmin]; [left; exact Hmin|right].
    assert (Heq : Zpos (digits2_pos m) = 53) by lia.
    rewrite Heq in Hd. apply Hd.
Qed.

Lemma pack_valid (s : bool) (m e : Z) :
  0 <= m <= 2 ^ 53 -> -1074 <= e -> e = -1074 \/ 2 ^ 52 <= m ->
  is_double (pack s m e) = true.
Proof.
  intros Hm He Hnorm. unfold pack.
  destruct m as [|p|p]; try lia; [reflexivity|].
  destruct (Z.eqb_spec (Zpos p) (2 ^ 53)) as [Heq|Hne].
  - destruct (Z.leb_spec (e + 1) 971) as [Hle|Hgt]; [|reflexivity].
    unfold is_double. cbn [valid_binary]. unfold bounded, canonical_mantissa.
    rewrite fexp_binary64.
    change (Zpos (digits2_pos (2 ^ 52))) with 53.
    apply andb_true_intro. split; [apply Z.eqb_eq; lia|].
    apply Z.leb_le. change (binary64_emax - binary64_prec) with 971. lia.
  - destruct (Z.leb_spec e 971) as [Hle|Hgt]; [|reflexivity].
    unfold is_double. cbn [valid_binary]. unfold bounded, canonical_mantissa.
    rewrite fexp_binary64.
    change (Zpos (digits2_pos p)) with (Zdigits2 (Zpos p)).
    assert (Hd : Zdigits2 (Zpos p) <= 53) by (apply Zdigits2_le; lia).
    assert (Hd' : e = -1074 \/ Zdigits2 (Zpos p) = 53).
    { destruct Hnorm as [Hmin|Hbig]; [left; exact Hmin|right].
      pose proof (Zdigits2_gt (Zpos p) 52 ltac:(lia) Hbig). lia. }
    apply andb_true_intro. split; [apply Z.eqb_eq; lia|].
    apply Z.leb_le. change (binary64_emax - binary64_prec) with 971. lia.
Qed.

(** The mantissa that rounding cuts fills the 53 bits, unless the
    exponent is the least one. *)
Lemma round_cut_normal (mx ex : Z) :
  0 < mx ->
  let e1 := fexp binary64_prec binary64_emax (Zdigits2 mx + ex) in
  ex <= e1 -> -1074 <= e1 /\ (e1 = -1074 \/ 2 ^ 52 <= mx / 2 ^ (e1 - ex)).
Proof.
  intros Hmx e1 Hex.
  assert (He1 : e1 = Z.max (Zdigits2 mx + ex - 53) (-1074)).
  { unfold e1. apply fexp_binary64. }
  split; [lia|].
  destruct (Z.eq_dec e1 (-1074)) as [Hmin|Hmin]; [left; exact Hmin|right].
  pose proof (Zdigits2_bounds mx Hmx) as Hd.
  assert (Hn : e1 - ex = Zdigits2 mx - 53) by lia.
  rewrite Hn.
  apply Z.div_le_lower_bound; [apply Z.pow_pos_nonneg; lia|].
  rewrite <- Z.pow_add_r by lia.
  replace (Zdigits2 mx - 53 + 52) with (Zdigits2 mx - 1) by lia.
  apply Hd.
Qed.

Lemma binary_round_aux_valid (s : bool) (mx ex : Z) (lx : location) :
  0 <= mx ->
  ex <= fexp binary64_prec binary64_emax (Zdigits2 mx + ex) ->
  is_double
    (binary_round_aux binary64_prec binary64_emax s mx ex lx) = true.
Proof.
  intros Hmx Hex.
  destruct (binary_round_aux_pack s mx ex lx Hmx Hex) as [Hm1 [m2 [Hm2 Hr]]].
  rewrite Hr.
  assert (H0 : 0 <= mx / 2 ^ (fexp binary64_prec binary64_emax (Zdigits2 mx + ex) - ex)).
  { apply Z.div_pos; [exact Hmx | apply Z.pow_pos_nonneg; lia]. }
  destruct (Z.eq_dec mx 0) as [Hz|Hnz].
  - subst mx. rewrite Z.div_0_l in * by (apply Z.pow_nonzero; lia).
    rewrite fexp_binary64 in *. change (Zdigits2 0) with 0 in *.
    apply pack_valid; lia.
  - destruct (round_cut_normal mx ex ltac:(lia) Hex) as [Hmin Hnorm].
    apply pack_valid; lia.
Qed.

(** *** Exact conversions *)

Lemma binary_normalize_exact (s : bool) (z e : Z) :
  0 <= z < 2 ^ 53 -> -1074 <= e ->
  let e1 := fexp binary64_prec binary64_emax (Zdigits2 z + e) in
  e1 <= e
  /\ binary_normalize binary64_prec binary64_emax (cond_Zopp s z) e s
     = pack s (z * 2 ^ (e - e1)) e1.
Proof.
  intros Hz He e1. destruct z as [|p|p]; try lia.
  - split; [unfold e1; rewrite fexp_binary64; cbn [Zdigits2]; lia|].
    destruct s; reflexivity.
  - destruct (binary_round_exact s p e ltac:(lia) He) as [Hle Hr].
    split; [exact Hle|].
    destruct s; cbn [cond_Zopp Z.opp binary_normalize]; exact Hr.
Qed.

Lemma binary_normalize_value (s : bool) (z e : Z) :
  0 <= z < 2 ^ 53 -> -1074 <= e <= 971 ->
  let x := binary_normalize binary64_prec binary64_emax (cond_Zopp s z) e s in
  is_finite x = true
  /\ is_double x = true
  /\ (value x == inject_Z (cond_Zopp s z) * 2 ^ e)%Q.
Proof.
  intros Hz He x. subst x.
  destruct (binary_normalize_exact s z e Hz ltac:(lia)) as [Hle Hr].
  rewrite Hr. clear Hr.
  set (e1 := fexp binary64_prec binary64_emax (Zdigits2 z + e)) in *.
  assert (He1 : e1 = Z.max (Zdigits2 z + e - 53) (-1074)).
  { unfold e1. apply fexp_binary64. }
  assert (Hpow : 0 < 2 ^ (e - e1)) by (apply Z.pow_pos_nonneg; lia).
  destruct (Z.eq_dec z 0) as [Hz0|Hz0].
  - subst z. rewrite Z.mul_0_l. cbn [pack is_finite valid_binary value].
    split; [reflexivity|]. split; [reflexivity|].
    destruct s; cbn [cond_Zopp]; cbn; ring.
  - assert (Hdig : Zdigits2 (z * 2 ^ (e - e1)) = Zdigits2 z + (e - e1)).
    { apply Zdigits2_shift; lia. }
    assert (Hd53 : Zdigits2 z <= 53) by (apply Zdigits2_le; lia).
    assert (Hm : 0 < z * 2 ^ (e - e1) < 2 ^ 53).
    { split; [nia|].
      pose proof (Zdigits2_bounds (z * 2 ^ (e - e1)) ltac:(nia)) as Hb.
      apply Z.lt_le_trans with (2 ^ Zdigits2 (z * 2 ^ (e - e1))); [apply Hb|].
      apply Z.pow_le_mono_r; lia. }
    assert (Hfin : is_finite (pack s (z * 2 ^ (e - e1)) e1) = true).
    { unfold pack. destruct (z * 2 ^ (e - e1)) as [|p|p]; try lia.
      destruct (Z.eqb_spec (Zpos p) (2 ^ 53)) as [Heq|_]; [lia|].
      destruct (Z.leb_spec e1 971); [reflexivity | lia]. }
    split; [exact Hfin|]. split.
    + apply pack_valid; [lia | lia |].
      destruct (Z.eq_dec e1 (-1074)) as [Hmin|Hmin]; [left; exact Hmin|right].
      pose proof (Zdigits2_bounds (z * 2 ^ (e - e1)) ltac:(lia)) as Hb.
      rewrite Hdig in Hb.
      replace (Zdigits2 z + (e - e1) - 1) with 52 in Hb by lia. apply Hb.
    + rewrite (value_pack s (z * 2 ^ (e - e1)) e1 ltac:(lia) Hfin).
      replace e with ((e - e1) + e1) at 2 by lia.
      rewrite pow2_add, (pow2_inject (e - e1)) by lia.
      destruct s; cbn [cond_Zopp]; rewrite ?inject_Z_opp, inject_Z_mult; ring.
Qed.

Lemma double_of_int_value (z : Z) :
  Z.abs z < 2 ^ 53 ->
  is_finite (double_of_int z) = true
  /\ is_double (double_of_int z) = true
  /\ (value (double_of_int z) == inject_Z z)%Q.
Proof.
  intros Hz. unfold double_of_int.
  destruct z as [|p|p].
  - cbn. repeat split; reflexivity.
  - destruct (binary_normalize_value false (Zpos p) 0 ltac:(lia) ltac:(lia))
      as [Hfin [Hval Hv]].
    cbn [cond_Zopp] in *. cbn [binary_normalize] in *.
    split; [exact Hfin|]. split; [exact Hval|].
    rewrite Hv. cbn [Qpower]. ring.
  - destruct (binary_normalize_value true (Zpos p) 0 ltac:(lia) ltac:(lia))
      as [Hfin [Hval Hv]].
    cbn [cond_Zopp Z.opp] in *. cbn [binary_normalize] in *.
    split; [exact Hfin|]. split; [exact Hval|].
    rewrite Hv. cbn [Qpower]. ring.
Qed.

(** *** Integral and fractional part *)

Lemma trunc_finite_neg (s : bool) (m k : positive) :
  trunc (S754_finite s m (Zneg k)) = cond_Zopp s (Zpos m / 2 ^ Zpos k).
Proof.
  unfold trunc, value, Qtrunc. cbn [Qnum Qden].
  rewrite Pos2Z.inj_pow.
  assert (Hpos : 0 < 2 ^ Zpos k) by (apply Z.pow_pos_nonneg; lia).
  destruct s; cbn [cond_Zopp].
  - rewrite Z.quot_opp_l by lia. rewrite Z.quot_div_nonneg by lia. reflexivity.
  - rewrite Z.quot_div_nonneg by lia. reflexivity.
Qed.

Lemma trunc_finite_nonneg (s : bool) (m : positive) (e : Z) :
  0 <= e -> trunc (S754_finite s m e) = cond_Zopp s (Zpos m) * 2 ^ e.
Proof.
  intros He. unfold trunc, value.
  destruct e as [|p|p]; try lia; apply Qtrunc_inject_Z.
Qed.

Lemma trunc_of_value (x : double) (z : Z) :
  (value x == inject_Z z)%Q -> trunc x = z.
Proof.
  intros Hv. unfold trunc. rewrite (Qtrunc_comp _ _ Hv). apply Qtrunc_inject_Z.
Qed.

(** The integral part that [modf] stores is the integral part of its
    argument, as long as that fits 53 bits. *)
Lemma modf_integral (x : double) :
  is_finite x = true -> Z.abs (trunc x) < 2 ^ 53 ->
  is_finite (snd (modf x)) = true /\ trunc (snd (modf x)) = trunc x.
Proof.
  intros Hfin Hsmall.
  destruct x as [s|s| |s m [|p|k]]; try discriminate Hfin;
    try (cbn [modf snd]; split; reflexivity).
  cbn [modf snd]. rewrite trunc_finite_neg in *.
  rewrite Z.shiftr_div_pow2 by lia.
  assert (Hq : 0 <= Zpos m / 2 ^ Zpos k).
  { apply Z.div_pos; [lia | apply Z.pow_pos_nonneg; lia]. }
  assert (Hq' : Zpos m / 2 ^ Zpos k < 2 ^ 53).
  { destruct s; cbn [cond_Zopp] in Hsmall; lia. }
  destruct (binary_normalize_value s (Zpos m / 2 ^ Zpos k) 0
              ltac:(lia) ltac:(lia)) as [Hf [_ Hv]].
  split; [exact Hf|].
  apply trunc_of_value. rewrite Hv. cbn [Qpower]. ring.
Qed.

(** What [modf] returns for a finite [double]: the fractional part is
    exactly the argument less its integral part. *)
Lemma modf_finite (x : double) :
  is_finite x = true -> is_double x = true ->
  is_finite (fst (modf x)) = true
  /\ is_double (fst (modf x)) = true
  /\ (value (fst (modf x)) == value x - inject_Z (trunc x))%Q
  /\ is_finite (snd (modf x)) = true
  /\ trunc (snd (modf x)) = trunc x.
Proof.
  intros Hfin Hval.
  destruct x as [s|s| |s m e]; try discriminate Hfin.
  - cbn [modf fst snd]. repeat split; try reflexivity.
  - destruct (valid_finite s m e Hval) as [Hm [He Hnorm]].
    destruct e as [|p|k].
    + cbn [modf fst snd]. repeat split; try reflexivity.
      unfold trunc. cbn [value is_finite].
      rewrite Qtrunc_inject_Z. ring.
    + cbn [modf fst snd]. repeat split; try reflexivity.
      unfold trunc. cbn [value is_finite].
      rewrite Qtrunc_inject_Z. ring.
    + assert (Hpos : 0 < 2 ^ Zpos k) by (apply Z.pow_pos_nonneg; lia).
      assert (Hq : 0 <= Zpos m / 2 ^ Zpos k <= Zpos m).
      { split; [apply Z.div_pos; lia|].
        apply Z.div_le_upper_bound; [lia|]. nia. }
      assert (Hr : 0 <= Zpos m mod 2 ^ Zpos k <= Zpos m).
      { pose proof (Z.mod_pos_bound (Zpos m) (2 ^ Zpos k) Hpos).
        split; [lia|]. apply Z.mod_le; lia. }
      destruct (modf_integral (S754_finite s m (Zneg k)) Hfin) as [Hif Hit].
      { rewrite trunc_finite_neg. destruct s; cbn [cond_Zopp]; lia. }
      cbn [modf fst snd] in *.
      rewrite Z.land_ones by lia.
      destruct (binary_normalize_value s (Zpos m mod 2 ^ Zpos k) (Zneg k)
                  ltac:(lia) ltac:(lia)) as [Hf [Hv Hx]].
      split; [exact Hf|]. split; [exact Hv|]. split; [|split; assumption].
      rewrite Hx, trunc_finite_neg, value_finite.
      pose proof (Z.div_mod (Zpos m) (2 ^ Zpos k) ltac:(lia)) as Hdm.
      assert (Hinv : (inject_Z (2 ^ Zpos k) * 2 ^ Zneg k == 1)%Q).
      { rewrite <- pow2_inject by lia.
        rewrite <- pow2_add. replace (Zpos k + Zneg k) with 0 by lia.
        reflexivity. }
      set (q := Zpos m / 2 ^ Zpos k) in *.
      set (r := Zpos m mod 2 ^ Zpos k) in *.
      assert (Hm' : (inject_Z (Zpos m)
                     == inject_Z (2 ^ Zpos k) * inject_Z q + inject_Z r)%Q).
      { rewrite <- inject_Z_mult, <- inject_Z_plus, <- Hdm. reflexivity. }
      destruct s; cbn [cond_Zopp]; rewrite ?inject_Z_opp, Hm'.
      * setoid_replace (- inject_Z q)%Q
          with (- (inject_Z (2 ^ Zpos k) * 2 ^ Zneg k) * inject_Z q)%Q
          by (rewrite Hinv; ring).
        ring.
      * setoid_replace (inject_Z q)
          with ((inject_Z (2 ^ Zpos k) * 2 ^ Zneg k) * inject_Z q)%Q at 2
          by (rewrite Hinv; ring).
        ring.
Qed.

Lemma modf_fraction_small (x : double) :
  is_finite x = true -> is_double x = true ->
  (Qabs (value (fst (modf x))) < 1)%Q.
Proof.
  intros Hfin Hval.
  destruct (modf_finite x Hfin Hval) as [_ [_ [Hv _]]].
  rewrite Hv. unfold trunc. apply Qtrunc_frac.
Qed.

(** *** Magnitudes *)

Lemma pow2_le (e1 e2 : Z) : e1 <= e2 -> (2 ^ e1 <= 2 ^ e2)%Q.
Proof. intros He. apply Qpower_le_compat_l; [exact He | discriminate]. Qed.

Lemma pow2_lt_inv (e1 e2 : Z) : (2 ^ e1 < 2 ^ e2)%Q -> e1 < e2.
Proof. intros He. apply (Qpower_lt_compat_l_inv 2); [exact He | reflexivity]. Qed.

Lemma mag_nonneg (m e : Z) : 0 <= m -> (0 <= mag m e)%Q.
Proof.
  intros Hm. unfold mag. apply Qmult_le_0_compat.
  - change 0%Q with (inject_Z 0). rewrite <- Zle_Qle. exact Hm.
  - apply Qlt_le_weak, pow2_pos.
Qed.

Lemma mag_le (m m' e : Z) : m <= m' -> (mag m e <= mag m' e)%Q.
Proof.
  intros Hm. unfold mag. apply Qmult_le_compat_r.
  - rewrite <- Zle_Qle. exact Hm.
  - apply Qlt_le_weak, pow2_pos.
Qed.

Lemma mag_lt (m m' e : Z) : m < m' -> (mag m e < mag m' e)%Q.
Proof.
  intros Hm. unfold mag. apply Qmult_lt_compat_r.
  - apply pow2_pos.
  - rewrite <- Zlt_Qlt. exact Hm.
Qed.

Lemma mag_shift (m e k : Z) : 0 <= k -> (mag (m * 2 ^ k) e == mag m (e + k))%Q.
Proof.
  intros Hk. unfold mag.
  rewrite inject_Z_mult, <- (pow2_inject k Hk), pow2_add. ring.
Qed.

Lemma mag_succ (m e : Z) : (mag (m + 1) e == mag m e + 2 ^ e)%Q.
Proof. unfold mag. rewrite inject_Z_plus. ring. Qed.

Lemma mag_mul (m1 e1 m2 e2 : Z) :
  (mag (m1 * m2) (e1 + e2) == mag m1 e1 * mag m2 e2)%Q.
Proof. unfold mag. rewrite inject_Z_mult, pow2_add. ring. Qed.

Lemma abs_value_finite (s : bool) (m : positive) (e : Z) :
  (Qabs (value (S754_finite s m e)) == mag (Zpos m) e)%Q.
Proof.
  rewrite value_finite. unfold mag. rewrite Qabs_Qmult.
  rewrite (Qabs_pos (2 ^ e)) by (apply Qlt_le_weak, pow2_pos).
  destruct s; cbn [cond_Zopp]; reflexivity.
Qed.

Lemma abs_value_pack (s : bool) (m e : Z) :
  0 <= m <= 2 ^ 53 -> is_finite (pack s m e) = true ->
  (Qabs (value (pack s m e)) == mag m e)%Q.
Proof.
  intros Hm Hfin. rewrite (value_pack s m e Hm Hfin).
  unfold mag. rewrite Qabs_Qmult.
  rewrite (Qabs_pos (2 ^ e)) by (apply Qlt_le_weak, pow2_pos).
  apply Qmult_comp; [|reflexivity].
  destruct s; cbn [cond_Zopp]; [rewrite inject_Z_opp, Qabs_opp|];
    apply Qabs_pos; change 0%Q with (inject_Z 0); rewrite <- Zle_Qle; lia.
Qed.

Lemma binary64_eps_pow : (binary64_eps == 2 ^ (-52))%Q.
Proof. reflexivity. Qed.

(** *** How far rounding can go up *)

(** The magnitude of a rounded result is at most the magnitude it was
    given, plus one unit in the last place. *)
Lemma binary_round_aux_upper (s : bool) (mx ex : Z) (lx : location) :
  0 <= mx ->
  ex <= fexp binary64_prec binary64_emax (Zdigits2 mx + ex) ->
  (mag mx ex <= 2 ^ 900)%Q ->
  let x := binary_round_aux binary64_prec binary64_emax s mx ex lx in
  is_finite x = true
  /\ (Qabs (value x) <= mag mx ex * (1 + binary64_eps) + binary64_tiny)%Q.
Proof.
  intros Hmx Hex Hbig x. subst x.
  destruct (binary_round_aux_pack s mx ex lx Hmx Hex) as [Hm1 [m2 [Hm2 Hr]]].
  rewrite Hr. clear Hr.
  set (e1 := fexp binary64_prec binary64_emax (Zdigits2 mx + ex)) in *.
  set (m1 := mx / 2 ^ (e1 - ex)) in *.
  assert (Hpow : 0 < 2 ^ (e1 - ex)) by (apply Z.pow_pos_nonneg; lia).
  assert (Hm1' : 0 <= m1) by (apply Z.div_pos; lia).
  assert (Hcut : (mag m1 e1 <= mag mx ex)%Q).
  { replace e1 with (ex + (e1 - ex)) by lia.
    rewrite <- mag_shift by lia. apply mag_le.
    unfold m1. rewrite Z.mul_comm. apply Z.mul_div_le. exact Hpow. }
  assert (Hnorm : -1074 <= e1 /\ (e1 = -1074 \/ 2 ^ 52 <= m1)).
  { destruct (Z.eq_dec mx 0) as [Hz|Hnz].
    - subst mx. unfold e1 in *. rewrite fexp_binary64 in *.
      change (Zdigits2 0) with 0 in *. lia.
    - apply (round_cut_normal mx ex ltac:(lia) Hex). }
  destruct Hnorm as [Hmin Hnorm].
  assert (Hulp : (2 ^ e1 <= mag m1 e1 * binary64_eps + binary64_tiny)%Q).
  { destruct Hnorm as [He|Hbigm].
    - rewrite He. unfold binary64_tiny.
      pose proof (mag_nonneg m1 (-1074) Hm1').
      assert (0 <= binary64_eps)%Q by discriminate.
      pose proof (Qmult_le_0_compat _ _ H H0). lra.
    - pose proof (mag_le _ _ e1 Hbigm) as Hle.
      unfold mag in Hle at 1.
      assert (Heq : (inject_Z (2 ^ 52) * 2 ^ e1 * binary64_eps == 2 ^ e1)%Q).
      { rewrite binary64_eps_pow, <- (pow2_inject 52) by lia.
        rewrite <- Qmult_assoc, (Qmult_comm (2 ^ e1)), Qmult_assoc.
        rewrite <- pow2_add. change (52 + -52) with 0.
        cbn [Qpower]. ring. }
      assert (Hpos : (0 <= binary64_tiny)%Q).
      { apply Qlt_le_weak, pow2_pos. }
      assert (Heps : (0 <= binary64_eps)%Q) by discriminate.
      pose proof (Qmult_le_compat_r _ _ _ Hle Heps) as Hmul.
      rewrite Heq in Hmul. lra. }
  assert (Hfin : is_finite (pack s m2 e1) = true).
  { assert (He1 : e1 + 1 <= 971).
    { destruct Hnorm as [He|Hbigm]; [lia|].
      pose proof (mag_le _ _ e1 Hbigm) as Hle.
      assert (Hlt : (2 ^ (52 + e1) < 2 ^ 901)%Q).
      { rewrite pow2_add, (pow2_inject 52) by lia.
        apply Qle_lt_trans with (mag mx ex).
        - apply Qle_trans with (mag m1 e1); [exact Hle | exact Hcut].
        - apply Qle_lt_trans with (2 ^ 900)%Q; [exact Hbig|].
          apply Qpower_lt_compat_l; [lia | reflexivity]. }
      apply pow2_lt_inv in Hlt. lia. }
    unfold pack. destruct m2 as [|p|p]; try lia; try reflexivity.
    destruct (Zpos p =? 2 ^ 53).
    - destruct (Z.leb_spec (e1 + 1) 971); [reflexivity | lia].
    - destruct (Z.leb_spec e1 971); [reflexivity | lia]. }
  split; [exact Hfin|].
  rewrite (abs_value_pack s m2 e1 ltac:(lia) Hfin).
  apply Qle_trans with (mag (m1 + 1) e1); [apply mag_le; lia|].
  rewrite mag_succ. unfold binary64_eps in *. lra.
Qed.

(** *** Products and quotients *)

Lemma double_mul_finite (sx sy : bool) (mx my : positive) (ex ey : Z) :
  double_mul (S754_finite sx mx ex) (S754_finite sy my ey)
  = binary_round_aux binary64_prec binary64_emax (xorb sx sy)
      (Zpos mx * Zpos my) (ex + ey) loc_Exact.
Proof. reflexivity. Qed.

Lemma product_fills (mx my : positive) (ex ey : Z) :
  2 ^ 52 <= Zpos mx ->
  ex + ey <= fexp binary64_prec binary64_emax
               (Zdigits2 (Zpos mx * Zpos my) + (ex + ey)).
Proof.
  intros Hm. rewrite fexp_binary64.
  assert (Hprod : 2 ^ 52 <= Zpos mx * Zpos my) by nia.
  pose proof (Zdigits2_gt _ 52 ltac:(lia) Hprod). lia.
Qed.

(** The product by a [double] whose mantissa fills its 53 bits. *)
Lemma double_mul_upper (sx : bool) (mx : positive) (ex : Z) (y : double) :
  2 ^ 52 <= Zpos mx -> is_finite y = true ->
  (mag (Zpos mx) ex * Qabs (value y) <= 2 ^ 900)%Q ->
  let z := double_mul (S754_finite sx mx ex) y in
  is_finite z = true
  /\ (Qabs (value z)
      <= mag (Zpos mx) ex * Qabs (value y) * (1 + binary64_eps)
         + binary64_tiny)%Q.
Proof.
  intros Hm Hfin Hbig z. subst z.
  assert (Htiny : (0 <= binary64_tiny)%Q) by (apply Qlt_le_weak, pow2_pos).
  destruct y as [sy|sy| |sy my ey]; try discriminate Hfin.
  - cbn [double_mul SFmul is_finite value]. split; [reflexivity|].
    change (Qabs 0) with 0%Q. lra.
  - rewrite double_mul_finite. rewrite abs_value_finite in *.
    rewrite <- mag_mul in *.
    apply binary_round_aux_upper; [lia | apply product_fills; exact Hm | exact Hbig].
Qed.

(** The integer quotient that [double_div] rounds. *)
Lemma SFdiv_core_binary_spec (m1 e1 m2 e2 : Z) :
  0 < m1 -> 0 < m2 ->
  let '(q, e', l) := SFdiv_core_binary binary64_prec binary64_emax m1 e1 m2 e2 in
  0 <= q
  /\ e' <= fexp binary64_prec binary64_emax (Zdigits2 q + e')
  /\ (mag q e' * mag m2 e2 <= mag m1 e1)%Q
  /\ (mag m1 e1 < mag (q + 1) e' * mag m2 e2)%Q.
Proof.
  intros Hm1 Hm2. unfold SFdiv_core_binary.
  set (d1 := Zdigits2 m1). set (d2 := Zdigits2 m2).
  set (e' := Z.min (fexp binary64_prec binary64_emax (d1 + e1 - (d2 + e2)))
               (e1 - e2)).
  remember (e1 - e2 - e') as s eqn:Hsdef.
  assert (Hs : 0 <= s) by (unfold e' in Hsdef; lia).
  set (m' := match s with
             | 0 => m1
             | Zpos _ => Z.shiftl m1 s
             | Zneg _ => 0
             end).
  assert (Hm' : m' = m1 * 2 ^ s).
  { unfold m'. destruct s as [|p|p]; try lia.
    apply Z.shiftl_mul_pow2. lia. }
  assert (Hpow : 0 < 2 ^ s) by (apply Z.pow_pos_nonneg; lia).
  pose proof (Z.div_mod m' m2 ltac:(lia)) as Hdm.
  pose proof (Z.mod_pos_bound m' m2 Hm2) as Hmod.
  assert (Hq : Z.div_eucl m' m2 = (m' / m2, m' mod m2)).
  { unfold Z.div, Z.modulo. destruct (Z.div_eucl m' m2). reflexivity. }
  rewrite Hq.
  set (q := m' / m2) in *.
  assert (Hq0 : 0 <= q) by (apply Z.div_pos; nia).
  split; [exact Hq0|]. split; [|split].
  - rewrite fexp_binary64.
    destruct (Z_le_gt_dec e' (-1074)) as [Hmin|Hmin]; [lia|].
    assert (He' : e' <= d1 + e1 - (d2 + e2) - 53).
    { unfold e' in *. rewrite fexp_binary64 in *. lia. }
    pose proof (Zdigits2_bounds m1 Hm1) as Hd1. fold d1 in Hd1.
    pose proof (Zdigits2_bounds m2 Hm2) as Hd2. fold d2 in Hd2.
    pose proof (Zdigits2_nonneg m1) as Hn1. fold d1 in Hn1.
    pose proof (Zdigits2_nonneg m2) as Hn2. fold d2 in Hn2.
    assert (Hd1' : 1 <= d1).
    { unfold d1. destruct m1 as [|p|p]; try lia. cbn. lia. }
    assert (Hbig : 2 ^ 52 * m2 <= m').
    { rewrite Hm'.
      assert (Hs' : 53 - d1 + d2 <= s) by lia.
      apply Z.le_trans with (2 ^ (52 + d2)).
      { rewrite Z.pow_add_r by lia. nia. }
      assert (Hlow : 0 < 2 ^ (d1 - 1)) by (apply Z.pow_pos_nonneg; lia).
      destruct (Z_le_gt_dec (52 + d2) (d1 - 1)) as [Hcase|Hcase].
      - pose proof (Z.pow_le_mono_r 2 (52 + d2) (d1 - 1) ltac:(lia) Hcase).
        nia.
      - replace (52 + d2) with (d1 - 1 + (53 - d1 + d2)) by lia.
        rewrite Z.pow_add_r by lia.
        pose proof (Z.pow_le_mono_r 2 (53 - d1 + d2) s ltac:(lia) Hs').
        assert (0 < 2 ^ (53 - d1 + d2)) by (apply Z.pow_pos_nonneg; lia).
        nia. }
    assert (Hq52 : 2 ^ 52 <= q).
    { unfold q. apply Z.div_le_lower_bound; lia. }
    pose proof (Zdigits2_gt q 52 ltac:(lia) Hq52). lia.
  - rewrite <- mag_mul.
    replace e1 with (e' + e2 + s) by lia.
    rewrite <- (mag_shift m1 (e' + e2) s) by lia. apply mag_le. nia.
  - rewrite <- mag_mul.
    replace e1 with (e' + e2 + s) by lia.
    rewrite <- (mag_shift m1 (e' + e2) s) by lia. apply mag_lt. nia.
Qed.

(** The quotient of a finite [double] by a [double] that is neither
    zero nor small. *)
Lemma double_div_upper (x : double) (sy : bool) (my : positive) (ey : Z) :
  is_finite x = true ->
  (Qabs (value x) <= 1)%Q -> (2 ^ (-10) <= mag (Zpos my) ey)%Q ->
  let z := double_div x (S754_finite sy my ey) in
  is_finite z = true
  /\ (Qabs (value z) * mag (Zpos my) ey
      <= Qabs (value x) * (1 + binary64_eps)
         + binary64_tiny * mag (Zpos my) ey)%Q.
Proof.
  intros Hfin Hx Hy z. subst z.
  assert (Htiny : (0 <= binary64_tiny)%Q) by (apply Qlt_le_weak, pow2_pos).
  assert (Hy0 : (0 <= mag (Zpos my) ey)%Q) by (apply mag_nonneg; lia).
  destruct x as [sx|sx| |sx mx ex]; try discriminate Hfin.
  - cbn [double_div SFdiv is_finite value]. split; [reflexivity|].
    change (Qabs 0) with 0%Q.
    pose proof (Qmult_le_0_compat _ _ Htiny Hy0). lra.
  - unfold double_div. cbn [SFdiv].
    pose proof (SFdiv_core_binary_spec (Zpos mx) ex (Zpos my) ey
                  ltac:(lia) ltac:(lia)) as Hcore.
    destruct (SFdiv_core_binary binary64_prec binary64_emax
                (Zpos mx) ex (Zpos my) ey) as [[q e'] l].
    destruct Hcore as [Hq [He' [Hle _]]].
    rewrite abs_value_finite in *.
    assert (Hq0 : (0 <= mag q e')%Q) by (apply mag_nonneg; exact Hq).
    assert (Hqbig : (mag q e' <= 2 ^ 900)%Q).
    { apply Qle_trans with (2 ^ 10)%Q; [|apply pow2_le; lia].
      assert (Hprod : (mag q e' * 2 ^ (-10) <= 1)%Q).
      { apply Qle_trans with (mag q e' * mag (Zpos my) ey)%Q.
        - rewrite !(Qmult_comm (mag q e')).
          apply Qmult_le_compat_r; assumption.
        - lra. }
      change (2 ^ (-10))%Q with (1 # 1024)%Q in Hprod.
      change (2 ^ 10)%Q with (1024 # 1)%Q. lra. }
    destruct (binary_round_aux_upper (xorb sx sy) q e' l Hq He' Hqbig)
      as [Hf Hb].
    split; [exact Hf|].
    apply Qle_trans
      with ((mag q e' * (1 + binary64_eps) + binary64_tiny) * mag (Zpos my) ey)%Q.
    + apply Qmult_le_compat_r; assumption.
    + unfold binary64_eps in *. 
      setoid_replace ((mag q e' * (1 + (1 # 4503599627370496)) + binary64_tiny)
                      * mag (Zpos my) ey)%Q
        with ((mag q e' * mag (Zpos my) ey) * (1 + (1 # 4503599627370496))
              + binary64_tiny * mag (Zpos my) ey)%Q by ring.
      lra.
Qed.

(** *** Signs *)

Lemma binary_round_aux_opp (s : bool) (m e : Z) (l : location) :
  double_opp (binary_round_aux binary64_prec binary64_emax s m e l)
  = binary_round_aux binary64_prec binary64_emax (negb s) m e l.
Proof.
  unfold binary_round_aux.
  destruct (shr_fexp binary64_prec binary64_emax m e l) as [mrs' e'].
  destruct (shr_fexp binary64_prec binary64_emax
              (round_nearest_even (shr_m mrs') (loc_of_shr_record mrs'))
              e' loc_Exact) as [mrs'' e''].
  destruct (shr_m mrs'') as [|p|p]; try reflexivity.
  destruct (e'' <=? binary64_emax - binary64_prec); reflexivity.
Qed.

Lemma double_opp_involutive (x : double) : double_opp (double_opp x) = x.
Proof. destruct x as [s|s| |s m e]; cbn; rewrite ?negb_involutive; reflexivity. Qed.

Lemma double_mul_opp_r (x y : double) :
  double_mul x (double_opp y) = double_opp (double_mul x y).
Proof.
  destruct x as [sx|sx| |sx mx ex], y as [sy|sy| |sy my ey];
    cbn [double_mul SFmul double_opp SFopp]; try reflexivity;
    try (destruct sx, sy; reflexivity).
  rewrite binary_round_aux_opp. f_equal. destruct sx, sy; reflexivity.
Qed.

Lemma double_div_opp_l (x y : double) :
  double_div (double_opp x) y = double_opp (double_div x y).
Proof.
  destruct x as [sx|sx| |sx mx ex], y as [sy|sy| |sy my ey];
    cbn [double_div SFdiv double_opp SFopp]; try reflexivity;
    try (destruct sx, sy; reflexivity).
  destruct (SFdiv_core_binary binary64_prec binary64_emax (Zpos mx) ex
              (Zpos my) ey) as [[mz ez] lz].
  rewrite binary_round_aux_opp. f_equal. destruct sx, sy; reflexivity.
Qed.

Lemma binary_normalize_opp (s : bool) (z e : Z) :
  0 <= z ->
  binary_normalize binary64_prec binary64_emax (cond_Zopp (negb s) z) e (negb s)
  = double_opp
      (binary_normalize binary64_prec binary64_emax (cond_Zopp s z) e s).
Proof.
  intros Hz. destruct z as [|p|p]; try lia.
  - destruct s; reflexivity.
  - destruct s; cbn [cond_Zopp negb Z.opp binary_normalize];
      unfold binary_round;
      destruct (shl_align p e
                  (fexp binary64_prec binary64_emax (Zpos (digits2_pos p) + e)))
        as [mz ez];
      rewrite binary_round_aux_opp; reflexivity.
Qed.

Lemma modf_opp (x : double) :
  modf (double_opp x)
  = (double_opp (fst (modf x)), double_opp (snd (modf x))).
Proof.
  destruct x as [s|s| |s m [|p|k]]; try reflexivity.
  cbn [double_opp SFopp modf fst snd].
  rewrite !binary_normalize_opp; [reflexivity| |].
  - apply Z.shiftr_nonneg. lia.
  - apply Z.land_nonneg. left. lia.
Qed.

Lemma value_opp (x : double) : (value (double_opp x) == - value x)%Q.
Proof.
  destruct x as [s|s| |s m e]; try reflexivity.
  cbn [double_opp SFopp]. rewrite !value_finite.
  destruct s; cbn [negb cond_Zopp]; rewrite ?inject_Z_opp; ring.
Qed.

Lemma abs_value_opp (x : double) :
  (Qabs (value (double_opp x)) == Qabs (value x))%Q.
Proof. rewrite value_opp. apply Qabs_opp. Qed.

Lemma is_finite_opp (x : double) : is_finite (double_opp x) = is_finite x.
Proof. destruct x; reflexivity. Qed.

Lemma is_double_opp (x : double) : is_double (double_opp x) = is_double x.
Proof. destruct x; reflexivity. Qed.

Lemma is_nan_opp (x : double) : is_nan (double_opp x) = is_nan x.
Proof. destruct x; reflexivity. Qed.

Lemma trunc_opp (x : double) : trunc (double_opp x) = - trunc x.
Proof.
  unfold trunc. rewrite (Qtrunc_comp _ _ (value_opp x)).
  unfold Qtrunc. destruct (value x) as [n d]. cbn [Qopp Qnum Qden].
  apply Z.quot_opp_l. discriminate.
Qed.

(** *** How far rounding can go *)

Lemma value_pack_sign (s : bool) (m e : Z) :
  0 <= m <= 2 ^ 53 -> is_finite (pack s m e) = true ->
  (value (pack s m e) == inject_Z (cond_Zopp s 1) * mag m e)%Q.
Proof.
  intros Hm Hfin. rewrite (value_pack s m e Hm Hfin). unfold mag.
  destruct s; cbn [cond_Zopp]; rewrite ?inject_Z_opp.
  - change (inject_Z (-1)) with (- (1))%Q. ring.
  - change (inject_Z 1) with 1%Q. ring.
Qed.

(** A rounded result is within one unit in the last place of any number
    that lies between the mantissa it was given and the next one. *)
Lemma binary_round_aux_near (s : bool) (mx ex : Z) (lx : location) (v : Q) :
  0 <= mx ->
  ex <= fexp binary64_prec binary64_emax (Zdigits2 mx + ex) ->
  (mag mx ex <= v <= mag (mx + 1) ex)%Q -> (v <= 2 ^ 900)%Q ->
  let x := binary_round_aux binary64_prec binary64_emax s mx ex lx in
  is_finite x = true
  /\ (Qabs (value x - inject_Z (cond_Zopp s 1) * v)
      <= v * binary64_eps + binary64_tiny)%Q.
Proof.
  intros Hmx Hex [Hlo Hhi] Hbig x. subst x.
  destruct (binary_round_aux_pack s mx ex lx Hmx Hex) as [Hm1 [m2 [Hm2 Hr]]].
  rewrite Hr. clear Hr.
  set (e1 := fexp binary64_prec binary64_emax (Zdigits2 mx + ex)) in *.
  set (m1 := mx / 2 ^ (e1 - ex)) in *.
  assert (Hpow : 0 < 2 ^ (e1 - ex)) by (apply Z.pow_pos_nonneg; lia).
  assert (Hm1' : 0 <= m1) by (apply Z.div_pos; lia).
  assert (Hcut : (mag m1 e1 <= mag mx ex)%Q).
  { replace e1 with (ex + (e1 - ex)) by lia.
    rewrite <- mag_shift by lia. apply mag_le.
    unfold m1. rewrite Z.mul_comm. apply Z.mul_div_le. exact Hpow. }
  assert (Hnext : (mag (mx + 1) ex <= mag (m1 + 1) e1)%Q).
  { replace e1 with (ex + (e1 - ex)) by lia.
    rewrite <- mag_shift by lia. apply mag_le.
    pose proof (Z.mul_succ_div_gt mx (2 ^ (e1 - ex)) Hpow) as Hgt.
    fold m1 in Hgt. lia. }
  assert (Hnorm : -1074 <= e1 /\ (e1 = -1074 \/ 2 ^ 52 <= m1)).
  { destruct (Z.eq_dec mx 0) as [Hz|Hnz].
    - subst mx. unfold e1 in *. rewrite fexp_binary64 in *.
      change (Zdigits2 0) with 0 in *. lia.
    - apply (round_cut_normal mx ex ltac:(lia) Hex). }
  destruct Hnorm as [Hmin Hnorm].
  assert (Hulp : (2 ^ e1 <= mag m1 e1 * binary64_eps + binary64_tiny)%Q).
  { destruct Hnorm as [He|Hbigm].
    - rewrite He. unfold binary64_tiny.
      pose proof (mag_nonneg m1 (-1074) Hm1').
      assert (0 <= binary64_eps)%Q by discriminate.
      pose proof (Qmult_le_0_compat _ _ H H0). lra.
    - pose proof (mag_le _ _ e1 Hbigm) as Hle.
      unfold mag in Hle at 1.
      assert (Heq : (inject_Z (2 ^ 52) * 2 ^ e1 * binary64_eps == 2 ^ e1)%Q).
      { rewrite binary64_eps_pow, <- (pow2_inject 52) by lia.
        rewrite <- Qmult_assoc, (Qmult_comm (2 ^ e1)), Qmult_assoc.
        rewrite <- pow2_add. change (52 + -52) with 0.
        cbn [Qpower]. ring. }
      assert (Hpos : (0 <= binary64_tiny)%Q).
      { apply Qlt_le_weak, pow2_pos. }
      assert (Heps : (0 <= binary64_eps)%Q) by discriminate.
      pose proof (Qmult_le_compat_r _ _ _ Hle Heps) as Hmul.
      rewrite Heq in Hmul. lra. }
  assert (Hfin : is_finite (pack s m2 e1) = true).
  { assert (He1 : e1 + 1 <= 971).
    { destruct Hnorm as [He|Hbigm]; [lia|].
      pose proof (mag_le _ _ e1 Hbigm) as Hle.
      assert (Hlt : (2 ^ (52 + e1) < 2 ^ 901)%Q).
      { rewrite pow2_add, (pow2_inject 52) by lia.
        apply Qle_lt_trans with v.
        - apply Qle_trans with (mag m1 e1); [exact Hle|].
          apply Qle_trans with (mag mx ex); assumption.
        - apply Qle_lt_trans with (2 ^ 900)%Q; [exact Hbig|].
          apply Qpower_lt_compat_l; [lia | reflexivity]. }
      apply pow2_lt_inv in Hlt. lia. }
    unfold pack. destruct m2 as [|p|p]; try lia; try reflexivity.
    destruct (Zpos p =? 2 ^ 53).
    - destruct (Z.leb_spec (e1 + 1) 971); [reflexivity | lia].
    - destruct (Z.leb_spec e1 971); [reflexivity | lia]. }
  split; [exact Hfin|].
  rewrite (value_pack_sign s m2 e1 ltac:(lia) Hfin).
  assert (Hw : (mag m1 e1 <= mag m2 e1 <= mag m1 e1 + 2 ^ e1)%Q).
  { split; [apply mag_le; lia|].
    rewrite <- mag_succ. apply mag_le. lia. }
  assert (Hv : (mag m1 e1 <= v <= mag m1 e1 + 2 ^ e1)%Q).
  { split; [lra|]. rewrite <- mag_succ. lra. }
  assert (Hdiff : (Qabs (mag m2 e1 - v) <= 2 ^ e1)%Q).
  { apply Qabs_Qle_condition. split; lra. }
  setoid_replace (inject_Z (cond_Zopp s 1) * mag m2 e1
                  - inject_Z (cond_Zopp s 1) * v)%Q
    with (inject_Z (cond_Zopp s 1) * (mag m2 e1 - v))%Q by ring.
  rewrite Qabs_Qmult.
  assert (Hsign : (Qabs (inject_Z (cond_Zopp s 1)) == 1)%Q).
  { destruct s; reflexivity. }
  rewrite Hsign, Qmult_1_l.
  unfold binary64_eps in *. lra.
Qed.

Lemma value_finite_sign (s : bool) (m : positive) (e : Z) :
  (value (S754_finite s m e) == inject_Z (cond_Zopp s 1) * mag (Zpos m) e)%Q.
Proof.
  rewrite value_finite. unfold mag.
  destruct s; cbn [cond_Zopp]; rewrite ?inject_Z_opp.
  - change (inject_Z (-1)) with (- (1))%Q. ring.
  - change (inject_Z 1) with 1%Q. ring.
Qed.

Lemma sign_product (s1 s2 : bool) :
  (inject_Z (cond_Zopp s1 1) * inject_Z (cond_Zopp s2 1)
   == inject_Z (cond_Zopp (xorb s1 s2) 1))%Q.
Proof. destruct s1, s2; reflexivity. Qed.

Lemma sign_abs (s : bool) (v : Q) :
  (0 <= v)%Q -> (Qabs (inject_Z (cond_Zopp s 1) * v) == v)%Q.
Proof.
  intros Hv. rewrite Qabs_Qmult, (Qabs_pos v Hv).
  assert (Hs : (Qabs (inject_Z (cond_Zopp s 1)) == 1)%Q).
  { destruct s; reflexivity. }
  rewrite Hs. ring.
Qed.

(** The product by a [double] whose mantissa fills its 53 bits, against
    the product of the two numbers. *)
Lemma double_mul_error (sx : bool) (mx : positive) (ex : Z) (y : double) :
  2 ^ 52 <= Zpos mx -> is_finite y = true ->
  (Qabs (value (S754_finite sx mx ex) * value y) <= 2 ^ 900)%Q ->
  let z := double_mul (S754_finite sx mx ex) y in
  is_finite z = true
  /\ (Qabs (value z - value (S754_finite sx mx ex) * value y)
      <= Qabs (value (S754_finite sx mx ex) * value y) * binary64_eps
         + binary64_tiny)%Q.
Proof.
  intros Hm Hfin Hbig z. subst z.
  assert (Htiny : (0 <= binary64_tiny)%Q) by (apply Qlt_le_weak, pow2_pos).
  destruct y as [sy|sy| |sy my ey]; try discriminate Hfin.
  - cbn [double_mul SFmul is_finite]. split; [reflexivity|].
    change (value (S754_zero (xorb sx sy))) with 0%Q.
    change (value (S754_zero sy)) with 0%Q.
    rewrite Qmult_0_r. setoid_replace (0 - 0)%Q with 0%Q by ring.
    change (Qabs 0) with 0%Q. lra.
  - assert (Hprod : (value (S754_finite sx mx ex) * value (S754_finite sy my ey)
                     == inject_Z (cond_Zopp (xorb sx sy) 1)
                        * mag (Zpos mx * Zpos my) (ex + ey))%Q).
    { rewrite !value_finite_sign, mag_mul, <- sign_product. ring. }
    assert (Hv0 : (0 <= mag (Zpos mx * Zpos my) (ex + ey))%Q).
    { apply mag_nonneg. lia. }
    rewrite Hprod in *. rewrite (sign_abs _ _ Hv0) in *.
    rewrite double_mul_finite.
    apply binary_round_aux_near;
      [lia | apply product_fills; exact Hm | | exact Hbig].
    split; [apply Qle_refl | apply mag_le; lia].
Qed.

(** The quotient of a finite [double] by a [double] that is neither
    zero nor small, against the quotient of the two numbers. *)
Lemma double_div_error (x : double) (sy : bool) (my : positive) (ey : Z) :
  is_finite x = true ->
  (Qabs (value x) <= 1)%Q -> (2 ^ (-10) <= mag (Zpos my) ey)%Q ->
  let z := double_div x (S754_finite sy my ey) in
  is_finite z = true
  /\ (Qabs (value z - value x / value (S754_finite sy my ey))
      <= Qabs (value x / value (S754_finite sy my ey)) * binary64_eps
         + binary64_tiny)%Q.
Proof.
  intros Hfin Hx Hy z. subst z.
  assert (Htiny : (0 <= binary64_tiny)%Q) by (apply Qlt_le_weak, pow2_pos).
  assert (Hy0 : (0 < mag (Zpos my) ey)%Q).
  { apply Qlt_le_trans with (2 ^ (-10))%Q; [apply pow2_pos | exact Hy]. }
  assert (Hyn : ~ (mag (Zpos my) ey == 0)%Q) by lra.
  destruct x as [sx|sx| |sx mx ex]; try discriminate Hfin.
  - cbn [double_div SFdiv is_finite]. split; [reflexivity|].
    change (value (S754_zero (xorb sx sy))) with 0%Q.
    change (value (S754_zero sx)) with 0%Q.
    assert (H0 : (0 / value (S754_finite sy my ey) == 0)%Q).
    { unfold Qdiv. ring. }
    rewrite H0. setoid_replace (0 - 0)%Q with 0%Q by ring.
    change (Qabs 0) with 0%Q. lra.
  - set (v := (mag (Zpos mx) ex / mag (Zpos my) ey)%Q).
    assert (Hquot : (value (S754_finite sx mx ex) / value (S754_finite sy my ey)
                     == inject_Z (cond_Zopp (xorb sx sy) 1) * v)%Q).
    { rewrite !value_finite_sign, <- sign_product. unfold v.
      destruct sx, sy; cbn [cond_Zopp]; rewrite ?inject_Z_opp;
        change (inject_Z 1) with 1%Q; field; lra. }
    assert (Hv0 : (0 <= v)%Q).
    { unfold v. apply Qle_shift_div_l; [exact Hy0|].
      rewrite Qmult_0_l. apply mag_nonneg. lia. }
    rewrite Hquot. rewrite (sign_abs _ _ Hv0).
    unfold double_div. cbn [SFdiv].
    pose proof (SFdiv_core_binary_spec (Zpos mx) ex (Zpos my) ey
                  ltac:(lia) ltac:(lia)) as Hcore.
    destruct (SFdiv_core_binary binary64_prec binary64_emax
                (Zpos mx) ex (Zpos my) ey) as [[q e'] l].
    destruct Hcore as [Hq [He' [Hle Hlt]]].
    rewrite abs_value_finite in Hx.
    apply binary_round_aux_near; [exact Hq | exact He' | |].
    + split.
      * unfold v. apply Qle_shift_div_l; assumption.
      * unfold v. apply Qle_shift_div_r; [exact Hy0|].
        apply Qlt_le_weak. exact Hlt.
    + apply Qle_trans with (2 ^ 10)%Q; [|apply pow2_le; lia].
      unfold v. apply Qle_shift_div_r; [exact Hy0|].
      apply Qle_trans with 1%Q; [exact Hx|].
      apply Qle_trans with (2 ^ 10 * 2 ^ (-10))%Q; [vm_compute; discriminate|].
      rewrite !(Qmult_comm (2 ^ 10)).
      apply Qmult_le_compat_r; [exact Hy | vm_compute; discriminate].
Qed.

Lemma shl_align_fst (m : positive) (e e' : Z) :
  e' <= e -> Zpos (fst (shl_align m e e')) = Zpos m * 2 ^ (e - e').
Proof.
  intros He. unfold shl_align.
  destruct (e' - e) as [|d|d] eqn:Hdiff; try lia; cbn [fst].
  - replace (e - e') with 0 by lia. rewrite Z.pow_0_r. lia.
  - rewrite Pos_iter_xO. replace (e - e') with (Zpos d) by lia. reflexivity.
Qed.

Lemma value_align (s : bool) (m : positive) (e e' : Z) :
  e' <= e ->
  (inject_Z (cond_Zopp s (Zpos m * 2 ^ (e - e'))) * 2 ^ e'
   == inject_Z (cond_Zopp s (Zpos m)) * 2 ^ e)%Q.
Proof.
  intros He.
  assert (Hpow : (2 ^ e == 2 ^ e' * inject_Z (2 ^ (e - e')))%Q).
  { rewrite <- pow2_inject, <- pow2_add by lia.
    replace (e' + (e - e')) with e by lia. reflexivity. }
  rewrite Hpow.
  destruct s; cbn [cond_Zopp]; rewrite ?inject_Z_opp, inject_Z_mult; ring.
Qed.

(** [binary_round] against the number it is given. *)
Lemma binary_round_error (s : bool) (m : positive) (e : Z) :
  (mag (Zpos m) e <= 2 ^ 900)%Q ->
  let x := binary_round binary64_prec binary64_emax s m e in
  is_finite x = true
  /\ (Qabs (value x - inject_Z (cond_Zopp s 1) * mag (Zpos m) e)
      <= mag (Zpos m) e * binary64_eps + binary64_tiny)%Q.
Proof.
  intros Hbig x. subst x. unfold binary_round, shl_align.
  change (Zpos (digits2_pos m)) with (Zdigits2 (Zpos m)).
  set (e1 := fexp binary64_prec binary64_emax (Zdigits2 (Zpos m) + e)).
  destruct (e1 - e) as [|d|d] eqn:Hdiff.
  - apply binary_round_aux_near; [lia | fold e1; lia | | exact Hbig].
    split; [apply Qle_refl | apply mag_le; lia].
  - apply binary_round_aux_near; [lia | fold e1; lia | | exact Hbig].
    split; [apply Qle_refl | apply mag_le; lia].
  - assert (Hdig : Zdigits2 (Zpos (Pos.iter xO m d)) + e1
                   = Zdigits2 (Zpos m) + e).
    { rewrite Pos_iter_xO, Zdigits2_shift by lia. lia. }
    assert (Hmag : (mag (Zpos (Pos.iter xO m d)) e1 == mag (Zpos m) e)%Q).
    { rewrite Pos_iter_xO, mag_shift by lia.
      replace (e1 + Zpos d) with e by lia. reflexivity. }
    apply binary_round_aux_near;
      [lia | rewrite Hdig; fold e1; lia | | exact Hbig].
    rewrite <- Hmag. split; [apply Qle_refl | apply mag_le; lia].
Qed.

(** The sum of two finite [double]s, against the sum of the two
    numbers. *)
Lemma double_add_error (x y : double) :
  is_finite x = true -> is_finite y = true ->
  (Qabs (value x + value y) <= 2 ^ 900)%Q ->
  is_finite (double_add x y) = true
  /\ (Qabs (value (double_add x y) - (value x + value y))
      <= Qabs (value x + value y) * binary64_eps + binary64_tiny)%Q.
Proof.
  intros Hfx Hfy Hbig.
  assert (Htiny : (0 <= binary64_tiny)%Q) by (apply Qlt_le_weak, pow2_pos).
  assert (Hexact : forall z : double,
            is_finite z = true -> (value z == value x + value y)%Q ->
            is_finite z = true
            /\ (Qabs (value z - (value x + value y))
                <= Qabs (value x + value y) * binary64_eps + binary64_tiny)%Q).
  { intros z Hfz Hz. split; [exact Hfz|].
    setoid_replace (value z - (value x + value y))%Q with 0%Q by (rewrite Hz; ring).
    change (Qabs 0) with 0%Q.
    pose proof (Qabs_nonneg (value x + value y)).
    unfold binary64_eps. lra. }
  destruct x as [sx|sx| |sx mx ex], y as [sy|sy| |sy my ey];
    try discriminate; cbn [double_add SFadd].
  - apply Hexact; [destruct sx, sy; reflexivity|].
    destruct sx, sy; reflexivity.
  - apply Hexact; [reflexivity|]. change (value (S754_zero sx)) with 0%Q. ring.
  - apply Hexact; [reflexivity|]. change (value (S754_zero sy)) with 0%Q. ring.
  - set (ez := Z.min ex ey).
    set (z := cond_Zopp sx (Zpos (fst (shl_align mx ex ez)))
              + cond_Zopp sy (Zpos (fst (shl_align my ey ez)))).
    assert (Hsum : (value (S754_finite sx mx ex) + value (S754_finite sy my ey)
                    == inject_Z z * 2 ^ ez)%Q).
    { unfold z. rewrite !shl_align_fst by (unfold ez; lia).
      rewrite !value_finite, inject_Z_plus.
      pose proof (value_align sx mx ex ez ltac:(unfold ez; lia)) as Hx.
      pose proof (value_align sy my ey ez ltac:(unfold ez; lia)) as Hy.
      rewrite <- Hx, <- Hy. ring. }
    rewrite Hsum in *.
    destruct z as [|p|p]; cbn [binary_normalize].
    + split; [reflexivity|]. change (value (S754_zero false)) with 0%Q.
      assert (Hz0 : (inject_Z 0 * 2 ^ ez == 0)%Q).
      { change (inject_Z 0) with 0%Q. ring. }
      rewrite Hz0. setoid_replace (0 - 0)%Q with 0%Q by ring.
      change (Qabs 0) with 0%Q. lra.
    + assert (Hmag : (Qabs (inject_Z (Zpos p) * 2 ^ ez) == mag (Zpos p) ez)%Q).
      { apply Qabs_pos. apply (mag_nonneg (Zpos p) ez). lia. }
      rewrite Hmag in *.
      destruct (binary_round_error false p ez Hbig) as [Hf Hb].
      split; [exact Hf|].
      cbn [cond_Zopp] in Hb. change (inject_Z 1) with 1%Q in Hb.
      rewrite Qmult_1_l in Hb. exact Hb.
    + assert (Hmag : (Qabs (inject_Z (Zneg p) * 2 ^ ez) == mag (Zpos p) ez)%Q).
      { change (Zneg p) with (- Zpos p). rewrite inject_Z_opp.
        setoid_replace (- inject_Z (Zpos p) * 2 ^ ez)%Q
          with (- (inject_Z (Zpos p) * 2 ^ ez))%Q by ring.
        rewrite Qabs_opp. apply Qabs_pos. apply (mag_nonneg (Zpos p) ez). lia. }
      rewrite Hmag in *.
      destruct (binary_round_error true p ez Hbig) as [Hf Hb].
      split; [exact Hf|].
      cbn [cond_Zopp] in Hb. change (inject_Z (-1)) with (- (1))%Q in Hb.
      setoid_replace (inject_Z (Zneg p) * 2 ^ ez)%Q
        with (- (1) * mag (Zpos p) ez)%Q
        by (unfold mag; change (Zneg p) with (- Zpos p);
            rewrite inject_Z_opp; ring).
      exact Hb.
Qed.

(** ** The accumulators *)

Ltac each_axis i Hi :=
  destruct i as [|[|[|[|i]]]];
  [ | | | | exfalso; apply (Nat.lt_irrefl 4);
            apply Nat.le_lt_trans with (2 := Hi); do 4 apply le_n_S;
            apply Nat.le_0_l ].

(** The sensitivities fill the 53 bits of their mantissa, and lie
    between 2^-10 and 1. *)
Lemma sensitivity_normal (i : nat) :
  exists m e, sensitivity i = S754_finite false m e
              /\ 2 ^ 52 <= Zpos m < 2 ^ 53
              /\ (2 ^ (-10) <= mag (Zpos m) e <= 1)%Q.
Proof.
  destruct i as [|[|[|i]]]; cbn [sensitivity];
    unfold POINTER_SENSITIVITY, WHEEL_SENSITIVITY_X, WHEEL_SENSITIVITY_Y;
    eexists; eexists; (split; [reflexivity|]); split; split;
    try (apply Z.leb_le; reflexivity); try (apply Z.ltb_lt; reflexivity);
    unfold Qle; vm_compute; discriminate.
Qed.

(** A product by a [double] whose mantissa fills its 53 bits is in
    canonical form. *)
Lemma double_mul_valid (s : bool) (m : positive) (e : Z) (y : double) :
  2 ^ 52 <= Zpos m ->
  is_double (double_mul (S754_finite s m e) y) = true.
Proof.
  intros Hm. destruct y as [sy|sy| |sy my ey]; try reflexivity.
  unfold double_mul. cbn [SFmul].
  apply binary_round_aux_valid; [lia|].
  rewrite fexp_binary64.
  assert (Hprod : 2 ^ 52 <= Zpos (m * my)).
  { rewrite Pos2Z.inj_mul. nia. }
  pose proof (Zdigits2_gt _ 52 ltac:(lia) Hprod). lia.
Qed.

Lemma scaled_valid (a : axes_t) (i : nat) : is_double (scaled a i) = true.
Proof.
  destruct (sensitivity_normal i) as [m [e [HS [Hm _]]]].
  unfold scaled. rewrite HS.
  destruct i as [|[|i]]; apply double_mul_valid; lia.
Qed.

(** [get_axes], axis by axis. *)
Lemma get_axes_eq (a : axes_t) :
  get_axes a
  = (let p := [cast_int16 (snd (modf (scaled a 0)));
               cast_int16 (snd (modf (scaled a 1)));
               cast_int16 (snd (modf (scaled a 2)));
               cast_int16 (snd (modf (scaled a 3)))] in
     (p, any_nonzero p,
      mk_axes (double_div (kept a 0) POINTER_SENSITIVITY)
        (double_div (double_opp (kept a 1)) POINTER_SENSITIVITY)
        (double_div (kept a 2) WHEEL_SENSITIVITY_X)
        (double_div (kept a 3) WHEEL_SENSITIVITY_Y))).
Proof.
  unfold get_axes, kept, scaled, sensitivity, axis.
  destruct (modf (double_mul POINTER_SENSITIVITY (ax0 a))) as [fx ix].
  destruct (modf (double_mul POINTER_SENSITIVITY (double_opp (ax1 a))))
    as [fy iy].
  destruct (modf (double_mul WHEEL_SENSITIVITY_X (ax2 a))) as [fwx iwx].
  destruct (modf (double_mul WHEEL_SENSITIVITY_Y (ax3 a))) as [fwy iwy].
  reflexivity.
Qed.

Lemma get_axes_flag (a : axes_t) :
  snd (fst (get_axes a)) = any_nonzero (fst (fst (get_axes a))).
Proof. rewrite get_axes_eq. reflexivity. Qed.

Lemma get_axes_report (a : axes_t) (i : nat) :
  (i < 4)%nat ->
  nth i (fst (fst (get_axes a))) 0 = cast_int16 (snd (modf (scaled a i))).
Proof.
  intros Hi. rewrite get_axes_eq. cbn [fst].
  each_axis i Hi; reflexivity.
Qed.

(** What [get_axes] stores: the fraction it kept, divided by the
    sensitivity; for pointer Y the fraction is negated first. *)
Lemma get_axes_stored (a : axes_t) (i : nat) :
  (i < 4)%nat ->
  axis (snd (get_axes a)) i
  = double_div (if (i =? 1)%nat then double_opp (kept a i) else kept a i)
      (sensitivity i).
Proof.
  intros Hi. rewrite get_axes_eq. cbn [snd].
  each_axis i Hi; reflexivity.
Qed.

(** The conversion to [int16_t] where ISO C defines it. *)
Lemma cast_int16_defined (ix : double) :
  is_finite ix = true -> fits_int16 (trunc ix) = true ->
  cast_int16 ix = trunc ix.
Proof.
  intros Hfin Hfits. unfold cast_int16, double_to_int32. rewrite Hfin.
  pose proof Hfits as Hrange. unfold fits_int16, INT16_MIN, INT16_MAX in Hrange.
  apply andb_prop in Hrange. destruct Hrange as [Hlo Hhi].
  apply Z.leb_le in Hlo. apply Z.leb_le in Hhi.
  unfold INT32_MIN, INT32_MAX.
  destruct (Z.leb_spec (-2147483648) (trunc ix)); [|lia].
  destruct (Z.leb_spec (trunc ix) 2147483647); [|lia].
  cbn [andb]. apply to_int16_fits. exact Hfits.
Qed.

Lemma fits_int16_small (z : Z) : fits_int16 z = true -> Z.abs z < 2 ^ 53.
Proof.
  unfold fits_int16, INT16_MIN, INT16_MAX. intros Hfits.
  apply andb_prop in Hfits. destruct Hfits as [Hlo Hhi].
  apply Z.leb_le in Hlo. apply Z.leb_le in Hhi.
  assert (32768 < 2 ^ 53) by reflexivity. lia.
Qed.

Lemma get_axes_report_in_range (a : axes_t) (i : nat) :
  (i < 4)%nat -> is_finite (scaled a i) = true ->
  fits_int16 (trunc (scaled a i)) = true ->
  nth i (fst (fst (get_axes a))) 0 = trunc (scaled a i).
Proof.
  intros Hi Hfin Hfits.
  rewrite (get_axes_report a i Hi).
  destruct (modf_integral (scaled a i) Hfin (fits_int16_small _ Hfits))
    as [Hif Hit].
  rewrite cast_int16_defined; [exact Hit | exact Hif |].
  rewrite Hit. exact Hfits.
Qed.

(** ** The fraction that [get_axes] keeps, scaled back and forth *)

Lemma mag_mono (m e e' : Z) : 0 <= m -> e <= e' -> (mag m e <= mag m e')%Q.
Proof.
  intros Hm He. unfold mag. rewrite !(Qmult_comm (inject_Z m)).
  apply Qmult_le_compat_r; [apply pow2_le; exact He|].
  change 0%Q with (inject_Z 0). rewrite <- Zle_Qle. exact Hm.
Qed.

(** A fraction is either at least 2^-50 away from one or among the
    seven largest [double]s below one. *)
Lemma fraction_near_one (f : double) :
  is_finite f = true -> is_double f = true -> (Qabs (value f) < 1)%Q ->
  (Qabs (value f) <= 1 - 2 ^ (-50))%Q
  \/ exists s k, 1 <= k <= 7 /\ f = S754_finite s (Z.to_pos (2 ^ 53 - k)) (-53).
Proof.
  intros Hfin Hval Hlt.
  destruct f as [s|s| |s m e]; try discriminate Hfin.
  - left. cbn [value]. vm_compute. discriminate.
  - destruct (valid_finite s m e Hval) as [Hm [He Hnorm]].
    rewrite abs_value_finite in *.
    destruct (Z_le_gt_dec e (-54)) as [Hlow|Hlow].
    { left. apply Qle_trans with (mag (2 ^ 53) (-54)).
      - apply Qle_trans with (mag (Zpos m) (-54)).
        + apply mag_mono; lia.
        + apply mag_le. lia.
      - vm_compute. discriminate. }
    destruct (Z_le_gt_dec (-52) e) as [Hhigh|Hhigh].
    { exfalso. assert (Hbig : 2 ^ 52 <= Zpos m) by lia.
      assert (Hone : (1 <= mag (Zpos m) e)%Q).
      { apply Qle_trans with (mag (2 ^ 52) (-52)).
        - vm_compute. discriminate.
        - apply Qle_trans with (mag (2 ^ 52) e).
          + apply mag_mono; lia.
          + apply mag_le. exact Hbig. }
      lra. }
    assert (He53 : e = -53) by lia. subst e.
    destruct (Z_le_gt_dec (Zpos m) (2 ^ 53 - 8)) as [Hsmall|Htop].
    + left. apply Qle_trans with (mag (2 ^ 53 - 8) (-53)).
      * apply mag_le. exact Hsmall.
      * vm_compute. discriminate.
    + right. exists s, (2 ^ 53 - Zpos m). split; [lia|].
      replace (2 ^ 53 - (2 ^ 53 - Zpos m)) with (Zpos m) by lia.
      reflexivity.
Qed.

Lemma binary64_tiny_small : (0 <= binary64_tiny <= 1 # 2 ^ 60)%Q.
Proof.
  unfold binary64_tiny. split.
  - apply Qlt_le_weak, pow2_pos.
  - apply Qle_trans with (2 ^ (-60))%Q; [apply pow2_le; lia|].
    vm_compute. discriminate.
Qed.

(** Away from one: dividing by the sensitivity and multiplying back
    stays below one, whatever the two roundings do. *)
Lemma round_trip_small (i : nat) (f : double) :
  is_finite f = true -> (Qabs (value f) <= 1 - 2 ^ (-50))%Q ->
  let r := double_div f (sensitivity i) in
  let z := double_mul (sensitivity i) r in
  is_finite r = true
  /\ (Qabs (value (sensitivity i)) * Qabs (value r) < 1)%Q
  /\ is_finite z = true
  /\ (Qabs (value z) < 1)%Q.
Proof.
  intros Hfin Hf r z. subst r z.
  destruct (sensitivity_normal i) as [m [e [HS [Hm [Hlo Hhi]]]]].
  rewrite HS in *. rewrite abs_value_finite.
  pose proof binary64_tiny_small as [Ht0 Ht1].
  change (2 ^ (-50))%Q with (1 # 1125899906842624)%Q in Hf.
  change (1 # 2 ^ 60)%Q with (1 # 1152921504606846976)%Q in Ht1.
  pose proof (Qabs_nonneg (value f)) as Hf0.
  destruct (double_div_upper f false m e Hfin ltac:(lra) Hlo) as [Hrfin Hr].
  set (r := double_div f (S754_finite false m e)) in *.
  pose proof (Qabs_nonneg (value r)) as Hr0.
  assert (Hts : (binary64_tiny * mag (Zpos m) e <= binary64_tiny)%Q).
  { setoid_replace binary64_tiny with (binary64_tiny * 1)%Q at 2 by ring.
    rewrite !(Qmult_comm binary64_tiny).
    apply Qmult_le_compat_r; [exact Hhi | exact Ht0]. }
  unfold binary64_eps in *.
  rewrite (Qmult_comm (Qabs (value r))) in Hr.
  assert (Hprod : (mag (Zpos m) e * Qabs (value r) < 1)%Q) by lra.
  destruct (double_mul_upper false m e r ltac:(lia) Hrfin) as [Hzfin Hz].
  { apply Qle_trans with 1%Q; [lra|].
    change 1%Q with (2 ^ 0)%Q. apply pow2_le. lia. }
  unfold binary64_eps in *.
  split; [exact Hrfin|]. split; [exact Hprod|]. split; [exact Hzfin|]. lra.
Qed.

(** The six [double]s below the largest one under one, by evaluation. *)
Lemma round_trip_top (i : nat) (s : bool) (k : Z) :
  (i < 4)%nat -> 2 <= k <= 7 ->
  let f := S754_finite s (Z.to_pos (2 ^ 53 - k)) (-53) in
  let r := double_div f (sensitivity i) in
  let z := double_mul (sensitivity i) r in
  is_finite r = true
  /\ (Qabs (value (sensitivity i)) * Qabs (value r) < 1)%Q
  /\ is_finite z = true
  /\ (Qabs (value z) < 1)%Q.
Proof.
  intros Hi Hk.
  assert (Hcases : k = 2 \/ k = 3 \/ k = 4 \/ k = 5 \/ k = 6 \/ k = 7) by lia.
  each_axis i Hi; destruct s;
    destruct Hcases as [->|[->|[->|[->|[->| ->]]]]];
    vm_compute; repeat split; reflexivity.
Qed.

(** The largest [double] under one is the fraction of itself only. *)
Lemma modf_fraction_top (x : double) (s : bool) :
  is_finite x = true -> is_double x = true ->
  fst (modf x) = S754_finite s (Z.to_pos (2 ^ 53 - 1)) (-53) ->
  x = S754_finite s (Z.to_pos (2 ^ 53 - 1)) (-53).
Proof.
  intros Hfin Hval Hf.
  destruct x as [sx|sx| |sx m e]; try discriminate Hfin.
  - discriminate Hf.
  - destruct (valid_finite sx m e Hval) as [Hm [He Hnorm]].
    destruct e as [|p|k]; try discriminate Hf.
    cbn [modf fst] in Hf. rewrite Z.land_ones in Hf by lia.
    assert (Hpos : 0 < 2 ^ Zpos k) by (apply Z.pow_pos_nonneg; lia).
    pose proof (Z.mod_pos_bound (Zpos m) (2 ^ Zpos k) Hpos) as Hr.
    pose proof (Z.mod_le (Zpos m) (2 ^ Zpos k) ltac:(lia) Hpos) as Hrm.
    set (r := Zpos m mod 2 ^ Zpos k) in *.
    destruct (binary_normalize_exact sx r (Zneg k) ltac:(lia) ltac:(lia))
      as [Hle Hpack].
    rewrite Hpack in Hf. clear Hpack.
    set (e1 := fexp binary64_prec binary64_emax (Zdigits2 r + Zneg k)) in *.
    assert (Hj : 0 < 2 ^ (Zneg k - e1)) by (apply Z.pow_pos_nonneg; lia).
    unfold pack in Hf.
    destruct (r * 2 ^ (Zneg k - e1)) as [|M|M] eqn:HM; try discriminate Hf.
    destruct (Z.eqb_spec (Zpos M) (2 ^ 53)) as [HM53|HM53].
    { destruct (e1 + 1 <=? 971); discriminate Hf. }
    destruct (e1 <=? 971); [|discriminate Hf].
    injection Hf as Hs HMtop He1.
    assert (Hj0 : Zneg k - e1 = 0).
    { destruct (Z.eq_dec (Zneg k - e1) 0) as [Hz|Hnz]; [exact Hz|exfalso].
      replace (Zneg k - e1) with (1 + (Zneg k - e1 - 1)) in HM by lia.
      rewrite Z.pow_add_r in HM by lia.
      change (2 ^ 1) with 2 in HM.
      generalize dependent (2 ^ (Zneg k - e1 - 1)). intros t HM.
      assert (Hodd : Zpos M = 2 * 4503599627370495 + 1).
      { rewrite HMtop. reflexivity. }
      nia. }
    rewrite Hj0, Z.pow_0_r, Z.mul_1_r in HM.
    assert (Hk : Zneg k = -53) by lia.
    assert (Hr53 : r = 2 ^ 53 - 1).
    { rewrite HM, HMtop. reflexivity. }
    assert (Hm53 : Zpos m = 2 ^ 53 - 1).
    { unfold r in Hr53. replace (Zpos k) with 53 in * by lia.
      rewrite Z.mod_small in Hr53 by lia. exact Hr53. }
    subst sx. rewrite Hk. f_equal.
    apply Pos2Z.inj. rewrite Hm53. reflexivity.
Qed.

(** No product by a sensitivity is the largest [double] under one: the
    exact product would lie within one unit in the last place of it,
    which leaves two candidates for the other factor, and neither
    gives it. *)
Lemma product_not_top_for (mS : positive) (eS : Z) (c1 c2 : Z) (y : double)
  (s : bool) :
  2 ^ 52 <= Zpos mS < 2 ^ 53 - 2 -> -106 <= eS <= -53 ->
  (forall my, 2 ^ 52 <= my < 2 ^ 53 ->
     (2 ^ 53 - 2) * 2 ^ 52 <= Zpos mS * my < 2 ^ 105 -> my = c1 \/ my = c2) ->
  (forall sy c, c = c1 \/ c = c2 ->
     double_mul (S754_finite false mS eS) (S754_finite sy (Z.to_pos c) (-105 - eS))
     <> S754_finite s (Z.to_pos (2 ^ 53 - 1)) (-53)) ->
  is_double y = true ->
  double_mul (S754_finite false mS eS) y
  <> S754_finite s (Z.to_pos (2 ^ 53 - 1)) (-53).
Proof.
  intros HmS HeS Hcand Hcheck Hval Heq.
  destruct y as [sy|sy| |sy my ey]; try discriminate Heq.
  destruct (valid_finite sy my ey Hval) as [Hmy [Hey Hnorm]].
  pose proof Heq as Heq0.
  rewrite double_mul_finite in Heq.
  destruct (binary_round_aux_pack (xorb false sy) (Zpos mS * Zpos my) (eS + ey)
              loc_Exact ltac:(lia) (product_fills mS my eS ey ltac:(lia)))
    as [Hm1 [m2 [Hm2 Hr]]].
  rewrite Hr in Heq. clear Hr.
  set (P := Zpos mS * Zpos my) in *.
  set (e1 := fexp binary64_prec binary64_emax (Zdigits2 P + (eS + ey))) in *.
  assert (He1 : e1 = Z.max (Zdigits2 P + (eS + ey) - 53) (-1074)).
  { unfold e1. apply fexp_binary64. }
  assert (Htop : m2 = 2 ^ 53 - 1 /\ e1 = -53).
  { unfold pack in Heq. destruct m2 as [|M|M]; try discriminate Heq.
    destruct (Z.eqb_spec (Zpos M) (2 ^ 53)) as [HM|HM].
    - destruct (e1 + 1 <=? 971); [|discriminate Heq].
      exfalso. injection Heq as _ Hbad _. revert Hbad. vm_compute. discriminate.
    - destruct (e1 <=? 971); [|discriminate Heq].
      injection Heq as _ HM' He. split; [|exact He].
      rewrite HM'. reflexivity. }
  destruct Htop as [Hm2top He53].
  assert (HP : 0 < P) by (unfold P; lia).
  pose proof (Zdigits2_bounds P HP) as Hd.
  assert (Hd106 : Zdigits2 P <= 106).
  { apply Zdigits2_le; [lia|]. unfold P.
    assert (2 ^ 106 = 2 ^ 53 * 2 ^ 53) by reflexivity. nia. }
  assert (Hbig : 2 ^ 52 <= Zpos my) by lia.
  assert (Hd105 : 104 < Zdigits2 P).
  { apply Zdigits2_gt; [lia|]. unfold P.
    assert (2 ^ 104 = 2 ^ 52 * 2 ^ 52) by reflexivity. nia. }
  assert (Hshift : e1 - (eS + ey) = Zdigits2 P - 53) by lia.
  rewrite Hshift in *.
  assert (Hd' : Zdigits2 P = 105 \/ Zdigits2 P = 106) by lia.
  destruct Hd' as [Hd'|Hd']; rewrite Hd' in *.
  - change (105 - 53) with 52 in *.
    pose proof (Z.mul_div_le P (2 ^ 52) ltac:(lia)) as Hlo.
    pose proof (Z.mul_succ_div_gt P (2 ^ 52) ltac:(lia)) as Hhi.
    assert (Hrange : (2 ^ 53 - 2) * 2 ^ 52 <= P < 2 ^ 105).
    { change (2 ^ 105) with (2 ^ 53 * 2 ^ 52). nia. }
    assert (Hey' : ey = -105 - eS) by lia.
    destruct (Hcand (Zpos my) ltac:(lia) Hrange) as [Hc|Hc].
    + apply (Hcheck sy c1 (or_introl eq_refl)).
      rewrite <- Hc, <- Hey'. exact Heq0.
    + apply (Hcheck sy c2 (or_intror eq_refl)).
      rewrite <- Hc, <- Hey'. exact Heq0.
  - change (106 - 53) with 53 in *.
    pose proof (Z.mul_div_le P (2 ^ 53) ltac:(lia)) as Hlo.
    assert (Hup : P < (2 ^ 53 - 2) * 2 ^ 53) by (unfold P; nia).
    nia.
Qed.

Lemma product_not_top (i : nat) (y : double) (s : bool) :
  (i < 4)%nat -> is_double y = true ->
  double_mul (sensitivity i) y
  <> S754_finite s (Z.to_pos (2 ^ 53 - 1)) (-53).
Proof.
  intros Hi Hval.
  assert (Hpointer : double_mul POINTER_SENSITIVITY y
                     <> S754_finite s (Z.to_pos (2 ^ 53 - 1)) (-53)).
  { apply (product_not_top_for _ _ 5864062014805332 5864062014805333);
      [split; [apply Z.leb_le | apply Z.ltb_lt]; reflexivity
      | lia
      | intros my Hmy Hrange; lia
      | intros sy c [-> | ->]; destruct sy, s; vm_compute; discriminate
      | exact Hval]. }
  assert (Hwheel : double_mul WHEEL_SENSITIVITY_X y
                   <> S754_finite s (Z.to_pos (2 ^ 53 - 1)) (-53)).
  { apply (product_not_top_for _ _ 6433713753386422 6433713753386423);
      [split; [apply Z.leb_le | apply Z.ltb_lt]; reflexivity
      | lia
      | intros my Hmy Hrange; lia
      | intros sy c [-> | ->]; destruct sy, s; vm_compute; discriminate
      | exact Hval]. }
  each_axis i Hi; cbn [sensitivity]; assumption.
Qed.

(** *** Results that are doubles *)

Lemma pack_not_nan (s : bool) (m e : Z) : 0 <= m -> is_nan (pack s m e) = false.
Proof.
  intros Hm. unfold pack. destruct m as [|p|p]; try lia; [reflexivity|].
  destruct (Zpos p =? 2 ^ 53).
  - destruct (e + 1 <=? 971); reflexivity.
  - destruct (e <=? 971); reflexivity.
Qed.

Lemma binary_round_aux_not_nan (s : bool) (mx ex : Z) (lx : location) :
  0 <= mx ->
  ex <= fexp binary64_prec binary64_emax (Zdigits2 mx + ex) ->
  is_nan (binary_round_aux binary64_prec binary64_emax s mx ex lx) = false.
Proof.
  intros Hmx Hex.
  destruct (binary_round_aux_pack s mx ex lx Hmx Hex) as [Hm1 [m2 [Hm2 Hr]]].
  rewrite Hr. apply pack_not_nan.
  assert (0 <= mx / 2 ^ (fexp binary64_prec binary64_emax (Zdigits2 mx + ex) - ex)).
  { apply Z.div_pos; [exact Hmx | apply Z.pow_pos_nonneg; lia]. }
  lia.
Qed.

Lemma binary_round_result (s : bool) (m : positive) (e : Z) :
  is_double (binary_round binary64_prec binary64_emax s m e) = true
  /\ is_nan (binary_round binary64_prec binary64_emax s m e) = false.
Proof.
  unfold binary_round, shl_align.
  change (Zpos (digits2_pos m)) with (Zdigits2 (Zpos m)).
  set (e1 := fexp binary64_prec binary64_emax (Zdigits2 (Zpos m) + e)).
  destruct (e1 - e) as [|d|d] eqn:Hdiff.
  - split; [apply binary_round_aux_valid | apply binary_round_aux_not_nan];
      fold e1; lia.
  - split; [apply binary_round_aux_valid | apply binary_round_aux_not_nan];
      fold e1; lia.
  - assert (Hdig : Zdigits2 (Zpos (Pos.iter xO m d)) + e1
                   = Zdigits2 (Zpos m) + e).
    { rewrite Pos_iter_xO, Zdigits2_shift by lia. lia. }
    split; [apply binary_round_aux_valid | apply binary_round_aux_not_nan];
      try lia; rewrite Hdig; fold e1; lia.
Qed.

Lemma binary_normalize_result (z e : Z) (s : bool) :
  is_double (binary_normalize binary64_prec binary64_emax z e s) = true
  /\ is_nan (binary_normalize binary64_prec binary64_emax z e s) = false.
Proof.
  destruct z as [|p|p]; cbn [binary_normalize].
  - split; reflexivity.
  - apply binary_round_result.
  - apply binary_round_result.
Qed.

(** The sum of a [double] and a finite [double]. *)
Lemma double_add_result (x y : double) :
  is_double x = true -> is_nan x = false ->
  is_double y = true -> is_finite y = true ->
  is_double (double_add x y) = true /\ is_nan (double_add x y) = false.
Proof.
  intros Hx Hnx Hy Hfy.
  destruct x as [sx|sx| |sx mx ex], y as [sy|sy| |sy my ey];
    try discriminate; cbn [double_add SFadd];
    try (split; [assumption | reflexivity]).
  - destruct sx, sy; split; reflexivity.
  - apply binary_normalize_result.
Qed.

(** The quotient by a [double] that is neither zero nor infinite. *)
Lemma double_div_result (x : double) (sy : bool) (my : positive) (ey : Z) :
  is_nan x = false ->
  is_double (double_div x (S754_finite sy my ey)) = true
  /\ is_nan (double_div x (S754_finite sy my ey)) = false.
Proof.
  intros Hnx. destruct x as [sx|sx| |sx mx ex]; try discriminate Hnx;
    cbn [double_div SFdiv]; try (split; reflexivity).
  pose proof (SFdiv_core_binary_spec (Zpos mx) ex (Zpos my) ey
                ltac:(lia) ltac:(lia)) as Hcore.
  destruct (SFdiv_core_binary binary64_prec binary64_emax
              (Zpos mx) ex (Zpos my) ey) as [[q e'] l].
  destruct Hcore as [Hq [He' _]].
  split; [apply binary_round_aux_valid | apply binary_round_aux_not_nan];
    assumption.
Qed.

Lemma double_mul_not_nan (sx : bool) (mx : positive) (ex : Z) (y : double) :
  2 ^ 52 <= Zpos mx -> is_nan y = false ->
  is_nan (double_mul (S754_finite sx mx ex) y) = false.
Proof.
  intros Hm Hny. destruct y as [sy|sy| |sy my ey]; try discriminate Hny;
    try reflexivity.
  rewrite double_mul_finite.
  apply binary_round_aux_not_nan; [lia | apply product_fills; exact Hm].
Qed.

Lemma modf_not_nan (x : double) :
  is_nan x = false -> is_nan (fst (modf x)) = false.
Proof.
  intros Hnx. destruct x as [s|s| |s m [|p|k]]; try discriminate Hnx;
    try reflexivity.
  cbn [modf fst]. apply binary_normalize_result.
Qed.

(** Dividing the kept fraction by the sensitivity and multiplying back
    stays below one: what the next call of [get_axes] computes has no
    integral part. *)
Lemma round_trip (i : nat) (y : double) :
  (i < 4)%nat -> is_double y = true -> is_nan y = false ->
  let f := fst (modf (double_mul (sensitivity i) y)) in
  let r := double_div f (sensitivity i) in
  let z := double_mul (sensitivity i) r in
  is_finite r = true
  /\ (Qabs (value (sensitivity i)) * Qabs (value r) < 1)%Q
  /\ is_finite z = true
  /\ (Qabs (value z) < 1)%Q.
Proof.
  intros Hi Hval Hnan f r z. subst r z.
  set (x := double_mul (sensitivity i) y) in *.
  assert (Hx : is_double x = true /\ is_nan x = false).
  { unfold x. destruct (sensitivity_normal i) as [m [e [HS [Hm _]]]].
    rewrite HS. split.
    - apply double_mul_valid. lia.
    - apply double_mul_not_nan; [lia | exact Hnan]. }
  destruct Hx as [Hxv Hxn].
  destruct (is_finite x) eqn:Hxf.
  - destruct (modf_finite x Hxf Hxv) as [Hff [Hfv _]].
    pose proof (modf_fraction_small x Hxf Hxv) as Hsmall. fold f in Hff, Hfv, Hsmall.
    destruct (fraction_near_one f Hff Hfv Hsmall) as [Hfar|[s [k [Hk Hf]]]].
    + apply round_trip_small; assumption.
    + destruct (Z.eq_dec k 1) as [Hk1|Hk1].
      * exfalso. subst k.
        apply (product_not_top i y s Hi Hval).
        apply modf_fraction_top; assumption.
      * rewrite Hf. apply round_trip_top; [exact Hi | lia].
  - assert (Hf : is_finite f = true /\ (value f == 0)%Q).
    { unfold f. destruct x as [s|s| |s m e]; try discriminate;
        split; reflexivity. }
    destruct Hf as [Hff Hf0].
    apply round_trip_small; [exact Hff|].
    rewrite Hf0. vm_compute. discriminate.
Qed.

(** *** The accumulators that can occur *)

Lemma axis_add_result (k : nat) (d : double) (a : axes_t) :
  is_double d = true -> is_finite d = true ->
  (forall i, (i < 4)%nat ->
     is_double (axis a i) = true /\ is_nan (axis a i) = false) ->
  forall i, (i < 4)%nat ->
    is_double (axis (axis_add k d a) i) = true
    /\ is_nan (axis (axis_add k d a) i) = false.
Proof.
  intros Hd Hfd Ha i Hi.
  pose proof (Ha 0%nat ltac:(lia)) as [Hv0 Hn0].
  pose proof (Ha 1%nat ltac:(lia)) as [Hv1 Hn1].
  pose proof (Ha 2%nat ltac:(lia)) as [Hv2 Hn2].
  pose proof (Ha 3%nat ltac:(lia)) as [Hv3 Hn3].
  cbn [axis] in *.
  destruct k as [|[|[|[|k]]]]; cbn [axis_add]; each_axis i Hi; cbn [axis ax0 ax1 ax2 ax3];
    try (split; assumption); apply double_add_result; assumption.
Qed.

Lemma double_of_int16 (z : Z) :
  fits_int16 z = true ->
  is_double (double_of_int z) = true /\ is_finite (double_of_int z) = true.
Proof.
  intros Hz.
  destruct (double_of_int_value z (fits_int16_small z Hz)) as [Hf [Hv _]].
  split; assumption.
Qed.

(** Every accumulator the firmware can hold is a [double] that is a
    number or an infinity. *)
Lemma reachable_doubles (a : axes_t) :
  reachable a ->
  forall i, (i < 4)%nat ->
    is_double (axis a i) = true /\ is_nan (axis a i) = false.
Proof.
  intros Hr. induction Hr as [|dx dy scroll a Hdx Hdy Hr IH|a Hr IH].
  - intros i Hi. each_axis i Hi; split; reflexivity.
  - destruct (double_of_int16 dx Hdx) as [Hvx Hfx].
    destruct (double_of_int16 dy Hdy) as [Hvy Hfy].
    unfold update_axes.
    apply axis_add_result; [assumption | assumption |].
    apply axis_add_result; assumption.
  - intros i Hi. rewrite (get_axes_stored a i Hi).
    destruct (sensitivity_normal i) as [m [e [HS [Hm _]]]].
    destruct (IH i Hi) as [Hv Hn].
    assert (Hk : is_nan (kept a i) = false).
    { unfold kept. apply modf_not_nan. unfold scaled. rewrite HS.
      destruct i as [|[|i]]; apply double_mul_not_nan; try lia;
        rewrite ?is_nan_opp; exact Hn. }
    rewrite HS. apply double_div_result.
    destruct (i =? 1)%nat; rewrite ?is_nan_opp; exact Hk.
Qed.

(** What the next call of [get_axes] scales: the product of the
    sensitivity and the accumulator that this call stores. *)
Lemma scaled_stored (a : axes_t) (i : nat) :
  (i < 4)%nat ->
  let y := if (i =? 1)%nat then double_opp (axis a i) else axis a i in
  let r := double_div (fst (modf (double_mul (sensitivity i) y)))
             (sensitivity i) in
  axis (snd (get_axes a)) i
  = (if (i =? 1)%nat then double_opp r else r)
  /\ scaled (snd (get_axes a)) i = double_mul (sensitivity i) r.
Proof.
  intros Hi y r. subst y r.
  unfold scaled at 1. rewrite (get_axes_stored a i Hi). unfold kept, scaled.
  each_axis i Hi; cbn [Nat.eqb]; split; try reflexivity.
  - apply double_div_opp_l.
  - rewrite double_div_opp_l, double_opp_involutive. reflexivity.
Qed.

Lemma get_axes_settles (a : axes_t) (i : nat) :
  (i < 4)%nat ->
  is_double (axis a i) = true -> is_nan (axis a i) = false ->
  let a' := snd (get_axes a) in
  is_finite (axis a' i) = true
  /\ (Qabs (value (sensitivity i) * value (axis a' i)) < 1)%Q
  /\ is_finite (scaled a' i) = true
  /\ (Qabs (value (scaled a' i)) < 1)%Q.
Proof.
  intros Hi Hv Hn a'. subst a'.
  destruct (scaled_stored a i Hi) as [Hstored Hscaled].
  set (y := if (i =? 1)%nat then double_opp (axis a i) else axis a i) in *.
  assert (Hy : is_double y = true /\ is_nan y = false).
  { unfold y. destruct (i =? 1)%nat; rewrite ?is_double_opp, ?is_nan_opp;
      split; assumption. }
  destruct Hy as [Hyv Hyn].
  destruct (round_trip i y Hi Hyv Hyn) as [Hrf [Hrs [Hzf Hzs]]].
  set (r := double_div (fst (modf (double_mul (sensitivity i) y)))
              (sensitivity i)) in *.
  rewrite Hscaled, Hstored.
  rewrite Qabs_Qmult.
  destruct (i =? 1)%nat; rewrite ?is_finite_opp, ?abs_value_opp;
    repeat split; assumption.
Qed.

(** ** The balance of an axis over a tick *)

Lemma sensitivity_value (i : nat) :
  (2 ^ (-7) <= value (sensitivity i) <= 36 # 100)%Q
  /\ (Qabs (value (sensitivity i) - decimal_sensitivity i) <= 2 ^ (-55))%Q.
Proof.
  destruct i as [|[|[|i]]]; cbn [sensitivity decimal_sensitivity];
    repeat split; vm_compute; discriminate.
Qed.

Lemma update_axes_axis (dx dy : Z) (scroll : bool) (a : axes_t) (i : nat) :
  (i < 4)%nat ->
  (axis (update_axes dx dy scroll a) i = axis a i
   /\ raw_input i (dx, dy, scroll) = 0)
  \/ axis (update_axes dx dy scroll a) i
     = double_add (axis a i) (double_of_int (raw_input i (dx, dy, scroll))).
Proof.
  intros Hi. unfold update_axes.
  each_axis i Hi; destruct scroll;
    cbn [Nat.mul Nat.add axis_add axis ax0 ax1 ax2 ax3 raw_input]; auto.
Qed.

Lemma raw_input_int16 (i : nat) (u : update) :
  int16_update u = true -> fits_int16 (raw_input i u) = true.
Proof.
  destruct u as [[dx dy] scroll]. unfold int16_update. cbn [fst snd].
  intros Hu. apply andb_prop in Hu. destruct Hu as [Hx Hy].
  destruct i as [|[|[|i]]]; cbn [raw_input]; destruct scroll;
    try assumption; reflexivity.
Qed.

Lemma fits_int16_abs (z : Z) :
  fits_int16 z = true -> (Qabs (inject_Z z) <= 32768)%Q.
Proof.
  unfold fits_int16, INT16_MIN, INT16_MAX. intros Hz.
  apply andb_prop in Hz. destruct Hz as [Hlo Hhi].
  apply Z.leb_le in Hlo. apply Z.leb_le in Hhi.
  apply Qabs_Qle_condition. change 32768%Q with (inject_Z 32768).
  rewrite <- inject_Z_opp, <- !Zle_Qle. lia.
Qed.

(** One addition of a 16-bit delta to an accumulator below 2^20. *)
Lemma add_delta_error (x : double) (delta : Z) (B : Q) :
  is_finite x = true -> (Qabs (value x) <= B)%Q ->
  fits_int16 delta = true -> (B + 32769 <= 1048576)%Q ->
  let x1 := double_add x (double_of_int delta) in
  is_finite x1 = true
  /\ (Qabs (value x1 - (value x + inject_Z delta)) <= 1 # 2147483648)%Q
  /\ (Qabs (value x1) <= B + 32769)%Q.
Proof.
  intros Hfx Hx Hdelta HB x1. subst x1.
  destruct (double_of_int_value delta (fits_int16_small delta Hdelta))
    as [Hfd [_ Hvd]].
  pose proof (fits_int16_abs delta Hdelta) as Hd.
  pose proof binary64_tiny_small as [Ht0 Ht1].
  change (1 # 2 ^ 60)%Q with (1 # 1152921504606846976)%Q in Ht1.
  assert (Hsum : (Qabs (value x + value (double_of_int delta)) <= 1048576)%Q).
  { rewrite Hvd.
    apply Qle_trans with (Qabs (value x) + Qabs (inject_Z delta))%Q;
      [apply Qabs_triangle | lra]. }
  destruct (double_add_error x (double_of_int delta) Hfx Hfd) as [Hf Herr].
  { apply Qle_trans with 1048576%Q; [exact Hsum|].
    change 1048576%Q with (2 ^ 20)%Q. apply pow2_le. lia. }
  rewrite Hvd in *.
  split; [exact Hf|].
  assert (Herr' : (Qabs (value (double_add x (double_of_int delta))
                         - (value x + inject_Z delta))
                   <= 1 # 2147483648)%Q).
  { unfold binary64_eps in Herr. lra. }
  split; [exact Herr'|].
  apply Qabs_Qle_condition in Herr'. apply Qabs_Qle_condition in Hx.
  apply Qabs_Qle_condition in Hd. apply Qabs_Qle_condition.
  split; lra.
Qed.

(** The calls of [update_axes] of a tick: the accumulator ends within
    2^-31 per call of the sum of what it held and what it was fed. *)
Lemma apply_updates_error (i : nat) (us : list update) :
  (i < 4)%nat -> forallb int16_update us = true ->
  forall (a : axes_t) (B : Q),
    is_finite (axis a i) = true -> (Qabs (value (axis a i)) <= B)%Q ->
    (B + 32769 * inject_Z (Z.of_nat (length us)) <= 1048576)%Q ->
    is_finite (axis (apply_updates us a) i) = true
    /\ (Qabs (value (axis (apply_updates us a) i)
              - (value (axis a i) + inject_Z (raw_since i us)))
        <= inject_Z (Z.of_nat (length us)) * (1 # 2147483648))%Q
    /\ (Qabs (value (axis (apply_updates us a) i))
        <= B + 32769 * inject_Z (Z.of_nat (length us)))%Q.
Proof.
  intros Hi. induction us as [|u us IH]; intros Hus a B Hfa Ha HB.
  - cbn [apply_updates fold_left raw_since fold_right length Z.of_nat].
    change (inject_Z 0) with 0%Q. split; [exact Hfa|]. split.
    + setoid_replace (value (axis a i) - (value (axis a i) + 0))%Q
        with 0%Q by ring.
      vm_compute. discriminate.
    + lra.
  - cbn [forallb] in Hus. apply andb_prop in Hus. destruct Hus as [Hu Hus].
    assert (Hlen : (inject_Z (Z.of_nat (length (u :: us)))
                    == 1 + inject_Z (Z.of_nat (length us)))%Q).
    { cbn [length]. rewrite Nat2Z.inj_succ. unfold Z.succ.
      rewrite inject_Z_plus. change (inject_Z 1) with 1%Q. ring. }
    rewrite Hlen in *.
    assert (Hn0 : (0 <= inject_Z (Z.of_nat (length us)))%Q).
    { change 0%Q with (inject_Z 0). rewrite <- Zle_Qle. lia. }
    destruct u as [[dx dy] scroll].
    change (apply_updates ((dx, dy, scroll) :: us) a)
      with (apply_updates us (update_axes dx dy scroll a)).
    change (raw_since i ((dx, dy, scroll) :: us))
      with (raw_input i (dx, dy, scroll) + raw_since i us).
    set (a1 := update_axes dx dy scroll a).
    assert (Hstep : is_finite (axis a1 i) = true
                    /\ (Qabs (value (axis a1 i)
                              - (value (axis a i)
                                 + inject_Z (raw_input i (dx, dy, scroll))))
                        <= 1 # 2147483648)%Q
                    /\ (Qabs (value (axis a1 i)) <= B + 32769)%Q).
    { destruct (update_axes_axis dx dy scroll a i Hi) as [[Hsame Hraw]|Hadd];
        fold a1 in Hsame || fold a1 in Hadd.
      - rewrite Hsame, Hraw. change (inject_Z 0) with 0%Q.
        split; [exact Hfa|]. split.
        + setoid_replace (value (axis a i) - (value (axis a i) + 0))%Q
            with 0%Q by ring.
          vm_compute. discriminate.
        + lra.
      - rewrite Hadd.
        apply add_delta_error;
          [exact Hfa | exact Ha | apply raw_input_int16; exact Hu | lra]. }
    destruct Hstep as [Hf1 [He1 Hb1]].
    destruct (IH Hus a1 (B + 32769)%Q Hf1 Hb1 ltac:(lra)) as [Hf [He Hb]].
    split; [exact Hf|]. split; [|lra].
    rewrite inject_Z_plus.
    apply Qabs_Qle_condition in He. apply Qabs_Qle_condition in He1.
    apply Qabs_Qle_condition. split; lra.
Qed.

Lemma Qabs_mult_le (a b A B : Q) :
  (Qabs a <= A)%Q -> (Qabs b <= B)%Q -> (Qabs (a * b) <= A * B)%Q.
Proof.
  intros Ha Hb. rewrite Qabs_Qmult.
  pose proof (Qabs_nonneg a) as Ha0. pose proof (Qabs_nonneg b) as Hb0.
  apply Qle_trans with (A * Qabs b)%Q.
  - apply Qmult_le_compat_r; assumption.
  - rewrite !(Qmult_comm A). apply Qmult_le_compat_r; [exact Hb | lra].
Qed.

Lemma value_oriented (i : nat) (x : double) :
  (value (if (i =? 1)%nat then double_opp x else x)
   == inject_Z (orientation i) * value x)%Q.
Proof.
  destruct i as [|[|i]]; cbn [Nat.eqb orientation].
  - change (inject_Z 1) with 1%Q. ring.
  - rewrite value_opp. change (inject_Z (-1)) with (- (1))%Q. ring.
  - change (inject_Z 1) with 1%Q. ring.
Qed.

Lemma orientation_cases (i : nat) :
  (inject_Z (orientation i) == 1)%Q \/ (inject_Z (orientation i) == - (1))%Q.
Proof. destruct i as [|[|i]]; cbn [orientation]; [left|right|left]; reflexivity. Qed.

Lemma scaled_oriented (a : axes_t) (i : nat) :
  scaled a i
  = double_mul (sensitivity i)
      (if (i =? 1)%nat then double_opp (axis a i) else axis a i).
Proof. destruct i as [|[|i]]; reflexivity. Qed.

(** An accumulator whose residual is below one holds less than 128. *)
Lemma residual_bound (a : axes_t) (i : nat) :
  (Qabs (residual a i) < 1)%Q -> (Qabs (value (axis a i)) <= 128)%Q.
Proof.
  intros Hres. unfold residual in Hres.
  destruct (sensitivity_value i) as [[Hlo Hhi] _].
  change (2 ^ (-7))%Q with (1 # 128)%Q in Hlo.
  rewrite !Qabs_Qmult in Hres.
  assert (Ho : (Qabs (inject_Z (orientation i)) == 1)%Q).
  { destruct i as [|[|i]]; reflexivity. }
  rewrite Ho, Qmult_1_l in Hres.
  rewrite (Qabs_pos (value (sensitivity i))) in Hres by lra.
  pose proof (Qabs_nonneg (value (axis a i))) as Hv0.
  assert (Hmul : ((1 # 128) * Qabs (value (axis a i))
                  <= value (sensitivity i) * Qabs (value (axis a i)))%Q).
  { apply Qmult_le_compat_r; assumption. }
  lra.
Qed.

(** The scaled accumulated motion of a tick, against what the axis was
    fed and what it held, in output units. *)
Lemma tick_scaled (i : nat) (us : list update) (a : axes_t) :
  (i < 4)%nat -> short_tick us = true ->
  is_finite (axis a i) = true -> (Qabs (residual a i) < 1)%Q ->
  let acc := apply_updates us a in
  is_finite (scaled acc i) = true
  /\ (Qabs (value (scaled acc i)
            - (value (sensitivity i) * inject_Z (orientation i * raw_since i us)
               + residual a i))
      <= 25 # 8589934592)%Q.
Proof.
  intros Hi Hshort Hfa Hres acc. subst acc.
  unfold short_tick in Hshort. apply andb_prop in Hshort.
  destruct Hshort as [Hlen Hus]. apply Nat.leb_le in Hlen.
  destruct (sensitivity_value i) as [[Hlo Hhi] _].
  change (2 ^ (-7))%Q with (1 # 128)%Q in Hlo.
  destruct (sensitivity_normal i) as [m [e [HS [Hm [Hmlo Hmhi]]]]].
  pose proof binary64_tiny_small as [Ht0 Ht1].
  change (1 # 2 ^ 60)%Q with (1 # 1152921504606846976)%Q in Ht1.
  set (acc := apply_updates us a) in *.
  set (n := inject_Z (Z.of_nat (length us))).
  assert (Hn : (0 <= n <= 16)%Q).
  { unfold n. change 0%Q with (inject_Z 0). change 16%Q with (inject_Z 16).
    rewrite <- !Zle_Qle. lia. }
  destruct (apply_updates_error i us Hi Hus a 128 Hfa (residual_bound a i Hres))
    as [Hfacc [Hadd Hbacc]]; [fold n; lra|].
  fold acc in Hfacc, Hadd, Hbacc. fold n in Hadd, Hbacc.
  set (y := if (i =? 1)%nat then double_opp (axis acc i) else axis acc i).
  assert (Hfy : is_finite y = true).
  { unfold y. destruct (i =? 1)%nat; rewrite ?is_finite_opp; exact Hfacc. }
  assert (Hvy : (value y == inject_Z (orientation i) * value (axis acc i))%Q).
  { apply value_oriented. }
  assert (Hby : (Qabs (value y) <= 524432)%Q).
  { unfold y. destruct (i =? 1)%nat; rewrite ?abs_value_opp; lra. }
  assert (Hprod : (Qabs (value (sensitivity i) * value y) <= 262144)%Q).
  { apply Qle_trans with ((36 # 100) * 524432)%Q; [|vm_compute; discriminate].
    apply Qabs_mult_le; [|exact Hby].
    rewrite Qabs_pos by lra. exact Hhi. }
  assert (Hx : is_finite (scaled acc i) = true
               /\ (Qabs (value (scaled acc i) - value (sensitivity i) * value y)
                   <= 1 # 8589934592)%Q).
  { rewrite scaled_oriented. fold y. rewrite HS in *.
    destruct (double_mul_error false m e y ltac:(lia) Hfy) as [Hf Herr].
    - apply Qle_trans with 262144%Q; [exact Hprod|].
      change 262144%Q with (2 ^ 18)%Q. apply pow2_le. lia.
    - split; [exact Hf|]. unfold binary64_eps in Herr. lra. }
  destruct Hx as [Hfx Hmul].
  split; [exact Hfx|].
  assert (Hacc : (Qabs (value (sensitivity i)
                        * (value (axis acc i)
                           - (value (axis a i) + inject_Z (raw_since i us))))
                  <= (36 # 100) * (16 # 2147483648))%Q).
  { apply Qabs_mult_le; [rewrite Qabs_pos by lra; exact Hhi|].
    apply Qle_trans with (n * (1 # 2147483648))%Q; [exact Hadd | lra]. }
  unfold residual. rewrite inject_Z_mult.
  set (s := value (sensitivity i)) in *.
  set (x := value (scaled acc i)) in *.
  set (R := inject_Z (raw_since i us)) in *.
  set (v := value (axis a i)) in *.
  set (A := value (axis acc i)) in *.
  assert (Hbal : (x - (s * (inject_Z (orientation i) * R)
                       + inject_Z (orientation i) * (s * v))
                  == (x - s * value y)
                     + inject_Z (orientation i) * (s * (A - (v + R))))%Q).
  { rewrite Hvy. ring. }
  rewrite Hbal.
  apply Qabs_Qle_condition in Hmul. apply Qabs_Qle_condition in Hacc.
  apply Qabs_Qle_condition.
  destruct (orientation_cases i) as [Ho|Ho]; rewrite Ho; split; lra.
Qed.

(** What [get_axes] stores is, in output units, the fraction it kept,
    up to the rounding of the quotient. *)
Lemma kept_stored (a : axes_t) (i : nat) :
  (i < 4)%nat -> is_finite (scaled a i) = true ->
  (Qabs (residual (snd (get_axes a)) i - value (kept a i))
   <= 1 # 35184372088832)%Q.
Proof.
  intros Hi Hfx.
  destruct (sensitivity_value i) as [[Hlo Hhi] _].
  change (2 ^ (-7))%Q with (1 # 128)%Q in Hlo.
  destruct (sensitivity_normal i) as [m [e [HS [Hm [Hmlo Hmhi]]]]].
  pose proof binary64_tiny_small as [Ht0 Ht1].
  change (1 # 2 ^ 60)%Q with (1 # 1152921504606846976)%Q in Ht1.
  destruct (modf_finite (scaled a i) Hfx (scaled_valid a i))
    as [Hff _].
  pose proof (modf_fraction_small (scaled a i) Hfx (scaled_valid a i))
    as Hfrac.
  fold (kept a i) in Hff, Hfrac.
  assert (Hstored : (residual (snd (get_axes a)) i
                     == value (sensitivity i)
                        * value (double_div (kept a i) (sensitivity i)))%Q).
  { unfold residual. rewrite (get_axes_stored a i Hi).
    destruct i as [|[|i]]; cbn [Nat.eqb orientation].
    - change (inject_Z 1) with 1%Q. ring.
    - rewrite double_div_opp_l, value_opp.
      change (inject_Z (-1)) with (- (1))%Q. ring.
    - change (inject_Z 1) with 1%Q. ring. }
  rewrite Hstored. rewrite HS in *.
  destruct (double_div_error (kept a i) false m e Hff ltac:(lra))
    as [_ Herr].
  { apply Qle_trans with (2 ^ (-7))%Q; [apply pow2_le; lia|].
    rewrite <- abs_value_finite with (s := false).
    rewrite Qabs_pos by lra. change (2 ^ (-7))%Q with (1 # 128)%Q. exact Hlo. }
  set (s := value (S754_finite false m e)) in *.
  set (f := value (kept a i)) in *.
  set (r := value (double_div (kept a i) (S754_finite false m e))) in *.
  assert (Hq : (Qabs (f / s) <= 128)%Q).
  { unfold Qdiv. setoid_replace 128%Q with (1 * 128)%Q by ring.
    apply Qabs_mult_le; [lra|].
    rewrite Qabs_pos by (apply Qinv_le_0_compat; lra).
    apply Qle_shift_inv_r; lra. }
  assert (Herr' : (Qabs (r - f / s) <= 1 # 17592186044416)%Q).
  { unfold binary64_eps in Herr. lra. }
  setoid_replace (s * r - f)%Q with (s * (r - f / s))%Q by (field; lra).
  apply Qle_trans with ((36 # 100) * (1 # 17592186044416))%Q;
    [|vm_compute; discriminate].
  apply Qabs_mult_le; [|exact Herr'].
  rewrite Qabs_pos by lra. exact Hhi.
Qed.

(** The balance of a tick.  What an axis reports and what it keeps,
    against what it was fed and what it held, all in output units:
    they agree up to the roundings of the tick. *)
Lemma tick_balance (i : nat) (us : list update) (a : axes_t) :
  (i < 4)%nat -> short_tick us = true ->
  is_finite (axis a i) = true -> (Qabs (residual a i) < 1)%Q ->
  fits_int16 (trunc (scaled (apply_updates us a) i)) = true ->
  let t := tick us a in
  (Qabs (inject_Z (nth i (fst (fst t)) 0%Z) + residual (snd t) i
         - (value (sensitivity i) * inject_Z (orientation i * raw_since i us)
            + residual a i))
   <= rounding_allowance)%Q.
Proof.
  intros Hi Hshort Hfa Hres Hfits t. subst t. unfold tick.
  destruct (tick_scaled i us a Hi Hshort Hfa Hres) as [Hfx Hx].
  set (acc := apply_updates us a) in *.
  pose proof (kept_stored acc i Hi Hfx) as Hk.
  destruct (modf_finite (scaled acc i) Hfx (scaled_valid acc i))
    as [_ [_ [Hsplit _]]].
  fold (kept acc i) in Hsplit.
  rewrite (get_axes_report_in_range acc i Hi Hfx Hfits).
  set (target := (value (sensitivity i)
                  * inject_Z (orientation i * raw_since i us)
                  + residual a i)%Q) in *.
  assert (Hbal : (inject_Z (trunc (scaled acc i))
                  + residual (snd (get_axes acc)) i - target
                  == (value (scaled acc i) - target)
                     + (residual (snd (get_axes acc)) i - value (kept acc i)))%Q).
  { rewrite Hsplit. ring. }
  rewrite Hbal.
  apply Qabs_Qle_condition in Hx. apply Qabs_Qle_condition in Hk.
  apply Qabs_Qle_condition. unfold rounding_allowance. split; lra.
Qed.

(** ** The balance of an axis over a run *)








(** ** The reports of a run against the motion it was fed *)







(** ** What a call of [get_axes] reports and keeps *)




(** C6, as amended.  On an axis whose scaled accumulated motion is
    finite with an integral part in the range of [int16_t], the reported
    delta is that integral part, the scaled motion rounded toward
    zero. *)
Theorem C6_report_is_integral_part_in_range (a : axes_t) (i : nat) :
  (i < 4)%nat ->
  is_finite (scaled a i) = true -> fits_int16 (trunc (scaled a i)) = true ->
  nth i (fst (fst (get_axes a))) 0 = Qtrunc (value (scaled a i))
  /\ INT16_MIN <= nth i (fst (fst (get_axes a))) 0 <= INT16_MAX.
Proof.
  intros Hi Hfin Hfits.
  rewrite (get_axes_report_in_range a i Hi Hfin Hfits).
  split; [reflexivity|].
  unfold fits_int16 in Hfits. apply andb_prop in Hfits.
  destruct Hfits as [Hlo Hhi].
  apply Z.leb_le in Hlo. apply Z.leb_le in Hhi. split; assumption.
Qed.

Lemma C6_report_is_integral_part_in_range_witness :
  let a := apply_updates [(0, -1000, false); (30000, 0, true)] axes_init in
  (nth 1 (fst (fst (get_axes a))) 0 = Qtrunc (value (scaled a 1))
   /\ INT16_MIN <= nth 1 (fst (fst (get_axes a))) 0 <= INT16_MAX)
  /\ (nth 2 (fst (fst (get_axes a))) 0 = Qtrunc (value (scaled a 2))
      /\ INT16_MIN <= nth 2 (fst (fst (get_axes a))) 0 <= INT16_MAX).
Proof.
  intros a. split.
  - apply (C6_report_is_integral_part_in_range a 1); [lia | reflexivity | reflexivity].
  - apply (C6_report_is_integral_part_in_range a 2); [lia | reflexivity | reflexivity].
Defined.

(** C6 as the specification states it fails: eight wheel updates of
    25000 scale to 70000, above the range of [int16_t], and the report
    is not the upper bound 32767. *)
Lemma C6_counterexample :
  let a := apply_updates (repeat (25000, 0, true) 8) axes_init in
  is_finite (scaled a 2) = true
  /\ trunc (scaled a 2) = 70000
  /\ INT16_MAX < trunc (scaled a 2)
  /\ nth 2 (fst (fst (get_axes a))) 0 <> INT16_MAX.
Proof.
  vm_compute. repeat split; try reflexivity; intros Heq; discriminate Heq.
Qed.

(** C9.  One turn of the main loop adds the deltas of its motion burst
    to one pair of accumulators and leaves the other pair as it was: the
    wheel pair when the scroll pin reads low, the pointer pair when it
    reads high. *)
Theorem C9_deltas_routed_by_scroll_flag
  (D : Type) (dev : SpiDevice D) (pind : Z) (a : axes_t) (b : bus D) :
  let delta_x := snd (fst (fst (motion_burst b))) in
  let delta_y := snd (fst (motion_burst b)) in
  let a' := fst (main_loop pind a b) in
  (scroll_mode pind = true /\
   a' = update_axes delta_x delta_y true a /\
   ax0 a' = ax0 a /\ ax1 a' = ax1 a /\
   ax2 a' = double_add (ax2 a) (double_of_int delta_x) /\
   ax3 a' = double_add (ax3 a) (double_of_int delta_y))
  \/
  (scroll_mode pind = false /\
   a' = update_axes delta_x delta_y false a /\
   ax0 a' = double_add (ax0 a) (double_of_int delta_x) /\
   ax1 a' = double_add (ax1 a) (double_of_int delta_y) /\
   ax2 a' = ax2 a /\ ax3 a' = ax3 a).
Proof.
  intros delta_x delta_y a'. subst delta_x delta_y a'.
  unfold main_loop, bind, ret.
  destruct (motion_burst b) as [[[valid dx] dy] b']. cbn [fst snd].
  destruct (scroll_mode pind); [left | right]; repeat split.
Qed.

(** C10.  After a call of [get_axes] on accumulators that the firmware
    can hold, each accumulator is a finite [double] whose product by
    the sensitivity is smaller than one in absolute value, both as a
    product of numbers and as the [double] that the next call computes;
    a second call that follows at once reports zero on the four axes
    and returns false. *)
Theorem C10_residuals_below_one (a : axes_t) :
  reachable a ->
  let a' := snd (get_axes a) in
  (forall i, (i < 4)%nat ->
     is_finite (axis a' i) = true
     /\ (Qabs (value (sensitivity i) * value (axis a' i)) < 1)%Q
     /\ is_finite (scaled a' i) = true
     /\ (Qabs (value (scaled a' i)) < 1)%Q)
  /\ fst (get_axes a') = ([0; 0; 0; 0], false).
Proof.
  intros Hr a'.
  assert (Hsmall : forall i, (i < 4)%nat ->
            is_finite (axis a' i) = true
            /\ (Qabs (value (sensitivity i) * value (axis a' i)) < 1)%Q
            /\ is_finite (scaled a' i) = true
            /\ (Qabs (value (scaled a' i)) < 1)%Q).
  { intros i Hi. destruct (reachable_doubles a Hr i Hi) as [Hv Hn].
    apply get_axes_settles; assumption. }
  split; [exact Hsmall|].
  assert (Hzero : forall i, (i < 4)%nat ->
            cast_int16 (snd (modf (scaled a' i))) = 0).
  { intros i Hi. destruct (Hsmall i Hi) as [_ [_ [Hfin Hlt]]].
    assert (Htr : trunc (scaled a' i) = 0) by (apply Qtrunc_small; exact Hlt).
    rewrite <- (get_axes_report a' i Hi).
    rewrite (get_axes_report_in_range a' i Hi Hfin); rewrite Htr; reflexivity. }
  rewrite get_axes_eq. cbn [fst].
  rewrite (Hzero 0%nat), (Hzero 1%nat), (Hzero 2%nat), (Hzero 3%nat) by lia.
  reflexivity.
Qed.

Lemma C10_residuals_below_one_witness :
  let a := apply_updates [(96, -59, false); (180, 183, true)] axes_init in
  let a' := snd (get_axes a) in
  (forall i, (i < 4)%nat ->
     is_finite (axis a' i) = true
     /\ (Qabs (value (sensitivity i) * value (axis a' i)) < 1)%Q
     /\ is_finite (scaled a' i) = true
     /\ (Qabs (value (scaled a' i)) < 1)%Q)
  /\ fst (get_axes a') = ([0; 0; 0; 0], false).
Proof.
  intros a.
  apply (C10_residuals_below_one a).
  unfold a. cbn [apply_updates fold_left].
  apply reachable_update; [reflexivity | reflexivity |].
  apply reachable_update; [reflexivity | reflexivity |].
  apply reachable_init.
Defined.
(** ** The debouncer *)

Section Debouncer.

(** The debounce interval, [DEBOUNCE_INTERVAL] in [config.h]. *)
Variable T : Z.

Lemma run_debounce_cons (b : Z) (bs : list Z) (s : debounce_t) :
  run_debounce T (b :: bs) s
  = ((fst (fst (debounce T b false s)), snd (fst (debounce T b false s)))
       :: fst (run_debounce T bs (snd (debounce T b false s))),
     snd (run_debounce T bs (snd (debounce T b false s)))).
Proof.
  cbn [run_debounce]. destruct (debounce T b false s) as [[m c] s'].
  cbn [fst snd]. destruct (run_debounce T bs s') as [out s'']. reflexivity.
Qed.

Lemma run_debounce_app (bs cs : list Z) (s : debounce_t) :
  run_debounce T (bs ++ cs) s
  = (fst (run_debounce T bs s)
       ++ fst (run_debounce T cs (snd (run_debounce T bs s))),
     snd (run_debounce T cs (snd (run_debounce T bs s)))).
Proof.
  revert s. induction bs as [|b bs IH]; intros s.
  - cbn [app run_debounce fst snd].
    destruct (run_debounce T cs s). reflexivity.
  - rewrite <- app_comm_cons, !run_debounce_cons, IH. reflexivity.
Qed.

(** *** The cases of a poll *)

Lemma debounce_idle_same (a cand : Z) (q : bool) :
  debounce T a q (mk_debounce a cand 0) = (a, q, mk_debounce a cand 0).
Proof. unfold debounce. cbn. rewrite Z.eqb_refl. reflexivity. Qed.

Lemma debounce_idle_start (a b cand : Z) (q : bool) :
  b <> a ->
  debounce T b q (mk_debounce a cand 0) = (a, q, mk_debounce a b 1).
Proof.
  intros Hba. unfold debounce. cbn.
  destruct (Z.eqb_spec b a) as [Heq|_]; [contradiction|]. reflexivity.
Qed.

Lemma run_idle_same (a cand : Z) (k : nat) :
  run_debounce T (repeat a k) (mk_debounce a cand 0)
  = (repeat (a, false) k, mk_debounce a cand 0).
Proof.
  induction k as [|k IH].
  - reflexivity.
  - cbn [repeat]. rewrite run_debounce_cons, debounce_idle_same.
    cbn [fst snd]. rewrite IH. reflexivity.
Qed.

(** *** A candidate that is held *)

Section CounterFits.

(** The interval is at least one poll and the counter can exceed it. *)
Hypothesis T_range : 1 <= T <= 254.

Lemma debounce_count_up (a b c : Z) (q : bool) :
  1 <= c -> c < T ->
  debounce T b q (mk_debounce a b c) = (a, q, mk_debounce a b (c + 1)).
Proof.
  intros Hc HcT. unfold debounce. cbn.
  destruct (Z.eqb_spec c 0) as [Heq|_]; [lia|].
  rewrite Z.eqb_refl, to_uint8_small by lia.
  destruct (Z.gtb_spec (c + 1) T) as [Hgt|_]; [lia|]. reflexivity.
Qed.

Lemma debounce_accept (a b : Z) (q : bool) :
  debounce T b q (mk_debounce a b T) = (b, true, mk_debounce b b 0).
Proof.
  unfold debounce. cbn.
  destruct (Z.eqb_spec T 0) as [Heq|_]; [lia|].
  rewrite Z.eqb_refl, to_uint8_small by lia.
  destruct (Z.gtb_spec (T + 1) T) as [_|Hle]; [reflexivity|lia].
Qed.

(** A candidate [b] seen [T - j] times is accepted on the poll after
    [j] further samples of [b]. *)
Lemma run_debouncing (a b : Z) (j : nat) :
  1 <= T - Z.of_nat j ->
  forall m : nat,
    fst (run_debounce T (repeat b m) (mk_debounce a b (T - Z.of_nat j)))
    = repeat (a, false) (Nat.min m j)
      ++ (if (j <? m)%nat
          then (b, true) :: repeat (b, false) (m - j - 1)
          else []).
Proof.
  induction j as [|j IH]; intros Hj m.
  - rewrite Z.sub_0_r.
    destruct m as [|m]; [reflexivity|].
    cbn [repeat]. rewrite run_debounce_cons, debounce_accept.
    cbn [fst snd]. rewrite run_idle_same. cbn [fst].
    rewrite Nat.min_0_r. cbn [repeat app Nat.ltb Nat.leb].
    replace (S m - 0 - 1)%nat with m by lia. reflexivity.
  - destruct m as [|m]; [reflexivity|].
    cbn [repeat]. rewrite run_debounce_cons, debounce_count_up by lia.
    cbn [fst snd].
    replace (T - Z.of_nat (S j) + 1) with (T - Z.of_nat j) by lia.
    rewrite IH by lia.
    replace (Nat.min (S m) (S j)) with (S (Nat.min m j)) by lia.
    cbn [repeat app].
    replace (S m - S j - 1)%nat with (m - j - 1)%nat by lia.
    change (S j <? S m)%nat with (j <? m)%nat. reflexivity.
Qed.

(** C2, as amended.  For a debounce interval [T] from 1 to 254, when
    the mask has read the accepted value and then flips once and holds,
    the mask in the reports changes exactly once: on the poll that
    completes [T] + 1 samples of the new value, which is also the only
    poll that the debouncer marks as changed, and on no earlier poll. *)
Theorem C2_single_flip_accepted_after_interval (a b cand : Z) (k n : nat) :
  b <> a ->
  fst (run_debounce T (repeat a k ++ repeat b n) (mk_debounce a cand 0))
  = single_change a b k n (Z.to_nat T).
Proof.
  intros Hba. unfold single_change.
  rewrite run_debounce_app, run_idle_same. cbn [fst snd].
  rewrite repeat_app, <- app_assoc. f_equal.
  destruct n as [|n].
  - reflexivity.
  - cbn [repeat]. rewrite run_debounce_cons, debounce_idle_start by exact Hba.
    cbn [fst snd].
    replace 1 with (T - Z.of_nat (Z.to_nat T - 1)) at 1 by lia.
    rewrite run_debouncing by lia.
    replace (Nat.min (S n) (Z.to_nat T))
      with (S (Nat.min n (Z.to_nat T - 1))) by lia.
    cbn [repeat app]. f_equal. f_equal.
    destruct (Nat.ltb_spec (Z.to_nat T - 1) n) as [Hlt|Hge];
      destruct (Nat.ltb_spec (Z.to_nat T) (S n)) as [Hlt'|Hge']; try lia.
    + replace (n - (Z.to_nat T - 1) - 1)%nat
        with (S n - Z.to_nat T - 1)%nat by lia.
      reflexivity.
    + reflexivity.
Qed.

End CounterFits.

(** *** A candidate that is interrupted *)

Section Restart.

Hypothesis T_positive : 1 <= T.

Lemma debounce_restart (a b cand c : Z) (q : bool) :
  c <> 0 -> b <> cand ->
  debounce T b q (mk_debounce a cand c) = (a, q, mk_debounce a cand 1).
Proof.
  intros Hc Hb. unfold debounce. cbn.
  destruct (Z.eqb_spec c 0) as [Heq|_]; [contradiction|].
  destruct (Z.eqb_spec b cand) as [Heq|_]; [contradiction|].
  destruct (Z.gtb_spec 1 T) as [Hgt|_]; [lia|]. reflexivity.
Qed.

(** A sample that differs from the candidate sets the counter to 1 and
    keeps the candidate. *)
Lemma restart_keeps_candidate (b : Z) (q : bool) (s : debounce_t) :
  debounce_count s <> 0 -> b <> new_buttons s ->
  new_buttons (snd (debounce T b q s)) = new_buttons s
  /\ debounce_count (snd (debounce T b q s)) = 1
  /\ old_buttons (snd (debounce T b q s)) = old_buttons s.
Proof.
  intros Hc Hb. destruct s as [a cand c]. cbn in Hc, Hb.
  rewrite debounce_restart by assumption. cbn. repeat split.
Qed.

(** While the candidate is not sampled again, nothing is accepted. *)
Lemma run_without_candidate (b : Z) (n : nat) (s : debounce_t) :
  debounce_count s <> 0 -> b <> new_buttons s ->
  fst (run_debounce T (repeat b n) s) = repeat (old_buttons s, false) n.
Proof.
  revert s.
  induction n as [|n IH]; intros [a cand c] Hc Hb; cbn in Hc, Hb.
  - reflexivity.
  - cbn [repeat]. rewrite run_debounce_cons, debounce_restart by assumption.
    cbn [fst snd old_buttons]. f_equal.
    apply (IH (mk_debounce a cand 1)); cbn; [discriminate | exact Hb].
Qed.

End Restart.

(** *** A mask that oscillates *)

Section Oscillation.

Hypothesis T_two : 2 <= T.

Lemma oscillating_step (u v : Z) (s : debounce_t) :
  u <> v -> oscillating_state u s ->
  fst (debounce T u false s) = (old_buttons s, false)
  /\ old_buttons (snd (debounce T u false s)) = old_buttons s
  /\ oscillating_state v (snd (debounce T u false s)).
Proof.
  intros Huv Hs. destruct s as [a cand c]. unfold oscillating_state in *.
  cbn [debounce_count new_buttons old_buttons] in *.
  unfold debounce. cbn [debounce_count new_buttons old_buttons].
  destruct Hs as [Hc|[Hc|[Hc Hcand]]]; subst c; cbn [Z.eqb].
  - destruct (Z.eqb_spec u a) as [Heq|Hne]; cbn [negb fst snd];
      cbn [debounce_count new_buttons old_buttons]; auto.
  - destruct (Z.eqb_spec u cand) as [Heq|Hne].
    + change (to_uint8 (1 + 1)) with 2.
      destruct (Z.gtb_spec 2 T) as [Hgt|_]; [lia|].
      cbn [fst snd debounce_count new_buttons old_buttons].
      repeat split. right. right. split; [reflexivity | congruence].
    + destruct (Z.gtb_spec 1 T) as [Hgt|_]; [lia|].
      cbn [fst snd debounce_count new_buttons old_buttons]. auto.
  - destruct (Z.eqb_spec u cand) as [Heq|Hne]; [congruence|].
    destruct (Z.gtb_spec 1 T) as [Hgt|_]; [lia|].
    cbn [fst snd debounce_count new_buttons old_buttons]. auto.
Qed.

Lemma oscillating_run (u v : Z) (n : nat) (s : debounce_t) :
  u <> v -> oscillating_state u s ->
  fst (run_debounce T (oscillation u v n) s) = repeat (old_buttons s, false) n
  /\ old_buttons (snd (run_debounce T (oscillation u v n) s)) = old_buttons s.
Proof.
  revert u v s.
  induction n as [|n IH]; intros u v s Huv Hs.
  - split; reflexivity.
  - cbn [oscillation repeat]. rewrite run_debounce_cons. cbn [fst snd].
    destruct (oscillating_step u v s Huv Hs) as [Hout [Hold Hnext]].
    destruct (IH v u (snd (debounce T u false s))) as [Hrun Hfinal];
      [congruence | exact Hnext |].
    rewrite Hrun, Hfinal, Hold. rewrite Hout. cbn [fst snd].
    split; reflexivity.
Qed.

End Oscillation.

Lemma longest_hold_from_ge (x : Z) (k : nat) (bs : list Z) :
  (k <= longest_hold_from x k bs)%nat.
Proof.
  revert x k. induction bs as [|b bs IH]; intros x k; cbn [longest_hold_from].
  - lia.
  - destruct (b =? x).
    + pose proof (IH x (S k)). lia.
    + lia.
Qed.

(** C5.  When the mask alternates between two distinct values on every
    poll, so that no value is held for [T] polls in a row, the mask in
    the reports stays at the value accepted at the start, no poll is
    marked as changed, and the accepted value is the same at the end. *)
Theorem C5_oscillation_never_accepted (u v : Z) (n : nat) (s : debounce_t) :
  u <> v ->
  debounce_count s = 0 ->
  Z.of_nat (longest_hold (oscillation u v n)) < T ->
  fst (run_debounce T (oscillation u v n) s) = repeat (old_buttons s, false) n
  /\ old_buttons (snd (run_debounce T (oscillation u v n) s)) = old_buttons s.
Proof.
  intros Huv Hidle Hhold.
  destruct n as [|n]; [split; reflexivity|].
  apply oscillating_run.
  - cbn [oscillation longest_hold] in Hhold.
    pose proof (longest_hold_from_ge u 1 (oscillation v u n)). lia.
  - exact Huv.
  - left. exact Hidle.
Qed.

End Debouncer.

Lemma C2_single_flip_accepted_after_interval_witness :
  fst (run_debounce DEBOUNCE_INTERVAL (repeat 0 3 ++ repeat 4 9) debounce_init)
  = single_change 0 4 3 9 (Z.to_nat DEBOUNCE_INTERVAL).
Proof.
  apply (C2_single_flip_accepted_after_interval DEBOUNCE_INTERVAL).
  - unfold DEBOUNCE_INTERVAL. lia.
  - discriminate.
Defined.

(** C2 as stated fails at both ends of the range of the interval: with
    [T] = 0 the change comes on the second sample, not the first, and
    with [T] = 255 the 8-bit counter wraps and no change ever comes. *)
Lemma C2_counterexample :
  fst (run_debounce 0 (repeat 1 3) debounce_init)
    = [(0, false); (1, true); (1, false)]
  /\ fst (run_debounce 0 (repeat 1 3) debounce_init)
     <> single_change 0 1 0 3 (Z.to_nat 0)
  /\ fst (run_debounce 255 (repeat 1 600) debounce_init)
     = repeat (0, false) 600
  /\ fst (run_debounce 255 (repeat 1 600) debounce_init)
     <> single_change 0 1 0 600 (Z.to_nat 255).
Proof.
  split; [reflexivity|].
  split; [vm_compute; intros Heq; discriminate Heq|].
  split; [vm_compute; reflexivity|].
  intros Heq.
  apply (f_equal (fun l => nth 255 l (0, false))) in Heq.
  vm_compute in Heq. discriminate Heq.
Qed.

(** C3 (the code departs from the claim).  From power-up, with the
    configured interval, the masks 1, 1 leave the debouncer debouncing
    the candidate 1 with the counter at 2; a sample 2 then sets the
    counter to 1 but leaves the candidate at 1, not at 2; and the mask 2,
    held for a thousand more polls, is never accepted. *)
Theorem C3_restart_keeps_stale_candidate :
  let s := snd (run_debounce DEBOUNCE_INTERVAL [1; 1] debounce_init) in
  let s' := snd (debounce DEBOUNCE_INTERVAL 2 false s) in
  s = mk_debounce 0 1 2
  /\ s' = mk_debounce 0 1 1
  /\ new_buttons s' <> 2
  /\ fst (run_debounce DEBOUNCE_INTERVAL (repeat 2 1000) s')
     = repeat (0, false) 1000.
Proof.
  cbv zeta.
  assert (Hs : snd (run_debounce DEBOUNCE_INTERVAL [1; 1] debounce_init)
               = mk_debounce 0 1 2) by reflexivity.
  rewrite Hs.
  assert (Hs' : snd (debounce DEBOUNCE_INTERVAL 2 false (mk_debounce 0 1 2))
                = mk_debounce 0 1 1) by reflexivity.
  rewrite Hs'.
  split; [reflexivity|]. split; [reflexivity|].
  split; [cbn; discriminate|].
  apply (run_without_candidate DEBOUNCE_INTERVAL); cbn;
    unfold DEBOUNCE_INTERVAL; try discriminate; lia.
Qed.

Lemma C5_oscillation_never_accepted_witness :
  fst (run_debounce DEBOUNCE_INTERVAL (oscillation 1 0 40) debounce_init)
  = repeat (0, false) 40
  /\ old_buttons
       (snd (run_debounce DEBOUNCE_INTERVAL (oscillation 1 0 40) debounce_init))
     = 0.
Proof.
  apply (C5_oscillation_never_accepted DEBOUNCE_INTERVAL 1 0 40 debounce_init).
  - discriminate.
  - reflexivity.
  - vm_compute. reflexivity.
Defined.

(** A mouse report polls the debouncer with the mask read from the pins
    and with the flag of [get_axes]. *)
Lemma CreateHIDReport_debounces (T ReportType pind : Z) (u : usb_statics)
  (a : axes_t) :
  ReportType <> HID_REPORT_ITEM_Feature ->
  let b := read_buttons pind BUTTONS 0 0 in
  let q := snd (fst (get_axes a)) in
  let d := debounce T b q (buttons_state u) in
  CALLBACK_HID_Device_CreateHIDReport T ReportType pind (u, a)
  = (Some (MouseReport_Data (fst (fst d)) (fst (fst (get_axes a)))),
     snd (fst d),
     (mk_usb_statics (feature_set u) (snd d), snd (get_axes a))).
Proof.
  intros Htype b q d. subst b q d. unfold CALLBACK_HID_Device_CreateHIDReport.
  destruct (Z.eqb_spec ReportType HID_REPORT_ITEM_Feature) as [Heq|_];
    [contradiction|].
  destruct (get_axes a) as [[p q] a']. cbn [fst snd].
  destruct (debounce T (read_buttons pind BUTTONS 0 0) q (buttons_state u))
    as [[m r] s'].
  reflexivity.
Qed.

(** The pins of the four buttons: a pin that reads low sets its bit. *)
Lemma read_buttons_extremes :
  read_buttons 0xff BUTTONS 0 0 = 0 /\ read_buttons 0 BUTTONS 0 0 = 15.
Proof. split; reflexivity. Qed.

(** ** The bus *)

Section BusFacts.
Context {D : Type} `{SpiDevice D}.

Lemma bind_eq {A B : Type} (m : io D A) (k : A -> io D B) (b : bus D) :
  bind m k b = k (fst (m b)) (snd (m b)).
Proof. unfold bind. destruct (m b). reflexivity. Qed.

Lemma emits_ret {A : Type} (x : A) : emits (ret x : io D A) [].
Proof. intros b. cbn. rewrite app_nil_r. reflexivity. Qed.

Lemma emits_bind {A B : Type} (m : io D A) (k : A -> io D B)
  (es1 es2 : list bus_event) :
  emits m es1 -> (forall x, emits (k x) es2) -> emits (bind m k) (es1 ++ es2).
Proof.
  intros Hm Hk b. rewrite bind_eq, Hk, Hm, app_assoc. reflexivity.
Qed.

Lemma emits_delay_us (t : Q) : emits (_delay_us t) [DelayUs t].
Proof. intros b. reflexivity. Qed.

Lemma emits_delay_ms (t : Q) : emits (_delay_ms t) [DelayUs (t * 1000)].
Proof. intros b. reflexivity. Qed.

Lemma emits_assert_ncs : emits assert_ncs [NcsLow].
Proof. intros b. reflexivity. Qed.

Lemma emits_deassert_ncs : emits deassert_ncs [NcsHigh].
Proof. intros b. reflexivity. Qed.

Lemma emits_transceive (c : Z) : emits (transceive c) [Send (to_uint8 c)].
Proof.
  intros b. unfold transceive.
  destruct (spi_exchange (to_uint8 c) (device b)). reflexivity.
Qed.

Ltac emits_step :=
  first
    [ apply emits_ret
    | apply emits_delay_us
    | apply emits_delay_ms
    | apply emits_assert_ncs
    | apply emits_deassert_ncs
    | apply emits_transceive ].

Lemma emits_write (addr data : Z) : emits (write addr data) (write_frame addr data).
Proof.
  unfold write, write_frame.
  repeat (eapply (emits_bind _ _ [_]); [emits_step | intros ?]).
  emits_step.
Qed.

Lemma emits_read (addr : Z) : emits (read addr) (read_frame addr).
Proof.
  unfold read, read_frame.
  change (Send 0) with (Send (to_uint8 0)).
  repeat (eapply (emits_bind _ _ [_]); [emits_step | intros ?]).
  emits_step.
Qed.

(** A loop whose body emits [f i] on turn [i] emits them in the order
    of the turns. *)
Lemma emits_for {A : Type} (f : nat -> list bus_event)
  (body : nat -> A -> io D A) :
  (forall i acc, emits (body i acc) (f i)) ->
  forall n i acc, emits (for_ n i body acc) (flat_map f (seq i n)).
Proof.
  intros Hbody. induction n as [|n IH]; intros i acc.
  - apply emits_ret.
  - cbn [for_ seq flat_map]. apply emits_bind.
    + apply Hbody.
    + intros acc'. apply IH.
Qed.

Lemma emits_eq {A : Type} (m : io D A) (es es' : list bus_event) :
  emits m es -> es = es' -> emits m es'.
Proof. intros Hm Heq. subst es'. exact Hm. Qed.

Lemma byte_is_uint8 (c : Byte.byte) :
  to_uint8 (Z.of_N (Byte.to_N c)) = Z.of_N (Byte.to_N c).
Proof.
  apply to_uint8_small. pose proof (Byte.to_N_bounded c). lia.
Qed.

Lemma flat_map_indices {A B : Type} (d : A) (g : A -> list B) (l : list A) :
  flat_map (fun i => g (nth i l d)) (seq 0 (length l)) = flat_map g l.
Proof.
  induction l as [|x l IH].
  - reflexivity.
  - cbn [length seq flat_map nth]. f_equal.
    rewrite <- seq_shift, flat_map_concat_map, map_map, <- flat_map_concat_map.
    exact IH.
Qed.

Lemma emits_reset (srom_data : list Byte.byte) :
  emits (reset srom_data)
    (before_upload ++ upload_frame srom_data ++ after_upload).
Proof.
  eapply emits_eq.
  - unfold reset.
    repeat (lazymatch goal with |- emits (bind _ _) _ => idtac end;
            eapply emits_bind;
            [ first
                [ emits_step
                | apply emits_write
                | apply emits_read
                | apply (emits_for (fun i => read_frame (Z.of_nat i) ++ []));
                  intros i acc; eapply emits_bind;
                  [apply emits_read | intros ?; apply emits_ret]
                | apply (emits_for
                           (fun i => [DelayUs 15]
                                     ++ [Send (to_uint8 (pgm_read_byte srom_data i))]
                                     ++ []));
                  intros i acc;
                  repeat (lazymatch goal with |- emits (bind _ _) _ => idtac end;
                          eapply emits_bind; [emits_step | intros ?]);
                  emits_step ]
            | intros ? ]).
    apply emits_write.
  - unfold before_upload, upload_frame, after_upload.
    rewrite Nat.sub_0_r.
    change (7 - 2)%nat with 5%nat.
    unfold pgm_read_byte.
    rewrite (flat_map_indices Byte.x00
               (fun c => [DelayUs 15] ++ [Send (to_uint8 (Z.of_N (Byte.to_N c)))] ++ [])).
    rewrite (flat_map_ext
               (fun c => [DelayUs 15] ++ [Send (to_uint8 (Z.of_N (Byte.to_N c)))] ++ [])
               (fun c => [DelayUs 15; Send (Z.of_N (Byte.to_N c))]))
      by (intros c; rewrite byte_is_uint8; reflexivity).
    rewrite <- !app_assoc. reflexivity.
Qed.

(** C8.  For every firmware image, the bring-up sequence puts on the
    bus, between what precedes and what follows the upload, one frame
    that opens with the firmware-load-burst command carrying the write
    bit and then holds one exchange per byte of the image, in the order
    of the image, each after the 15 microsecond pacing delay; the bytes
    sent after the command within that frame are exactly the image, and
    the command byte is sent nowhere else. *)
Theorem C8_firmware_streamed_byte_by_byte
  (srom_data : list Byte.byte) (b : bus D) :
  trace (snd (reset srom_data b))
  = trace b ++ before_upload ++ upload_frame srom_data ++ after_upload
  /\ upload_frame srom_data
     = [NcsLow; DelayUs T_NCS_SCLK; Send (Z.lor SROM_LOAD_BURST 0x80)]
       ++ flat_map (fun c => [DelayUs 15; Send (Z.of_N (Byte.to_N c))]) srom_data
       ++ [DelayUs 15; NcsHigh]
  /\ sent (upload_frame srom_data)
     = Z.lor SROM_LOAD_BURST 0x80 :: map (fun c => Z.of_N (Byte.to_N c)) srom_data
  /\ length (sent (upload_frame srom_data)) = S (length srom_data)
  /\ ~ In (Z.lor SROM_LOAD_BURST 0x80) (sent before_upload)
  /\ ~ In (Z.lor SROM_LOAD_BURST 0x80) (sent after_upload).
Proof.
  assert (Hsent : sent (upload_frame srom_data)
                  = Z.lor SROM_LOAD_BURST 0x80
                      :: map (fun c => Z.of_N (Byte.to_N c)) srom_data).
  { unfold upload_frame. cbn [app sent]. f_equal.
    induction srom_data as [|c l IH]; [reflexivity|].
    cbn [flat_map app sent map]. f_equal. exact IH. }
  split; [apply emits_reset|].
  split; [reflexivity|].
  split; [exact Hsent|].
  split; [rewrite Hsent; cbn [length]; rewrite length_map; reflexivity|].
  split; vm_compute; intuition discriminate.
Qed.

End BusFacts.

(** ** Bytes and bits *)

Lemma to_uint8_range (x : Z) : 0 <= to_uint8 x < 256.
Proof. unfold to_uint8. apply Z.mod_pos_bound. lia. Qed.

Lemma lor_shiftl_disjoint (lo hi n : Z) :
  0 <= n -> 0 <= lo < 2 ^ n -> Z.lor lo (Z.shiftl hi n) = lo + hi * 2 ^ n.
Proof.
  intros Hn Hlo.
  assert (Hdisjoint : Z.land lo (Z.shiftl hi n) = 0).
  { apply Z.bits_inj'. intros m Hm.
    rewrite Z.land_spec, Z.bits_0.
    destruct (Z.lt_ge_cases m n) as [Hlt|Hge].
    - rewrite (Z.shiftl_spec_low hi n m Hlt). apply andb_false_r.
    - rewrite <- (Z.mod_small lo (2 ^ n)) by exact Hlo.
      rewrite Z.mod_pow2_bits_high by lia. reflexivity. }
  rewrite <- (Z.lxor_lor _ _ Hdisjoint), <- (Z.add_nocarry_lxor _ _ Hdisjoint).
  rewrite Z.shiftl_mul_pow2 by exact Hn. reflexivity.
Qed.

Lemma top_bit (x : Z) : (Z.land (to_uint8 x) 0x80 >? 0) = Z.testbit x 7.
Proof.
  assert (Hland : Z.land (to_uint8 x) 0x80 = if Z.testbit x 7 then 0x80 else 0).
  { apply Z.bits_inj'. intros m Hm.
    rewrite Z.land_spec. change 0x80 with (2 ^ 7).
    rewrite Z.pow2_bits_eqb by lia.
    destruct (Z.eqb_spec 7 m) as [Heq|Hne].
    - subst m. unfold to_uint8. change 256 with (2 ^ 8).
      rewrite Z.mod_pow2_bits_low by lia. rewrite andb_true_r.
      destruct (Z.testbit x 7); [reflexivity|]. rewrite Z.bits_0. reflexivity.
    - rewrite andb_false_r.
      destruct (Z.testbit x 7).
      + rewrite Z.pow2_bits_eqb by lia.
        destruct (Z.eqb_spec 7 m); [contradiction | reflexivity].
      + rewrite Z.bits_0. reflexivity. }
  rewrite Hland. destruct (Z.testbit x 7); reflexivity.
Qed.

Lemma load_int16_bytes (lo hi : Z) :
  to_int16 (Z.lor (to_uint8 lo) (Z.shiftl (to_uint8 hi) 8))
  = sint16_le (to_uint8 lo) (to_uint8 hi).
Proof.
  pose proof (to_uint8_range lo) as Hlo.
  pose proof (to_uint8_range hi) as Hhi.
  rewrite lor_shiftl_disjoint by (change (2 ^ 8) with 256; lia).
  change (2 ^ 8) with 256. unfold sint16_le, to_int16.
  destruct (Z.ltb_spec (to_uint8 lo + 256 * to_uint8 hi) 32768) as [Hlt|Hge].
  - rewrite Z.mod_small; lia.
  - replace (to_uint8 lo + to_uint8 hi * 256 + 32768)
      with (to_uint8 lo + to_uint8 hi * 256 - 32768 + 1 * 65536) by ring.
    rewrite Z.mod_add by lia. rewrite Z.mod_small; lia.
Qed.

(** ** The motion burst *)

(** C4.  In a motion burst whose first status byte has its top bit
    clear, the poll reports no motion and zero deltas whatever the bytes
    the sensor holds ready after it, and leaves those bytes unread; when
    the top bit is set, the deltas are the signed 16-bit little-endian
    values at offsets 2-3 and 4-5 of the burst payload. *)
Theorem C4_motion_burst_decoding
  (r v0 : Z) (rest : list Z) (tr : list bus_event) :
  let b := mk_bus (r :: v0 :: rest) tr in
  let payload := fun k => to_uint8 (nth k (v0 :: rest) 0) in
  (Z.testbit v0 7 = false ->
   fst (motion_burst b) = (false, 0, 0)
   /\ device (snd (motion_burst b)) = rest)
  /\
  (Z.testbit v0 7 = true ->
   fst (motion_burst b)
   = (true, sint16_le (payload 2%nat) (payload 3%nat),
            sint16_le (payload 4%nat) (payload 5%nat))).
Proof.
  intros b payload. subst b payload. split; intros Htop.
  - unfold motion_burst, bind, transceive, assert_ncs, deassert_ncs,
      _delay_us, log, ret.
    cbn [spi_exchange spi_select spi_deselect scripted_device device trace
         fst snd BURST_LENGTH repeat store nth].
    rewrite top_bit, Htop. cbn. split; reflexivity.
  - unfold motion_burst, bind, transceive, assert_ncs, deassert_ncs,
      _delay_us, log, ret.
    cbn [spi_exchange spi_select spi_deselect scripted_device device trace
         fst snd BURST_LENGTH repeat store nth].
    rewrite top_bit, Htop.
    destruct rest as [|b1 [|b2 [|b3 [|b4 [|b5 rest]]]]];
      cbn [for_ Nat.sub bind ret transceive spi_exchange scripted_device
           device trace fst snd store nth load_int16];
      unfold bind, transceive, ret;
      cbn [for_ Nat.sub bind ret transceive spi_exchange scripted_device
           device trace fst snd store nth load_int16];
      rewrite <- !load_int16_bytes; reflexivity.
Qed.

Lemma C4_motion_burst_decoding_witness :
  (fst (motion_burst (mk_bus [0; 0x03; 9; 8; 7; 6; 5] []))
   = (false, 0, 0)
   /\ device (snd (motion_burst (mk_bus [0; 0x03; 9; 8; 7; 6; 5] [])))
      = [9; 8; 7; 6; 5])
  /\ fst (motion_burst (mk_bus [0; 0x83; 0; 0xfe; 0xff; 0x02; 0x01] []))
     = (true, -2, 258).
Proof.
  split.
  - apply (C4_motion_burst_decoding 0 0x03 [9; 8; 7; 6; 5] []). reflexivity.
  - apply (C4_motion_burst_decoding 0 0x83 [0; 0xfe; 0xff; 0x02; 0x01] []).
    reflexivity.
Defined.

(** ** The register protocol against a register file *)

Lemma write_address_byte (addr : Z) :
  0 <= addr < 128 ->
  Z.testbit (to_uint8 (Z.lor addr 0x80)) 7 = true
  /\ Z.land (to_uint8 (Z.lor addr 0x80)) 0x7f = addr.
Proof.
  intros Haddr.
  assert (Hlor : Z.lor addr 0x80 = addr + 128).
  { change 0x80 with (Z.shiftl 1 7).
    rewrite lor_shiftl_disjoint by (change (2 ^ 7) with 128; lia).
    reflexivity. }
  rewrite Hlor, to_uint8_small by lia. split.
  - change 7 with (Z.log2 128) at 1.
    replace (addr + 128) with (128 + addr) by ring.
    apply Z.testbit_true; [cbn; lia|].
    change (2 ^ Z.log2 128) with 128.
    replace ((128 + addr) / 128) with 1; [reflexivity|].
    apply Z.div_unique with addr; lia.
  - change 0x7f with (Z.ones 7). rewrite Z.land_ones by lia.
    change (2 ^ 7) with 128.
    replace (addr + 128) with (addr + 1 * 128) by ring.
    rewrite Z.mod_add by lia. apply Z.mod_small. lia.
Qed.

Lemma read_address_byte (addr : Z) :
  0 <= addr < 128 ->
  to_uint8 addr = addr /\ Z.testbit addr 7 = false.
Proof.
  intros Haddr. split; [apply to_uint8_small; lia|].
  apply Z.testbit_false; [lia|].
  change (2 ^ 7) with 128. rewrite Z.div_small by lia. reflexivity.
Qed.

(** [write] stores the byte in the register and ends the frame. *)
Lemma write_regfile (addr data : Z) (b : bus regfile) :
  0 <= addr < 128 ->
  device (snd (write addr data b))
  = mk_regfile (set_reg addr (to_uint8 data) (regs (device b))) Released.
Proof.
  intros Haddr. destruct (write_address_byte addr Haddr) as [Hbit Hland].
  unfold write, bind, transceive, assert_ncs, deassert_ncs, _delay_us, log.
  cbn [spi_exchange spi_select spi_deselect regfile_device device trace
       fst snd regs phase regfile_exchange].
  rewrite Hbit.
  cbn [spi_exchange spi_select spi_deselect regfile_device device trace
       fst snd regs phase regfile_exchange].
  rewrite Hland. reflexivity.
Qed.

(** [read] returns the register and leaves the registers as they were. *)
Lemma read_regfile (addr : Z) (b : bus regfile) :
  0 <= addr < 128 ->
  fst (read addr b) = to_uint8 (regs (device b) addr)
  /\ device (snd (read addr b)) = mk_regfile (regs (device b)) Released.
Proof.
  intros Haddr. destruct (read_address_byte addr Haddr) as [Hbyte Hbit].
  unfold read, bind, transceive, assert_ncs, deassert_ncs, _delay_us, log, ret.
  cbn [spi_exchange spi_select spi_deselect regfile_device device trace
       fst snd regs phase regfile_exchange].
  rewrite Hbyte, Hbit.
  cbn [spi_exchange spi_select spi_deselect regfile_device device trace
       fst snd regs phase regfile_exchange].
  split; reflexivity.
Qed.

Lemma split_join_uint16 (r : Z) :
  0 <= r < 65536 ->
  Z.lor
    (to_uint16
       (Z.shiftl (to_uint16 (to_uint8 (Z.land (Z.shiftr r 8) 0xff))) 8))
    (to_uint8 (Z.land r 0xff))
  = r.
Proof.
  intros Hr.
  change 0xff with (Z.ones 8). rewrite !Z.land_ones by lia.
  rewrite Z.shiftr_div_pow2 by lia. change (2 ^ 8) with 256.
  fold (to_uint8 (r / 256)). fold (to_uint8 r).
  assert (Hhi : to_uint8 (r / 256) = r / 256).
  { apply to_uint8_small. split; [apply Z.div_pos; lia|].
    apply Z.div_lt_upper_bound; lia. }
  pose proof (to_uint8_range r) as Hlo.
  rewrite !to_uint8_idem, !Hhi.
  assert (Hhi' : 0 <= r / 256 < 256) by (rewrite <- Hhi; apply to_uint8_range).
  unfold to_uint16. rewrite (Z.mod_small (r / 256)) by lia.
  rewrite Z.shiftl_mul_pow2 by lia. change (2 ^ 8) with 256.
  rewrite (Z.mod_small (r / 256 * 256)) by lia.
  rewrite Z.lor_comm.
  replace (r / 256 * 256) with (Z.shiftl (r / 256) 8)
    by (rewrite Z.shiftl_mul_pow2 by lia; reflexivity).
  rewrite lor_shiftl_disjoint by (change (2 ^ 8) with 256; lia).
  change (2 ^ 8) with 256. unfold to_uint8.
  pose proof (Z.div_mod r 256). lia.
Qed.

(** The resolution read back is the one that was written. *)
Lemma resolution_round_trip (resolution : Z) (b : bus regfile) :
  0 <= Z.quot resolution 50 < 65536 ->
  fst ((configure resolution ;; read_resolution) b) = Z.quot resolution 50.
Proof.
  intros Hr.
  unfold configure, read_resolution.
  rewrite (to_uint16_small _ Hr).
  set (r := Z.quot resolution 50) in *.
  rewrite !bind_eq.
  set (b1 := snd (write RESOLUTION_L (to_uint8 (Z.land r 255)) b)).
  set (b2 := snd (write RESOLUTION_H (to_uint8 (Z.land (Z.shiftr r 8) 255)) b1)).
  set (b3 := snd (write ANGLE_TUNE POINTER_ROTATION b2)).
  assert (H1 : device b1
               = mk_regfile
                   (set_reg RESOLUTION_L (to_uint8 (to_uint8 (Z.land r 255)))
                      (regs (device b))) Released).
  { apply write_regfile. unfold RESOLUTION_L. lia. }
  assert (H2 : device b2
               = mk_regfile
                   (set_reg RESOLUTION_H
                      (to_uint8 (to_uint8 (Z.land (Z.shiftr r 8) 255)))
                      (regs (device b1))) Released).
  { apply write_regfile. unfold RESOLUTION_H. lia. }
  assert (H3 : device b3
               = mk_regfile
                   (set_reg ANGLE_TUNE (to_uint8 POINTER_ROTATION)
                      (regs (device b2))) Released).
  { apply write_regfile. unfold ANGLE_TUNE. lia. }
  destruct (read_regfile RESOLUTION_H b3) as [Hh Hb4];
    [unfold RESOLUTION_H; lia|].
  set (b4 := snd (read RESOLUTION_H b3)) in *.
  destruct (read_regfile RESOLUTION_L b4) as [Hl _];
    [unfold RESOLUTION_L; lia|].
  cbn [ret fst]. rewrite Hh, Hl, Hb4, H3, H2, H1.
  cbn [regs set_reg RESOLUTION_H RESOLUTION_L ANGLE_TUNE Z.eqb Pos.eqb].
  rewrite !to_uint8_idem.
  apply split_join_uint16. exact Hr.
Qed.

(** C7.  For a resolution that is a multiple of 50 and whose fiftieth
    fits 16 bits, writing the fiftieth as two bytes to the resolution
    registers, low byte to the low register and high byte to the high
    register, then reading both registers and joining them as
    (high << 8) | low, gives the fiftieth back. *)
Theorem C7_resolution_round_trip (resolution : Z) (b : bus regfile) :
  resolution mod 50 = 0 ->
  0 <= resolution / 50 < 65536 ->
  fst ((configure resolution ;; read_resolution) b) = resolution / 50.
Proof.
  intros Hmultiple Hfits.
  assert (Hpos : 0 <= resolution).
  { pose proof (Z.div_mod resolution 50). lia. }
  rewrite <- (Z.quot_div_nonneg resolution 50) by lia.
  apply resolution_round_trip.
  rewrite Z.quot_div_nonneg by lia. exact Hfits.
Qed.

Lemma C7_resolution_round_trip_witness :
  fst ((configure RESOLUTION ;; read_resolution)
         (mk_bus (mk_regfile (fun _ => 0) Released) []))
  = RESOLUTION / 50.
Proof.
  apply (C7_resolution_round_trip RESOLUTION).
  - reflexivity.
  - unfold RESOLUTION. cbn. lia.
Defined.


(** * Further properties *)

(** ** The accumulators, continued *)

Lemma Qtrunc_nonneg (x : Q) :
  (0 <= x)%Q -> 0 <= Qtrunc x /\ (inject_Z (Qtrunc x) <= x)%Q.
Proof.
  destruct x as [n d]. unfold Qle, Qtrunc, inject_Z. simpl. intros Hn.
  assert (Hn' : 0 <= n) by lia.
  split.
  - apply Z.quot_pos; lia.
  - pose proof (Z.mul_quot_le n (Zpos d) Hn' ltac:(lia)). lia.
Qed.

Lemma Qtrunc_nonpos (x : Q) :
  (x <= 0)%Q -> Qtrunc x <= 0 /\ (x <= inject_Z (Qtrunc x))%Q.
Proof.
  destruct x as [n d]. unfold Qle, Qtrunc, inject_Z. simpl. intros Hn.
  assert (Hn' : n <= 0) by lia.
  pose proof (Z.quot_rem' n (Zpos d)) as Hdiv.
  pose proof (Z.rem_nonpos n (Zpos d) ltac:(discriminate) Hn') as Hsign.
  assert (Hrem : Z.abs (Z.rem n (Zpos d)) < Zpos d).
  { pose proof (Z.rem_bound_abs n (Zpos d)). lia. }
  split; nia.
Qed.

(** X2.  A report rounds toward zero.  For an axis whose scaled
    accumulated motion is finite with an integral part in the range of
    [int16_t], the delta reported has the sign of that motion and is
    not larger in magnitude, and the fraction kept has that sign too:
    [get_axes] never reports motion that has not been made. *)
Theorem X2_report_rounds_toward_zero (a : axes_t) (i : nat) :
  (i < 4)%nat ->
  is_finite (scaled a i) = true -> fits_int16 (trunc (scaled a i)) = true ->
  let motion := value (scaled a i) in
  let reported := nth i (fst (fst (get_axes a))) 0 in
  ((0 <= motion)%Q ->
   0 <= reported /\ (inject_Z reported <= motion)%Q
   /\ (0 <= value (kept a i))%Q)
  /\
  ((motion <= 0)%Q ->
   reported <= 0 /\ (motion <= inject_Z reported)%Q
   /\ (value (kept a i) <= 0)%Q).
Proof.
  intros Hi Hfin Hfits motion reported. subst motion reported.
  rewrite (get_axes_report_in_range a i Hi Hfin Hfits).
  destruct (modf_finite (scaled a i) Hfin (scaled_valid a i))
    as [_ [_ [Hsplit _]]].
  unfold kept. rewrite Hsplit. unfold trunc.
  split; intros Hsign.
  - destruct (Qtrunc_nonneg _ Hsign) as [Hq Hle].
    split; [exact Hq|]. split; [exact Hle|]. lra.
  - destruct (Qtrunc_nonpos _ Hsign) as [Hq Hle].
    split; [exact Hq|]. split; [exact Hle|]. lra.
Qed.

Lemma X2_report_rounds_toward_zero_witness :
  let a := apply_updates [(0, 130, false)] axes_init in
  nth 1 (fst (fst (get_axes a))) 0 <= 0
  /\ (value (scaled a 1) <= inject_Z (nth 1 (fst (fst (get_axes a))) 0%Z))%Q
  /\ (value (kept a 1) <= 0)%Q.
Proof.
  intros a.
  destruct (X2_report_rounds_toward_zero a 1) as [_ Hneg].
  - lia.
  - reflexivity.
  - reflexivity.
  - apply Hneg. vm_compute. discriminate.
Defined.

(** Adding the [double] of the integer zero changes at most the sign of
    a zero. *)
Lemma double_add_zero (x : double) :
  double_add x (double_of_int 0) = x
  \/ (x = S754_zero true /\ double_add x (double_of_int 0) = S754_zero false).
Proof.
  destruct x as [[|]|s| |s m e]; cbn; auto.
Qed.

Lemma scaled_no_motion (scroll : bool) (a : axes_t) (i : nat) :
  (i < 4)%nat ->
  is_finite (scaled (update_axes 0 0 scroll a) i) = is_finite (scaled a i)
  /\ (value (scaled (update_axes 0 0 scroll a) i) == value (scaled a i))%Q.
Proof.
  intros Hi.
  assert (Hmul : forall x : double,
            is_finite (double_mul (sensitivity i)
                         (double_add x (double_of_int 0)))
            = is_finite (double_mul (sensitivity i) x)
            /\ (value (double_mul (sensitivity i)
                         (double_add x (double_of_int 0)))
                == value (double_mul (sensitivity i) x))%Q).
  { intros x. destruct (double_add_zero x) as [->|[-> ->]].
    - split; reflexivity.
    - each_axis i Hi; split; reflexivity. }
  assert (Hopp : forall x : double,
            is_finite (double_mul (sensitivity i)
                         (double_opp (double_add x (double_of_int 0))))
            = is_finite (double_mul (sensitivity i) (double_opp x))
            /\ (value (double_mul (sensitivity i)
                         (double_opp (double_add x (double_of_int 0))))
                == value (double_mul (sensitivity i) (double_opp x)))%Q).
  { intros x. destruct (double_add_zero x) as [->|[-> ->]].
    - split; reflexivity.
    - each_axis i Hi; split; reflexivity. }
  unfold update_axes, scaled.
  each_axis i Hi; destruct scroll;
    cbn [Nat.mul Nat.add axis_add axis ax0 ax1 ax2 ax3];
    try (split; reflexivity); try apply Hmul; apply Hopp.
Qed.


(** ** Runs of ticks *)





(** X3.  Motion below one output unit is kept, not dropped.  On an
    accumulator below one unit whose scaled value is below one unit
    too, as [get_axes] leaves it, a call of [get_axes] reports zero on
    the axis and leaves the residual where it was, up to the rounding
    of the product and of the quotient: 2^-28 of a unit. *)
Theorem X3_quiet_report_keeps_residual (a : axes_t) (i : nat) :
  (i < 4)%nat ->
  is_finite (axis a i) = true -> (Qabs (residual a i) < 1)%Q ->
  (Qabs (value (scaled a i)) < 1)%Q ->
  nth i (fst (fst (get_axes a))) 0 = 0
  /\ (Qabs (residual (snd (get_axes a)) i - residual a i)
      <= rounding_allowance)%Q.
Proof.
  intros Hi Hfa Hres Hsmall.
  destruct (tick_scaled i [] a Hi eq_refl Hfa Hres) as [Hfx _].
  cbn [apply_updates fold_left] in Hfx.
  assert (Hzero : trunc (scaled a i) = 0).
  { unfold trunc. apply Qtrunc_small. exact Hsmall. }
  assert (Hfits : fits_int16 (trunc (scaled a i)) = true).
  { rewrite Hzero. reflexivity. }
  split.
  - rewrite (get_axes_report_in_range a i Hi Hfx Hfits). exact Hzero.
  - pose proof (tick_balance i [] a Hi eq_refl Hfa Hres Hfits) as Hbal.
    cbv zeta in Hbal. unfold tick in Hbal.
    cbn [apply_updates fold_left raw_since fold_right] in Hbal.
    rewrite (get_axes_report_in_range a i Hi Hfx Hfits), Hzero in Hbal.
    rewrite Z.mul_0_r in Hbal. change (inject_Z 0) with 0%Q in Hbal.
    apply Qabs_Qle_condition in Hbal.
    apply Qabs_Qle_condition. split; lra.
Qed.

Lemma X3_quiet_report_keeps_residual_witness :
  let a := apply_updates [(-59, 0, false)] axes_init in
  nth 0 (fst (fst (get_axes a))) 0 = 0
  /\ (Qabs (residual (snd (get_axes a)) 0 - residual a 0)
      <= rounding_allowance)%Q.
Proof.
  intros a.
  apply (X3_quiet_report_keeps_residual a 0);
    [lia | reflexivity | reflexivity | reflexivity].
Defined.






(** X19.  The split of [get_axes] is exact.  On an axis whose scaled
    accumulated motion is finite with an integral part in the range of
    [int16_t], the reported delta and the fraction kept add up to the
    scaled accumulated motion exactly: [modf] loses nothing.  The
    fraction is smaller than one, and the accumulator is left with
    that fraction divided by the sensitivity in [double] arithmetic
    (negated for pointer Y). *)
Theorem X19_split_is_exact (a : axes_t) (i : nat) :
  (i < 4)%nat ->
  is_finite (scaled a i) = true -> fits_int16 (trunc (scaled a i)) = true ->
  let report := nth i (fst (fst (get_axes a))) 0 in
  (inject_Z report + value (kept a i) == value (scaled a i))%Q
  /\ (Qabs (value (kept a i)) < 1)%Q
  /\ axis (snd (get_axes a)) i
     = double_div (if (i =? 1)%nat then double_opp (kept a i) else kept a i)
         (sensitivity i).
Proof.
  intros Hi Hfin Hfits report. subst report.
  rewrite (get_axes_report_in_range a i Hi Hfin Hfits).
  destruct (modf_finite (scaled a i) Hfin (scaled_valid a i))
    as [_ [_ [Hsplit _]]].
  split; [|split].
  - unfold kept. rewrite Hsplit. ring.
  - apply modf_fraction_small; [exact Hfin | apply scaled_valid].
  - apply get_axes_stored. exact Hi.
Qed.

Lemma X19_split_is_exact_witness :
  let a := apply_updates [(0, 0, false); (180, 0, true)] axes_init in
  (inject_Z 62 + value (kept a 2) == value (scaled a 2))%Q
  /\ (Qabs (value (kept a 2)) < 1)%Q
  /\ axis (snd (get_axes a)) 2 = double_div (kept a 2) WHEEL_SENSITIVITY_X.
Proof.
  intros a.
  apply (X19_split_is_exact a 2); [lia | reflexivity | reflexivity].
Defined.


(** ** The debouncer, continued *)

Section DebouncerInvariants.

Variable T : Z.

Lemma debounce_report_is_accepted (b : Z) (q : bool) (s : debounce_t) :
  fst (fst (debounce T b q s)) = old_buttons (snd (debounce T b q s)).
Proof.
  unfold debounce.
  destruct (debounce_count s =? 0).
  - destruct (negb (b =? old_buttons s)); reflexivity.
  - destruct (b =? new_buttons s);
      match goal with |- context [if ?c then _ else _] => destruct c end;
      reflexivity.
Qed.

Lemma debounce_flag_exact (b : Z) (s : debounce_t) :
  candidate_is_new s ->
  candidate_is_new (snd (debounce T b false s))
  /\ snd (fst (debounce T b false s))
     = negb (fst (fst (debounce T b false s)) =? old_buttons s).
Proof.
  intros Hs. destruct s as [a cand c]. unfold candidate_is_new in *.
  cbn [debounce_count new_buttons old_buttons] in *.
  unfold debounce. cbn [debounce_count new_buttons old_buttons].
  destruct (Z.eqb_spec c 0) as [Hc|Hc].
  - destruct (Z.eqb_spec b a) as [Hb|Hb]; cbn [negb fst snd];
      cbn [debounce_count new_buttons old_buttons];
      rewrite Z.eqb_refl; split; auto.
  - destruct Hs as [Hzero|Hnew]; [contradiction|].
    match goal with |- context [if ?g >? T then _ else _] =>
      destruct (g >? T) end;
      cbn [fst snd debounce_count new_buttons old_buttons].
    + split; [left; reflexivity|].
      destruct (Z.eqb_spec cand a); [contradiction | reflexivity].
    + rewrite Z.eqb_refl. split; [right; exact Hnew | reflexivity].
Qed.

Lemma run_flags_exact (bs : list Z) (s : debounce_t) :
  candidate_is_new s ->
  flags_exact (old_buttons s) (fst (run_debounce T bs s)) = true.
Proof.
  revert s. induction bs as [|b bs IH]; intros s Hs.
  - reflexivity.
  - rewrite run_debounce_cons. cbn [fst flags_exact].
    destruct (debounce_flag_exact b s Hs) as [Hnext Hflag].
    rewrite Hflag, eqb_reflx. cbn [andb].
    rewrite debounce_report_is_accepted. apply IH. exact Hnext.
Qed.

(** X6.  The changed mark of the debouncer is exact: from power-up, for
    every interval and every sequence of samples, a poll is marked as
    changed if and only if the mask it reports differs from the mask of
    the poll before. *)
Theorem X6_changed_mark_is_exact (bs : list Z) :
  flags_exact 0 (fst (run_debounce T bs debounce_init)) = true.
Proof.
  apply (run_flags_exact bs debounce_init). left. reflexivity.
Qed.

(** *** The counter *)

Section CounterBounded.

Hypothesis T_range : 1 <= T <= 254.

Lemma debounce_count_bounded (b : Z) (q : bool) (s : debounce_t) :
  0 <= debounce_count s <= T ->
  0 <= debounce_count (snd (debounce T b q s)) <= T.
Proof.
  intros Hc. destruct s as [a cand c].
  cbn [debounce_count] in Hc. unfold debounce.
  cbn [debounce_count new_buttons old_buttons].
  destruct (Z.eqb_spec c 0) as [Hz|Hz].
  - destruct (negb (b =? a)); cbn [snd debounce_count]; lia.
  - destruct (b =? cand).
    + rewrite to_uint8_small by lia.
      destruct (Z.gtb_spec (c + 1) T); cbn [snd debounce_count]; lia.
    + destruct (Z.gtb_spec 1 T); cbn [snd debounce_count]; lia.
Qed.

(** X7.  For an interval from 1 to 254 the counter of the debouncer
    stays between 0 and the interval through every sequence of samples:
    the 8-bit counter never wraps. *)
Theorem X7_counter_stays_within_interval (bs : list Z) (s : debounce_t) :
  0 <= debounce_count s <= T ->
  0 <= debounce_count (snd (run_debounce T bs s)) <= T.
Proof.
  revert s. induction bs as [|b bs IH]; intros s Hc.
  - exact Hc.
  - rewrite run_debounce_cons. cbn [snd]. apply IH.
    apply debounce_count_bounded. exact Hc.
Qed.

(** Samples that all differ from the candidate leave the mask as it is
    and the counter at 1. *)
Lemma run_noise (a b : Z) (noise : list Z) (c : Z) :
  c <> 0 ->
  forallb (fun x => negb (x =? b)) noise = true ->
  fst (run_debounce T noise (mk_debounce a b c))
  = repeat (a, false) (length noise)
  /\ (noise <> [] ->
      snd (run_debounce T noise (mk_debounce a b c)) = mk_debounce a b 1).
Proof.
  revert c. induction noise as [|x noise IH]; intros c Hc Hnoise.
  - split; [reflexivity | congruence].
  - cbn [forallb] in Hnoise. apply andb_prop in Hnoise.
    destruct Hnoise as [Hx Hnoise].
    assert (Hxb : x <> b).
    { destruct (Z.eqb_spec x b); [discriminate Hx | assumption]. }
    rewrite run_debounce_cons.
    rewrite (debounce_restart T ltac:(lia) a x b c false Hc Hxb).
    cbn [fst snd].
    destruct (IH 1 ltac:(discriminate) Hnoise) as [Hout Hstate].
    split.
    + cbn [length repeat]. rewrite Hout. reflexivity.
    + intros _. destruct noise as [|y noise].
      * reflexivity.
      * apply Hstate. discriminate.
Qed.

(** X8.  A candidate that was interrupted needs one sample less than a
    fresh one.  While the debouncer is debouncing the candidate [b],
    after one or more samples that are not [b], a mask that then holds
    [b] is accepted on the poll that completes [T] samples of [b], not
    [T] + 1. *)
Theorem X8_interrupted_candidate_accepted_early
  (a b c : Z) (noise : list Z) (m : nat) :
  c <> 0 ->
  noise <> [] ->
  forallb (fun x => negb (x =? b)) noise = true ->
  fst (run_debounce T (noise ++ repeat b m) (mk_debounce a b c))
  = single_change a b (length noise) m (Z.to_nat T - 1).
Proof.
  intros Hc Hnonempty Hnoise.
  rewrite run_debounce_app.
  destruct (run_noise a b noise c Hc Hnoise) as [Hout Hstate].
  cbn [fst]. rewrite Hout, (Hstate Hnonempty).
  replace 1 with (T - Z.of_nat (Z.to_nat T - 1)) at 1 by lia.
  rewrite (run_debouncing T T_range a b (Z.to_nat T - 1)) by lia.
  unfold single_change. rewrite repeat_app, <- app_assoc. reflexivity.
Qed.

Lemma run_first_change (bs : list Z) (a b c : Z) :
  b <> a -> 1 <= c <= T ->
  first_change a (fst (run_debounce T bs (mk_debounce a b c))) = None
  \/ first_change a (fst (run_debounce T bs (mk_debounce a b c))) = Some b.
Proof.
  intros Hba. revert c.
  induction bs as [|x bs IH]; intros c Hc.
  - left. reflexivity.
  - rewrite run_debounce_cons. cbn [fst first_change].
    destruct (Z.eqb_spec x b) as [Hx|Hx].
    + subst x. destruct (Z.eq_dec c T) as [HcT|HcT].
      * subst c. rewrite (debounce_accept T T_range a b false).
        cbn [fst snd].
        destruct (Z.eqb_spec b a); [contradiction|]. right. reflexivity.
      * rewrite (debounce_count_up T T_range a b c false) by lia.
        cbn [fst snd]. rewrite Z.eqb_refl. apply IH. lia.
    + rewrite (debounce_restart T ltac:(lia) a x b c false) by (lia || exact Hx).
      cbn [fst snd]. rewrite Z.eqb_refl. apply IH. lia.
Qed.

(** X9.  The debouncer only ever accepts the first sample that differed
    from the accepted mask.  From an idle debouncer, through every
    sequence of samples, either the reported mask never changes or its
    first change is to the first sample that was not the accepted
    mask. *)
Theorem X9_only_first_candidate_accepted (bs : list Z) (a cand : Z) :
  first_change a (fst (run_debounce T bs (mk_debounce a cand 0))) = None
  \/ first_change a (fst (run_debounce T bs (mk_debounce a cand 0)))
     = find (fun b => negb (b =? a)) bs.
Proof.
  revert cand. induction bs as [|x bs IH]; intros cand.
  - left. reflexivity.
  - rewrite run_debounce_cons. cbn [fst first_change find].
    destruct (Z.eqb_spec x a) as [Hx|Hx].
    + subst x. rewrite debounce_idle_same. cbn [fst snd negb].
      rewrite Z.eqb_refl. apply IH.
    + rewrite debounce_idle_start by exact Hx. cbn [fst snd negb].
      rewrite Z.eqb_refl. apply run_first_change; [exact Hx | lia].
Qed.

End CounterBounded.

End DebouncerInvariants.

Lemma X7_counter_stays_within_interval_witness :
  0 <= debounce_count
         (snd (run_debounce DEBOUNCE_INTERVAL [1; 1; 3; 1; 1; 1; 1; 1; 0; 2]
                 debounce_init))
    <= DEBOUNCE_INTERVAL.
Proof.
  apply (X7_counter_stays_within_interval DEBOUNCE_INTERVAL).
  - unfold DEBOUNCE_INTERVAL. lia.
  - unfold DEBOUNCE_INTERVAL. simpl. lia.
Defined.

Lemma X8_interrupted_candidate_accepted_early_witness :
  fst (run_debounce DEBOUNCE_INTERVAL ([0; 2] ++ repeat 1 8) (mk_debounce 0 1 3))
  = single_change 0 1 (length [0; 2]) 8 (Z.to_nat DEBOUNCE_INTERVAL - 1).
Proof.
  apply (X8_interrupted_candidate_accepted_early DEBOUNCE_INTERVAL).
  - unfold DEBOUNCE_INTERVAL. lia.
  - discriminate.
  - discriminate.
  - reflexivity.
Defined.

Lemma X9_only_first_candidate_accepted_witness :
  first_change 0
    (fst (run_debounce DEBOUNCE_INTERVAL [0; 4; 4; 1; 4; 4; 4; 4; 4; 4; 2]
            debounce_init)) = None
  \/ first_change 0
       (fst (run_debounce DEBOUNCE_INTERVAL [0; 4; 4; 1; 4; 4; 4; 4; 4; 4; 2]
               debounce_init))
     = find (fun b => negb (b =? 0)) [0; 4; 4; 1; 4; 4; 4; 4; 4; 4; 2].
Proof.
  apply (X9_only_first_candidate_accepted DEBOUNCE_INTERVAL).
  unfold DEBOUNCE_INTERVAL. lia.
Defined.

(** ** The callback *)

Lemma debounce_return (T b : Z) (q : bool) (s : debounce_t) :
  candidate_is_new s ->
  candidate_is_new (snd (debounce T b q s))
  /\ snd (fst (debounce T b q s))
     = q || negb (old_buttons (snd (debounce T b q s)) =? old_buttons s).
Proof.
  intros Hs. destruct s as [a cand c]. unfold candidate_is_new in *.
  cbn [debounce_count new_buttons old_buttons] in *.
  unfold debounce. cbn [debounce_count new_buttons old_buttons].
  destruct (Z.eqb_spec c 0) as [Hc|Hc].
  - destruct (Z.eqb_spec b a) as [Hb|Hb]; cbn [negb fst snd];
      cbn [debounce_count new_buttons old_buttons];
      rewrite Z.eqb_refl, orb_false_r; split; auto.
  - destruct Hs as [Hzero|Hnew]; [contradiction|].
    match goal with |- context [if ?g >? T then _ else _] =>
      destruct (g >? T) end;
      cbn [fst snd debounce_count new_buttons old_buttons].
    + split; [left; reflexivity|].
      destruct (Z.eqb_spec cand a); [contradiction|].
      rewrite orb_true_r. reflexivity.
    + rewrite Z.eqb_refl, orb_false_r. split; [right; exact Hnew | reflexivity].
Qed.

(** X10.  A mouse report is announced exactly when it carries news: for
    a report that is not a feature report, the callback returns true if
    and only if one of the four deltas it wrote is not zero or the
    accepted button mask changed during the call; the mask it wrote is
    the accepted mask after the call. *)
Theorem X10_report_announced_iff_news
  (T ReportType pind : Z) (u : usb_statics) (a : axes_t) :
  ReportType <> HID_REPORT_ITEM_Feature ->
  candidate_is_new (buttons_state u) ->
  let out := CALLBACK_HID_Device_CreateHIDReport T ReportType pind (u, a) in
  let u' := fst (snd out) in
  fst (fst out)
  = Some (MouseReport_Data (old_buttons (buttons_state u'))
            (fst (fst (get_axes a))))
  /\ snd (fst out)
     = any_nonzero (fst (fst (get_axes a)))
       || negb (old_buttons (buttons_state u')
                =? old_buttons (buttons_state u))
  /\ candidate_is_new (buttons_state u').
Proof.
  intros Htype Hs out u'. subst out u'.
  rewrite (CreateHIDReport_debounces T ReportType pind u a Htype).
  cbn [fst snd buttons_state].
  destruct (debounce_return T (read_buttons pind BUTTONS 0 0)
              (snd (fst (get_axes a))) (buttons_state u) Hs) as [Hnext Hret].
  rewrite debounce_report_is_accepted.
  split; [reflexivity|]. split; [|exact Hnext].
  rewrite Hret, get_axes_flag. reflexivity.
Qed.

Lemma X10_report_announced_iff_news_witness :
  let a := apply_updates [(0, 0, false); (3, 0, true)] axes_init in
  let out := CALLBACK_HID_Device_CreateHIDReport DEBOUNCE_INTERVAL 1 0xff
               (usb_init, a) in
  fst (fst out) = Some (MouseReport_Data 0 [0; 0; 1; 0])
  /\ snd (fst out) = true
  /\ candidate_is_new (buttons_state (fst (snd out))).
Proof.
  intros a out.
  destruct (X10_report_announced_iff_news DEBOUNCE_INTERVAL 1 0xff usb_init a)
    as [Hdata [Hret Hinv]].
  - discriminate.
  - left. reflexivity.
  - split; [exact Hdata|]. split; [exact Hret | exact Hinv].
Defined.

Lemma run_callback_cons (T ReportType pind : Z) (calls : list (Z * Z))
  (st : usb_statics * axes_t) :
  run_callback T ((ReportType, pind) :: calls) st
  = ((fst (CALLBACK_HID_Device_CreateHIDReport T ReportType pind st))
       :: fst (run_callback T calls
                 (snd (CALLBACK_HID_Device_CreateHIDReport T ReportType pind st))),
     snd (run_callback T calls
            (snd (CALLBACK_HID_Device_CreateHIDReport T ReportType pind st)))).
Proof.
  cbn [run_callback].
  destruct (CALLBACK_HID_Device_CreateHIDReport T ReportType pind st)
    as [[data r] st'].
  cbn [fst snd]. destruct (run_callback T calls st') as [out st''].
  reflexivity.
Qed.

Lemma callback_feature_once (T ReportType pind : Z) (u : usb_statics)
  (a : axes_t) :
  let out := CALLBACK_HID_Device_CreateHIDReport T ReportType pind (u, a) in
  (is_feature_report (fst out) = true ->
   feature_set u = false /\ feature_set (fst (snd out)) = true)
  /\ (feature_set u = true -> feature_set (fst (snd out)) = true)
  /\ (ReportType = HID_REPORT_ITEM_Feature ->
      buttons_state (fst (snd out)) = buttons_state u
      /\ snd (snd out) = a
      /\ snd (fst out) = negb (feature_set u)).
Proof.
  unfold CALLBACK_HID_Device_CreateHIDReport.
  destruct (Z.eqb_spec ReportType HID_REPORT_ITEM_Feature) as [Heq|Hne].
  - destruct (feature_set u) eqn:Hset; cbn; rewrite ?Hset; repeat split;
      try discriminate; try reflexivity.
  - destruct (get_axes a) as [[p q] a'].
    destruct (debounce T (read_buttons pind BUTTONS 0 0) q (buttons_state u))
      as [[m r] s'].
    cbn. repeat split; try discriminate; try contradiction; auto.
Qed.

Lemma run_callback_features (T : Z) (calls : list (Z * Z))
  (st : usb_statics * axes_t) :
  (length (filter is_feature_report (fst (run_callback T calls st)))
   <= if feature_set (fst st) then 0 else 1)%nat.
Proof.
  revert st. induction calls as [|[ReportType pind] calls IH]; intros [u a].
  - cbn. destruct (feature_set u); lia.
  - rewrite run_callback_cons. cbn [fst filter].
    destruct (callback_feature_once T ReportType pind u a) as [Hfirst [Hkeep _]].
    pose proof (IH (snd (CALLBACK_HID_Device_CreateHIDReport T ReportType pind
                            (u, a)))) as Hrest.
    destruct (snd (CALLBACK_HID_Device_CreateHIDReport T ReportType pind (u, a)))
      as [u' a'] eqn:Hsnd.
    cbn [fst snd] in *.
    destruct (is_feature_report
                (fst (CALLBACK_HID_Device_CreateHIDReport T ReportType pind (u, a))))
      eqn:Hfeat.
    + destruct (Hfirst eq_refl) as [Hu Hu'].
      rewrite Hu. rewrite Hu' in Hrest. cbn [length]. lia.
    + destruct (feature_set u) eqn:Hu.
      * rewrite (Hkeep eq_refl) in Hrest. exact Hrest.
      * destruct (feature_set u'); lia.
Qed.

(** X11.  The feature report is given once.  A request for a feature
    report returns true the first time and false ever after, and leaves
    the debouncer and the accumulators untouched; through every sequence
    of calls from power-up, whatever the report types and the pins, at
    most one feature report is written. *)
Theorem X11_feature_report_given_once
  (T pind : Z) (u : usb_statics) (a : axes_t) (calls : list (Z * Z)) :
  let out :=
    CALLBACK_HID_Device_CreateHIDReport T HID_REPORT_ITEM_Feature pind (u, a) in
  snd (fst out) = negb (feature_set u)
  /\ feature_set (fst (snd out)) = true
  /\ buttons_state (fst (snd out)) = buttons_state u
  /\ snd (snd out) = a
  /\ (length (filter is_feature_report
                (fst (run_callback T calls (usb_init, axes_init)))) <= 1)%nat.
Proof.
  intros out. subst out.
  destruct (callback_feature_once T HID_REPORT_ITEM_Feature pind u a)
    as [_ [_ Hfeature]].
  destruct (Hfeature eq_refl) as [Hbuttons [Haxes Hret]].
  split; [exact Hret|]. split.
  - unfold CALLBACK_HID_Device_CreateHIDReport.
    rewrite Z.eqb_refl. destruct (feature_set u) eqn:Hset; cbn; auto.
  - split; [exact Hbuttons|]. split; [exact Haxes|].
    apply (run_callback_features T calls (usb_init, axes_init)).
Qed.

(** ** The pins *)

Lemma forall_uint8 (P : Z -> bool) :
  forallb P (map Z.of_nat (seq 0 256)) = true ->
  forall x, 0 <= x < 256 -> P x = true.
Proof.
  intros Hall x Hx. rewrite forallb_forall in Hall. apply Hall.
  apply in_map_iff. exists (Z.to_nat x). split; [lia|].
  apply in_seq. lia.
Qed.

(** X12.  The mask read from the pins: for every reading of port D, bit
    0 of the mask is set when pin 2 (button C) is low, bit 1 when pin 5
    (button B) is low, bit 2 when pin 4 (button A) is low and bit 3 when
    pin 1 (button E) is low; the mask is below 16 and the other pins,
    the scroll pin among them, do not count.  The scroll flag is set
    when pin 3 is low. *)
Theorem X12_button_mask_of_pins (pind : Z) :
  0 <= pind < 256 ->
  read_buttons pind BUTTONS 0 0
  = Z.b2z (negb (Z.testbit pind BUTTON_C))
    + 2 * Z.b2z (negb (Z.testbit pind BUTTON_B))
    + 4 * Z.b2z (negb (Z.testbit pind BUTTON_A))
    + 8 * Z.b2z (negb (Z.testbit pind BUTTON_E))
  /\ scroll_mode pind = negb (Z.testbit pind SCROLL_BUTTON).
Proof.
  intros Hpind.
  assert (Hall :
    (read_buttons pind BUTTONS 0 0
     =? Z.b2z (negb (Z.testbit pind BUTTON_C))
        + 2 * Z.b2z (negb (Z.testbit pind BUTTON_B))
        + 4 * Z.b2z (negb (Z.testbit pind BUTTON_A))
        + 8 * Z.b2z (negb (Z.testbit pind BUTTON_E)))
    && Bool.eqb (scroll_mode pind) (negb (Z.testbit pind SCROLL_BUTTON))
    = true).
  { apply (forall_uint8
             (fun p =>
                (read_buttons p BUTTONS 0 0
                 =? Z.b2z (negb (Z.testbit p BUTTON_C))
                    + 2 * Z.b2z (negb (Z.testbit p BUTTON_B))
                    + 4 * Z.b2z (negb (Z.testbit p BUTTON_A))
                    + 8 * Z.b2z (negb (Z.testbit p BUTTON_E)))
                && Bool.eqb (scroll_mode p) (negb (Z.testbit p SCROLL_BUTTON))));
      [vm_compute; reflexivity | exact Hpind]. }
  apply andb_prop in Hall. destruct Hall as [Hmask Hscroll].
  split; [apply Z.eqb_eq; exact Hmask | apply eqb_prop; exact Hscroll].
Qed.

Lemma X12_button_mask_of_pins_witness :
  read_buttons 0xd3 BUTTONS 0 0 = 1 + 2 * 1 + 4 * 0 + 8 * 0
  /\ scroll_mode 0xd3 = true.
Proof.
  apply (X12_button_mask_of_pins 0xd3). lia.
Defined.

(** X13.  The setup of port D in [main]: whatever the registers held,
    afterwards the ground pin of the buttons is an output driven low,
    pin 0 and every pin from 1 to 5, so every button pin and the scroll
    pin, is an input with its pull-up on, and bit 7 of both registers is
    as it was. *)
Theorem X13_port_d_setup (ddrd portd : Z) :
  0 <= ddrd < 256 -> 0 <= portd < 256 ->
  setup_port_d ddrd portd
  = (Z.lor (Z.land ddrd 0x80) 0x40, Z.lor (Z.land portd 0x80) 0x3f)
  /\ Z.testbit (fst (setup_port_d ddrd portd)) BUTTON_GROUND = true
  /\ Z.testbit (snd (setup_port_d ddrd portd)) BUTTON_GROUND = false
  /\ forallb
       (fun pin =>
          negb (Z.testbit (fst (setup_port_d ddrd portd)) pin)
          && Z.testbit (snd (setup_port_d ddrd portd)) pin)
       (SCROLL_BUTTON :: BUTTONS) = true.
Proof.
  intros Hd Hp.
  pose (check := fun d p =>
    let r := setup_port_d d p in
    (fst r =? Z.lor (Z.land d 0x80) 0x40)
    && (snd r =? Z.lor (Z.land p 0x80) 0x3f)
    && Z.testbit (fst r) BUTTON_GROUND
    && negb (Z.testbit (snd r) BUTTON_GROUND)
    && forallb
         (fun pin => negb (Z.testbit (fst r) pin) && Z.testbit (snd r) pin)
         (SCROLL_BUTTON :: BUTTONS)).
  assert (Hall : check ddrd portd = true).
  { apply (forall_uint8 (fun d => forallb (fun p => check d p)
                                    (map Z.of_nat (seq 0 256))))
      in Hd; [|vm_compute; reflexivity].
    apply (forall_uint8 (fun p => check ddrd p)); assumption. }
  unfold check in Hall. cbv zeta in Hall.
  repeat (apply andb_prop in Hall; destruct Hall as [Hall ?]).
  apply Z.eqb_eq in Hall.
  match goal with H : (snd _ =? _) = true |- _ => apply Z.eqb_eq in H end.
  match goal with H : negb _ = true |- _ => apply negb_true_iff in H end.
  split.
  - destruct (setup_port_d ddrd portd) as [d p]. cbn [fst snd] in *. congruence.
  - repeat split; assumption.
Qed.

Lemma X13_port_d_setup_witness :
  setup_port_d 0xff 0x00 = (0xc0, 0x3f)
  /\ Z.testbit (fst (setup_port_d 0xff 0x00)) BUTTON_GROUND = true
  /\ Z.testbit (snd (setup_port_d 0xff 0x00)) BUTTON_GROUND = false
  /\ forallb
       (fun pin =>
          negb (Z.testbit (fst (setup_port_d 0xff 0x00)) pin)
          && Z.testbit (snd (setup_port_d 0xff 0x00)) pin)
       (SCROLL_BUTTON :: BUTTONS) = true.
Proof.
  apply (X13_port_d_setup 0xff 0x00); lia.
Defined.

(** ** The bus, continued *)

Lemma framed_app (s : bool) (es1 es2 : list bus_event) :
  framed s es1 = true -> framed s (es1 ++ es2) = framed false es2.
Proof.
  revert s. induction es1 as [|e es1 IH]; intros s Hes.
  - cbn in Hes. destruct s; [discriminate Hes | reflexivity].
  - destruct e; cbn [framed app] in *.
    + apply andb_prop in Hes. destruct Hes as [Hs Hes].
      rewrite Hs. cbn [andb]. apply IH. exact Hes.
    + apply IH. exact Hes.
    + apply IH. exact Hes.
    + apply andb_prop in Hes. destruct Hes as [Hs Hes].
      rewrite Hs. cbn [andb]. apply IH. exact Hes.
Qed.

Lemma framed_stream {A : Type} (t : Q) (f : A -> Z) (l : list A)
  (rest : list bus_event) :
  framed true (flat_map (fun c => [DelayUs t; Send (f c)]) l ++ rest)
  = framed true rest.
Proof.
  induction l as [|c l IH].
  - reflexivity.
  - cbn [flat_map app framed andb]. exact IH.
Qed.

Lemma framed_upload_frame (srom_data : list Byte.byte) :
  framed false (upload_frame srom_data) = true.
Proof.
  unfold upload_frame. cbn [app framed negb andb].
  rewrite framed_stream. reflexivity.
Qed.

Section BusFraming.
Context {D : Type} `{SpiDevice D}.

Lemma emits_configure (resolution : Z) :
  emits (configure resolution)
    (write_frame RESOLUTION_L
       (to_uint8 (Z.land (to_uint16 (Z.quot resolution 50)) 0xff))
     ++ write_frame RESOLUTION_H
          (to_uint8 (Z.land (Z.shiftr (to_uint16 (Z.quot resolution 50)) 8) 0xff))
     ++ write_frame ANGLE_TUNE POINTER_ROTATION).
Proof.
  unfold configure. cbv zeta.
  apply emits_bind; [apply emits_write | intros _].
  apply emits_bind; [apply emits_write | intros _].
  apply emits_write.
Qed.

Lemma emits_main_init (srom_data : list Byte.byte) :
  emits (main_init srom_data)
    ((before_upload ++ upload_frame srom_data ++ after_upload)
     ++ (write_frame RESOLUTION_L
           (to_uint8 (Z.land (to_uint16 (Z.quot RESOLUTION 50)) 0xff))
         ++ write_frame RESOLUTION_H
              (to_uint8 (Z.land (Z.shiftr (to_uint16 (Z.quot RESOLUTION 50)) 8) 0xff))
         ++ write_frame ANGLE_TUNE POINTER_ROTATION)
     ++ write_frame MOTION_BURST 0).
Proof.
  unfold main_init.
  apply emits_bind; [apply emits_reset | intros _].
  apply emits_bind; [apply emits_configure | intros _].
  apply emits_write.
Qed.

(** X14.  The bring-up keeps the framing of the bus.  For every
    firmware image and every device, in everything [main] puts on the
    bus from the reset of the sensor to the main loop, bytes are sent
    only while the chip is selected, the chip is never selected twice
    in a row, and the chip is released at the end; the same holds for
    every single [read] and [write]. *)
Theorem X14_bring_up_is_framed
  (srom_data : list Byte.byte) (addr data : Z) (d : D) :
  let b := mk_bus d [] in
  framed false (trace (snd (main_init srom_data b))) = true
  /\ framed false (trace (snd (reset srom_data b))) = true
  /\ framed false (trace (snd (read addr b))) = true
  /\ framed false (trace (snd (write addr data b))) = true.
Proof.
  intros b.
  rewrite emits_main_init, emits_reset, emits_read, emits_write.
  cbn [trace b app].
  assert (Hreset : framed false
                     (before_upload ++ upload_frame srom_data ++ after_upload)
                   = true).
  { rewrite framed_app by reflexivity.
    rewrite framed_app by apply framed_upload_frame.
    reflexivity. }
  split.
  - rewrite framed_app by exact Hreset. reflexivity.
  - split; [exact Hreset|]. split; reflexivity.
Qed.

Lemma motion_burst_idle (b : bus D) :
  Z.testbit
    (fst (spi_exchange 0
            (snd (spi_exchange MOTION_BURST (spi_select (device b)))))) 7
  = false ->
  fst (motion_burst b) = (false, 0, 0).
Proof.
  intros Hstatus.
  unfold motion_burst, bind, transceive, assert_ncs, deassert_ncs,
    _delay_us, log, ret.
  cbn [device trace fst snd BURST_LENGTH repeat store nth].
  change (to_uint8 MOTION_BURST) with MOTION_BURST.
  change (to_uint8 0) with 0.
  destruct (spi_exchange MOTION_BURST (spi_select (device b))) as [r0 d0].
  cbn [fst snd device trace] in *.
  destruct (spi_exchange 0 d0) as [v0 d1]. cbn [fst snd device trace] in *.
  rewrite top_bit, Hstatus. reflexivity.
Qed.

(** X15.  What a motion burst does on the bus, whatever the device: it
    selects the chip, sends the burst command and one zero byte, and,
    only when bit 7 of the byte that came back is set, five more zero
    bytes; it then releases the chip.  Without that bit it reports no
    motion; in both cases the two deltas lie in the signed 16-bit
    range. *)
Theorem X15_motion_burst_on_the_bus (b : bus D) :
  let status :=
    fst (spi_exchange 0
           (snd (spi_exchange MOTION_BURST (spi_select (device b))))) in
  (if Z.testbit status 7
   then trace (snd (motion_burst b)) = trace b ++ burst_frame_motion
        /\ fst (fst (fst (motion_burst b))) = true
   else trace (snd (motion_burst b)) = trace b ++ burst_frame_idle
        /\ fst (motion_burst b) = (false, 0, 0))
  /\ INT16_MIN <= snd (fst (fst (motion_burst b))) <= INT16_MAX
  /\ INT16_MIN <= snd (fst (motion_burst b)) <= INT16_MAX.
Proof.
  intros status. subst status.
  unfold motion_burst, bind, transceive, assert_ncs, deassert_ncs,
    _delay_us, log, ret.
  cbn [device trace fst snd BURST_LENGTH repeat store nth].
  change (to_uint8 MOTION_BURST) with MOTION_BURST.
  change (to_uint8 0) with 0.
  destruct (spi_exchange MOTION_BURST (spi_select (device b))) as [r0 d0].
  cbn [fst snd device trace].
  destruct (spi_exchange 0 d0) as [v0 d1]. cbn [fst snd device trace].
  rewrite top_bit.
  destruct (Z.testbit v0 7).
  - change (BURST_LENGTH - 1)%nat with 5%nat.
    cbn [for_]. unfold bind, transceive, ret.
    cbn [device trace fst snd]. change (to_uint8 0) with 0.
    destruct (spi_exchange 0 d1) as [v1 d2]. cbn [fst snd device trace].
    destruct (spi_exchange 0 d2) as [v2 d3]. cbn [fst snd device trace].
    destruct (spi_exchange 0 d3) as [v3 d4]. cbn [fst snd device trace].
    destruct (spi_exchange 0 d4) as [v4 d5]. cbn [fst snd device trace].
    destruct (spi_exchange 0 d5) as [v5 d6]. cbn [fst snd device trace].
    unfold load_int16. split.
    + split; [|reflexivity].
      unfold burst_frame_motion. rewrite <- !app_assoc. reflexivity.
    + split; apply to_int16_range.
  - cbn [fst snd device trace]. split.
    + split; [|reflexivity].
      unfold burst_frame_idle. rewrite <- !app_assoc. reflexivity.
    + unfold INT16_MIN, INT16_MAX. split; lia.
Qed.

Lemma main_loop_result (pind : Z) (a : axes_t) (b : bus D) :
  fst (main_loop pind a b)
  = update_axes (snd (fst (fst (motion_burst b)))) (snd (fst (motion_burst b)))
      (scroll_mode pind) a.
Proof.
  unfold main_loop, bind, ret.
  destruct (motion_burst b) as [[[valid dx] dy] b']. reflexivity.
Qed.

(** X16.  An idle device sends nothing.  When the scaled accumulated
    motion is finite and smaller than one on every axis, the motion
    burst comes back without the motion bit, the debouncer is idle and
    the pins read the accepted mask, then the turn of the main loop
    followed by a mouse report leaves the statics as they were, writes
    the accepted mask with four zero deltas and returns false. *)
Theorem X16_idle_device_sends_nothing
  (T ReportType pind : Z) (u : usb_statics) (a : axes_t) (b : bus D) :
  ReportType <> HID_REPORT_ITEM_Feature ->
  Z.testbit
    (fst (spi_exchange 0
            (snd (spi_exchange MOTION_BURST (spi_select (device b)))))) 7
  = false ->
  (forall i, (i < 4)%nat ->
     is_finite (scaled a i) = true /\ (Qabs (value (scaled a i)) < 1)%Q) ->
  debounce_count (buttons_state u) = 0 ->
  read_buttons pind BUTTONS 0 0 = old_buttons (buttons_state u) ->
  let a1 := fst (main_loop pind a b) in
  let out := CALLBACK_HID_Device_CreateHIDReport T ReportType pind (u, a1) in
  fst out
  = (Some (MouseReport_Data (old_buttons (buttons_state u)) [0; 0; 0; 0]),
     false)
  /\ fst (snd out) = u.
Proof.
  intros Htype Hstatus Hsmall Hidle Hpins a1 out. subst a1 out.
  rewrite main_loop_result.
  rewrite (motion_burst_idle b Hstatus). cbn [fst snd].
  set (a1 := update_axes 0 0 (scroll_mode pind) a).
  assert (Hzero : forall i, (i < 4)%nat ->
            cast_int16 (snd (modf (scaled a1 i))) = 0).
  { intros i Hi. destruct (Hsmall i Hi) as [Hfin Hlt].
    destruct (scaled_no_motion (scroll_mode pind) a i Hi) as [Hf Hv].
    fold a1 in Hf, Hv.
    assert (Htr : trunc (scaled a1 i) = 0).
    { apply Qtrunc_small. rewrite Hv. exact Hlt. }
    rewrite <- (get_axes_report a1 i Hi).
    rewrite (get_axes_report_in_range a1 i Hi); rewrite ?Htr, ?Hf; auto. }
  assert (Hreport : fst (get_axes a1) = ([0; 0; 0; 0], false)).
  { rewrite get_axes_eq. cbn [fst].
    rewrite (Hzero 0%nat), (Hzero 1%nat), (Hzero 2%nat), (Hzero 3%nat) by lia.
    reflexivity. }
  rewrite (CreateHIDReport_debounces T ReportType pind u a1 Htype).
  cbv zeta. rewrite Hreport, Hpins. cbn [fst snd].
  destruct u as [fs [old cand c]].
  cbn [buttons_state debounce_count old_buttons feature_set] in *. subst c.
  rewrite debounce_idle_same. cbn [fst snd].
  split; reflexivity.
Qed.

End BusFraming.

(** X17.  The register protocol round trip: against a register file, a
    [write] to a register followed by a [read] of that register gives
    back the byte written, and a [read] of any other register gives what
    that register held before the [write]. *)
Theorem X17_write_then_read (addr other data : Z) (b : bus regfile) :
  0 <= addr < 128 -> 0 <= other < 128 -> other <> addr ->
  fst (read addr (snd (write addr data b))) = to_uint8 data
  /\ fst (read other (snd (write addr data b)))
     = to_uint8 (regs (device b) other).
Proof.
  intros Haddr Hother Hne.
  destruct (read_regfile addr (snd (write addr data b)) Haddr) as [Hread _].
  destruct (read_regfile other (snd (write addr data b)) Hother) as [Hread' _].
  rewrite Hread, Hread', (write_regfile addr data b Haddr).
  cbn [regs]. unfold set_reg. rewrite Z.eqb_refl.
  destruct (Z.eqb_spec other addr) as [Heq|_]; [contradiction|].
  rewrite to_uint8_idem. split; reflexivity.
Qed.

Lemma X17_write_then_read_witness :
  let b := mk_bus (mk_regfile (fun k => k + 1) Released) [] in
  fst (read ANGLE_TUNE (snd (write ANGLE_TUNE POINTER_ROTATION b))) = 234
  /\ fst (read CONFIG2 (snd (write ANGLE_TUNE POINTER_ROTATION b))) = 17.
Proof.
  intros b.
  apply (X17_write_then_read ANGLE_TUNE CONFIG2 POINTER_ROTATION b).
  - unfold ANGLE_TUNE. lia.
  - unfold CONFIG2. lia.
  - discriminate.
Defined.

Lemma X16_idle_device_sends_nothing_witness :
  let a := snd (get_axes (apply_updates [(100, 50, false)] axes_init)) in
  let b := mk_bus [0; 0x07; 1; 2; 3] [] in
  let out :=
    CALLBACK_HID_Device_CreateHIDReport DEBOUNCE_INTERVAL 1 0xff
      (usb_init, fst (main_loop 0xff a b)) in
  fst out = (Some (MouseReport_Data 0 [0; 0; 0; 0]), false)
  /\ fst (snd out) = usb_init.
Proof.
  intros a b.
  apply (X16_idle_device_sends_nothing DEBOUNCE_INTERVAL 1 0xff usb_init a b);
    try reflexivity.
  - discriminate.
  - intros i Hi. each_axis i Hi; split; reflexivity.
Defined.

Lemma total_delay_app (es1 es2 : list bus_event) :
  (total_delay (es1 ++ es2) == total_delay es1 + total_delay es2)%Q.
Proof.
  induction es1 as [|e es1 IH].
  - cbn. ring.
  - destruct e; cbn [app total_delay]; rewrite IH; ring.
Qed.

Lemma total_delay_stream (l : list Byte.byte) :
  (total_delay
     (flat_map (fun c => [DelayUs 15; Send (Z.of_N (Byte.to_N c))]) l)
   == 15 * inject_Z (Z.of_nat (length l)))%Q.
Proof.
  induction l as [|c l IH].
  - reflexivity.
  - cbn [flat_map app total_delay length]. rewrite IH.
    rewrite Nat2Z.inj_succ. unfold Z.succ. rewrite inject_Z_plus. ring.
Qed.

(** X18.  The bring-up paces the upload: the time that [reset] spends in
    delays is the time it spends for an empty image plus 15 microseconds
    for each byte of the image, whatever the device. *)
Theorem X18_upload_adds_15us_per_byte
  (D : Type) (dev : SpiDevice D) (srom_data : list Byte.byte) (d : D) :
  (total_delay (trace (snd (reset srom_data (mk_bus d []))))
   == total_delay (trace (snd (reset [] (mk_bus d []))))
      + 15 * inject_Z (Z.of_nat (length srom_data)))%Q.
Proof.
  rewrite !emits_reset. cbn [trace app].
  rewrite !total_delay_app. unfold upload_frame.
  rewrite !total_delay_app, total_delay_stream.
  cbn [flat_map app]. change (total_delay []) with 0%Q.
  generalize (inject_Z (Z.of_nat (length srom_data))). intros n. ring.
Qed.
